(* ===== verification/_CoqProject ===== *)
-Q . S2P
Prelude.v
Scalars.v
DMatrix.v
LinAlg.v
Fixed.v
Lie.v
LieRoundtrip.v
Camera.v
LieJacobian.v
LM.v
LMStep.v
LMFloat.v
Calibration.v
Problem.v
TestOpt.v
