(* ===== verification/Prelude.v ===== *)
(** * A verification development for lm-rs (camera calibration by Levenberg-Marquardt)

    The program (src/src/*.rs) estimates the four pinhole intrinsics of a
    camera and one rigid pose per image by non-linear least squares.  It has
    four parts, leaves first, and two harnesses:

    - Lie-group utilities (src/src/optimize.rs, [skew_sym], [exp_map],
      [log_map], [exp_map_jacobian]): conversion between 6-vectors
      (translation part, rotation vector) and nalgebra isometries
      (unit quaternion + translation).
    - Projection model (optimize.rs, [project], [proj_jacobian_wrt_params],
      [proj_jacobian_wrt_point]).
    - The generic LM solver (src/src/lm.rs, trait [LMProblem] and
      [levenberg_marquardt]).
    - The calibration problem (optimize.rs, [Calibration], [decode_params]
      and its [LMProblem] impl [residual]/[jacobian]), which composes the
      first two and is consumed by the third through the trait.
    - The problem file loader (src/src/problem.rs, [Problem], [load],
      [test_load]) and the test [test_opt] of optimize.rs, which loads a
      problem, builds the calibration problem and its initial vector, runs
      the solver and prints the poses.

    ** Files, in dependency order

    - [Prelude] (this file): the scalar interface [Scalar]/[Trig] that every
      numeric definition is generic in, the option monad that models Rust
      panics, the index/slice helpers that model nalgebra's checked indexing
      (out of range is a panic, i.e. [None]), the hint database [lm] and the
      shared list lemmas.
    - [Scalars]: the two instances of the scalar interface.  [R] (Stdlib
      reals, with [sqrt], [sin], [cos], [acos]) gives the exact-arithmetic
      meaning of the f64 code and carries every theorem that needs field
      laws or trigonometry.  [float] (Rocq's primitive IEEE-754 binary64,
      the very type f64 is) runs the LM solver and the projection on
      concrete inputs by [vm_compute]; it has no sin/cos, so it has no
      [Trig] instance.
    - [DMatrix]: nalgebra's [DVector]/[DMatrix] as a record with explicit
      shape, and the operations lm.rs and optimize.rs call (zeros,
      transpose, product, negation, sum, norm, indexed writes,
      [fixed_view_mut(..).copy_from]) with nalgebra's shape checks as
      panics.  Also a Gaussian-elimination solver standing in for
      nalgebra's [lu().solve] (library code, not modelled line by line).
    - [LinAlg]: the [DMatrix] operations over [R]: index sums, soundness
      of the elimination, entries of products, transposes and the damping
      loop, the quadratic form of the damped normal matrix.
    - [Fixed]: the fixed-size nalgebra types of optimize.rs (Vector3,
      Matrix3, Quaternion, Isometry3, Point2) and their operations.
    - [Lie]: [skew_sym], [exp_map], [log_map], [exp_map_jacobian].
    - [LieRoundtrip]: the two round trips between [exp_map] and [log_map]
      and the sign convention of [log_map].
    - [Camera]: the projection model.
    - [LieJacobian]: [exp_map_jacobian] against the derivative of
      [exp_map] at zero rotation.
    - [LM]: the [LMProblem] interface (a Class with shape laws) and
      [levenberg_marquardt] as a loop body, a fuel-free structural loop on
      the iteration counter, and a step relation with its reachability.
    - [LMStep]: the accepted step solves the damped normal equations and
      descends.
    - [LMFloat]: the damping at the ends of binary64.
    - [Calibration]: [decode_params], [residual], [jacobian], the
      [LMProblem] instance, and the layout theorems.
    - [Problem]: the [Problem] record, Rust's [Result], [load] with the
      file system and the JSON parser as section variables, [test_load].
    - [TestOpt]: [test_opt] from the outcome of [load]: the setup
      ([lift_point], [populate_poses], [test_opt_setup]), the solve
      ([test_opt_run]), the printing loop ([print_transforms]) and the
      final assertion.

    ** What the theorems show

    - [LM] (lm.rs): every run reaches a final state within
      [max_iter - iteration + 1] steps (C1); the iteration counter never
      exceeds [max_iter], so [iteration += 1] cannot overflow [usize]
      (C10); over [R] the returned point's residual norm is at most the
      initial one (C2); a continuing step either keeps [x] and multiplies
      lambda by gamma or strictly decreases the residual norm and divides
      it (C21); a singular solve is recovered locally (C23); on any problem
      meeting the [LMShape] contract the solver never panics (C22) and
      every reachable state holds a vector of the problem's length, no
      panic being reachable (C9); when the candidate's residual norm is
      within [tol] of the current one the solver returns the current point,
      even when the candidate is better (C19).  The step relation [lm_step]
      and the function [lm_loop] are related by [lm_loop_star].
    - [LMStep] (lm.rs 28-50, over [R]): a pass that moves [x] moves it by
      a solution [dx] of the damped normal equations
      [(J^T J + lambda I) dx = -J^T f] (C3), and with [lambda > 0] that
      [dx] is a descent direction of [|f|^2 / 2] (C4); [LinAlg] proves the
      elimination sound and the quadratic form of [J^T J + lambda I].
    - [LMFloat] (lm.rs 48-57, binary64): with [gamma = 10] a damping of
      [0] stays [0] in every later state (C20); the example
      [lm_damping_extremes] evaluates the schedule from [1e-3] (321
      accepts reach [0], 312 rejects reach [+inf]).  Over [R] the damping
      would stay positive, which binary64 does not preserve, so no
      positivity theorem is stated.
    - [Calibration] (optimize.rs 150-268): [decode_params] reads the
      layout [4 + 6i] and panics exactly on a short vector (C24); the
      residual is the zipped reprojection errors followed by zeros (C6), at
      rows [2(iN+j)] on consistent input (C25), while after a short
      observation list of image 0 the rows of image 1 start at [2k], where
      the Jacobian rows still belong to image 0 (C13); the Jacobian is
      [2MN x (4 + 6M)] with exactly the two blocks of the chain rule per row
      pair (C5); the problem meets [LMShape], so the solver never panics on
      it (C7).
    - [Lie]: [skew_sym] (six indexed writes into a zero matrix) is the
      cross product (C26); [exp_map_jacobian] (two [copy_from] writes)
      maps [(d, w)] to [d + w x p] (C27); [exp_map] builds the unit
      axis-angle quaternion above the threshold (C28); both maps take the
      small-angle branch at or below [1e-6] (C29).
    - [LieRoundtrip]: [log_map (exp_map xi) = xi] for rotation angles in
      [(1e-6, 2 pi)] (C14) and [exp_map (log_map T) = T] for unit quaternions
      with [w > -1] above the threshold (C15), both exact over [R]; for
      [w < 0] [log_map] returns an angle above [pi], as it does not
      canonicalise the sign (C16).
    - [LieJacobian]: at a pose with zero rotation (the initial pose of
      [test_opt]) the translation columns of [exp_map_jacobian] are the
      derivative of the code's [exp_map] (C18), but the rotation columns are
      not: the small-angle branch makes [exp_map] constant in the rotation
      parameters, so the derivative is [0], while [exp_map_jacobian] gives
      [w x p] (C17).
    - [Camera]: [project] is affine in the intrinsics with linear part
      [proj_jacobian_wrt_params] (C30); [proj_jacobian_wrt_point] is its
      derivative (C31); the example [project_degenerate_float] evaluates
      two [z = 0] points to infinities/NaN in binary64, with no error.
    - [Problem] (problem.rs): [load] panics exactly on an I/O failure and
      returns [Err] only for a parse failure; [test_load] always panics
      (C12).
    - [TestOpt] (optimize.rs 270-345): the initial vector is
      [(550, 550, 320, 240)] followed by [(0, 0, 3, 0, 0, 0)] per kept
      image and decodes to zero-rotation poses (C8); the test always
      panics: the solve returns, then the printing loop panics when the
      file has more ground-truth poses than kept images, and
      [assert!(1==2)] panics otherwise (C11).

    No fuel is used: [lm_loop] recurses on [max_iter - iteration], the
    number of passes the [while] condition allows, and the residual and
    Jacobian loops recurse on the lists the Rust iterators walk.  The
    binary64 runs are closed computations checked by [vm_compute]; the
    300000 passes of [test_opt] are [N.to_nat 300000], never unfolded, since
    its theorems hold for every iteration cap.  The binary64 computations
    on fixed inputs ([lm_damping_extremes], [project_degenerate_float], the
    witnesses) depend on the rounding of the elimination that stands in
    for nalgebra's LU, and are evidence for the findings, not claims.

    ** Not modelled

    The file system, serde_json and the printing of [println!] and
    [eprintln!]: [load] and [test_opt] are modelled around them, the
    library calls being variables (for [load]) or the values printed (for
    [test_opt]).  nalgebra is a
    library: its LU decomposition is replaced by Gaussian elimination with
    partial pivoting (same [None] on a singular system, possibly different
    rounding), and its summation order inside norms and products is the
    left fold of [DMatrix].  libm's [sin]/[cos]/[acos] exist only at [R].

    ** Next steps

    The pose columns of the Jacobian away from zero rotation, where the
    additive update of the Lie-algebra parameters and the left perturbation
    of [exp_map_jacobian] differ; the binary64 behaviour of [log_map] when
    rounding pushes [w] outside [[-1, 1]].

    ** Conventions

    Every numeric definition takes the scalar type as an implicit argument
    with a [Scalar] instance; operations are written with the
    notations of [scalar_scope] ([⊕], [⊗], [≺] for f64 [<] ...), in the order the
    Rust expressions evaluate them, so that the [float] instance computes
    what the binary computes up to the order of reductions inside
    nalgebra's library routines. *)

From Stdlib Require Import List Arith ZArith Lia Bool.
Import ListNotations.

(** ** The scalar interface *)

(** The operations of f64 that the source uses.  [s_ltb a b] is Rust's
    [a < b]; [s_is_zero] is nalgebra's [is_zero]; [s_of_Z] builds the
    literal constants. *)
Class Scalar (K : Type) := {
  s_zero : K;
  s_one : K;
  s_add : K -> K -> K;
  s_sub : K -> K -> K;
  s_mul : K -> K -> K;
  s_div : K -> K -> K;
  s_opp : K -> K;
  s_abs : K -> K;
  s_sqrt : K -> K;
  s_ltb : K -> K -> bool;
  s_is_zero : K -> bool;
  s_of_Z : Z -> K
}.

(** The transcendental functions of f64 that optimize.rs calls. *)
Class Trig (K : Type) := {
  s_sin : K -> K;
  s_cos : K -> K;
  s_acos : K -> K
}.

Declare Scope scalar_scope.
Delimit Scope scalar_scope with sc.
Infix "⊕" := s_add (at level 50, left associativity) : scalar_scope.
Infix "⊖" := s_sub (at level 50, left associativity) : scalar_scope.
Infix "⊗" := s_mul (at level 40, left associativity) : scalar_scope.
Infix "⊘" := s_div (at level 40, left associativity) : scalar_scope.
Infix "≺" := s_ltb (at level 70, no associativity) : scalar_scope.
Open Scope scalar_scope.

Section Constants.
Context {K : Type} `{Scalar K}.

(** The literals [2.0], [0.5] and [1e-6] of the source. *)
Definition s_two : K := s_of_Z 2.
Definition s_half : K := s_one ⊘ s_two.
Definition lie_eps : K := s_one ⊘ s_of_Z 1000000.

(** [f64::powi]: repeated multiplication. *)
Fixpoint powi (x : K) (n : nat) : K :=
  match n with
  | 0 => s_one
  | S n' => x ⊗ powi x n'
  end.
End Constants.

(** ** Rust panics as an option monad *)

Declare Scope opt_scope.
Delimit Scope opt_scope with opt.
Notation "x <- c1 ;; c2" :=
  (match c1 with Some x => c2 | None => None end)
  (at level 60, c1 at next level, right associativity) : opt_scope.
Notation "' p <- c1 ;; c2" :=
  (match c1 with Some p => c2 | None => None end)
  (at level 60, p pattern, c1 at next level, right associativity) : opt_scope.
Open Scope opt_scope.

(** [opt_all] collects a list of results; one panic makes the whole
    collection panic (what [.map(..).collect()] does when a closure
    panics). *)
Fixpoint opt_all {A} (l : list (option A)) : option (list A) :=
  match l with
  | [] => Some []
  | o :: l' => x <- o ;; xs <- opt_all l' ;; Some (x :: xs)
  end.

(** ** Checked indexing *)

(** [replace_nth n a l] is the indexed write [l[n] = a]; out of range it
    panics. *)
Fixpoint replace_nth {A} (n : nat) (a : A) (l : list A) : option (list A) :=
  match l, n with
  | [], _ => None
  | _ :: t, 0 => Some (a :: t)
  | h :: t, S n' => option_map (cons h) (replace_nth n' a t)
  end.

(** [slice start len l] is a fixed-size view [l[start .. start+len]];
    a view that does not fit panics. *)
Definition slice {A} (start len : nat) (l : list A) : option (list A) :=
  if start + len <=? length l then Some (firstn len (skipn start l)) else None.

Create HintDb lm.
Create Rewrite HintDb lm_rw.

(** ** Shared list lemmas *)

Section ListLemmas.
Context {A : Type}.

Lemma replace_nth_some (n : nat) (a : A) (l : list A) :
  n < length l -> exists l', replace_nth n a l = Some l'.
Proof.
  revert n; induction l as [|h t IH]; intros [|n] Hn; simpl in *; try lia;
    [eexists; reflexivity|].
  destruct (IH n) as [l' ->]; [lia|]. eexists; reflexivity.
Qed.

Lemma replace_nth_none (n : nat) (a : A) (l : list A) :
  length l <= n -> replace_nth n a l = None.
Proof.
  revert n; induction l as [|h t IH]; intros [|n] Hn; simpl in *; try lia; auto.
  rewrite IH by lia. reflexivity.
Qed.

Lemma replace_nth_length (n : nat) (a : A) (l l' : list A) :
  replace_nth n a l = Some l' -> length l' = length l.
Proof.
  revert n l'; induction l as [|h t IH]; intros [|n] l' E; simpl in *;
    try discriminate.
  - injection E as <-. reflexivity.
  - destruct (replace_nth n a t) eqn:E'; simpl in E; try discriminate.
    injection E as <-. simpl. f_equal. eauto.
Qed.

Lemma replace_nth_nth (n : nat) (a d : A) (l l' : list A) (k : nat) :
  replace_nth n a l = Some l' ->
  nth k l' d = if Nat.eqb k n then a else nth k l d.
Proof.
  revert n k l'; induction l as [|h t IH]; intros [|n] k l' E; simpl in *;
    try discriminate.
  - injection E as <-. destruct k; reflexivity.
  - destruct (replace_nth n a t) eqn:E'; simpl in E; try discriminate.
    injection E as <-. destruct k; simpl; [reflexivity|]. eauto.
Qed.

Lemma slice_some (start len : nat) (l : list A) :
  start + len <= length l ->
  slice start len l = Some (firstn len (skipn start l)).
Proof.
  unfold slice; intros Hle. apply Nat.leb_le in Hle. now rewrite Hle.
Qed.

Lemma slice_none (start len : nat) (l : list A) :
  length l < start + len -> slice start len l = None.
Proof.
  unfold slice; intros Hlt.
  destruct (Nat.leb_spec (start + len) (length l)); [lia|reflexivity].
Qed.

Lemma slice_length (start len : nat) (l s : list A) :
  slice start len l = Some s -> length s = len.
Proof.
  unfold slice. destruct (Nat.leb_spec (start + len) (length l)); [|discriminate].
  intros E; injection E as <-. rewrite length_firstn, length_skipn. lia.
Qed.

Lemma slice_nth (start len : nat) (l s : list A) (d : A) (k : nat) :
  slice start len l = Some s -> k < len -> nth k s d = nth (start + k) l d.
Proof.
  unfold slice. destruct (Nat.leb_spec (start + len) (length l)); [|discriminate].
  intros E Hk; injection E as <-.
  rewrite nth_firstn. destruct (Nat.ltb_spec k len); [|lia].
  rewrite nth_skipn. f_equal; lia.
Qed.

Lemma nth_map_lt {B} (f : A -> B) (l : list A) (i : nat) (d : B) (d' : A) :
  i < length l -> nth i (map f l) d = f (nth i l d').
Proof.
  intros Hi. rewrite (nth_indep _ d (f d')) by (rewrite length_map; lia).
  apply map_nth.
Qed.

Lemma skipn_S_nth (j : nat) (l : list A) (d : A) :
  j < length l -> skipn j l = nth j l d :: skipn (S j) l.
Proof.
  revert l; induction j as [|j IH]; intros [|x l] Hj; simpl in *; try lia; auto.
  apply IH. lia.
Qed.

Lemma combine_map_r {B} (f : A -> B) (l : list A) :
  combine l (map f l) = map (fun x => (x, f x)) l.
Proof. induction l as [|x l IH]; simpl; [reflexivity|]. now rewrite IH. Qed.

Lemma skipn_repeat (k n : nat) (a : A) : skipn k (repeat a n) = repeat a (n - k).
Proof.
  revert n; induction k as [|k IH]; intros [|n]; simpl; auto.
Qed.

(** Reading a [flat_map] whose blocks all have width [w] by block and
    offset. *)
Lemma nth_flat_map_block {B} (f : B -> list A) (l : list B) (w i k : nat) (d : A) (d0 : B) :
  (forall x, In x l -> length (f x) = w) -> i < length l -> k < w ->
  nth (i * w + k) (flat_map f l) d = nth k (f (nth i l d0)) d.
Proof.
  revert i; induction l as [|x l IH]; intros i Hw Hi Hk; simpl in *; [lia|].
  destruct i as [|i].
  - rewrite app_nth1 by (rewrite Hw by auto; lia). reflexivity.
  - rewrite app_nth2 by (rewrite Hw by auto; lia). rewrite Hw by auto.
    replace (S i * w + k - w) with (i * w + k) by lia. apply IH; auto; lia.
Qed.

Lemma opt_all_length (l : list (option A)) (r : list A) :
  opt_all l = Some r -> length r = length l.
Proof.
  revert r; induction l as [|o l IH]; intros r E; simpl in *.
  - now injection E as <-.
  - destruct o; [|discriminate]. destruct (opt_all l); [|discriminate].
    injection E as <-. simpl. f_equal. auto.
Qed.

Lemma opt_all_nth (l : list (option A)) (r : list A) (d : A) (k : nat) :
  opt_all l = Some r -> k < length l -> Some (nth k r d) = nth k l None.
Proof.
  revert r k; induction l as [|o l IH]; intros r k E Hk; simpl in *; [lia|].
  destruct o; [|discriminate]. destruct (opt_all l) eqn:E'; [|discriminate].
  injection E as <-. destruct k; simpl; [reflexivity|]. apply IH; auto; lia.
Qed.

Lemma opt_all_map_some {B} (f : B -> option A) (g : B -> A) (l : list B) :
  (forall b, In b l -> f b = Some (g b)) -> opt_all (map f l) = Some (map g l).
Proof.
  induction l as [|b l IH]; intros Hfg; simpl; [reflexivity|].
  rewrite (Hfg b (or_introl eq_refl)), IH; [reflexivity|].
  intros b' Hb'. apply Hfg. simpl; auto.
Qed.

Lemma opt_all_none (l : list (option A)) : In None l -> opt_all l = None.
Proof.
  induction l as [|o l IH]; intros Hin; simpl in *; [contradiction|].
  destruct Hin as [->|Hin]; [reflexivity|]. destruct o; [|reflexivity].
  now rewrite IH.
Qed.

Lemma opt_all_some (l : list (option A)) :
  (forall o, In o l -> exists a, o = Some a) ->
  exists r, opt_all l = Some r.
Proof.
  induction l as [|o l IH]; intros Hall; simpl; [eauto|].
  destruct (Hall o (or_introl eq_refl)) as [a ->].
  destruct IH as [r ->]; [intros; apply Hall; simpl; auto|]. eauto.
Qed.
(** [k] copies of a block of width [w] laid end to end. *)
Lemma length_concat_repeat (l : list A) (k : nat) :
  length (concat (repeat l k)) = k * length l.
Proof. induction k as [|k IH]; simpl; [reflexivity|]. rewrite length_app, IH. lia. Qed.

Lemma skipn_concat_repeat (l : list A) (k i : nat) :
  i <= k -> skipn (i * length l) (concat (repeat l k)) = concat (repeat l (k - i)).
Proof.
  revert k; induction i as [|i IH]; intros [|k] Hi; simpl; try reflexivity; try lia.
  replace (length l + i * length l) with (i * length l + length l) by lia.
  rewrite <- skipn_skipn, skipn_app, Nat.sub_diag, (skipn_all2 l) by lia.
  simpl. apply IH. lia.
Qed.
End ListLemmas.

#[export] Hint Resolve replace_nth_length slice_length opt_all_length : lm.
#[export] Hint Rewrite @slice_some @replace_nth_none using lia : lm_rw.

(** [inv H] inverts a hypothesis and cleans up. *)
Ltac inv H := inversion H; subst; clear H.

(** [nat_cases] decides every boolean comparison of naturals in the goal,
    dropping the contradictory cases by [lia]. *)
Ltac nat_cases :=
  repeat (match goal with
          | |- context [Nat.ltb ?a ?b] => destruct (Nat.ltb_spec a b)
          | |- context [Nat.leb ?a ?b] => destruct (Nat.leb_spec a b)
          end; cbn [andb orb negb]); try lia; try reflexivity.

(** [opt_destr] splits on the first option scrutinee of the goal's
    hypotheses, the way a proof follows a chain of [<- ;;] binds. *)
Ltac opt_destr :=
  match goal with
  | H : context [match ?c with Some _ => _ | None => _ end] |- _ =>
      let E := fresh "E" in destruct c eqn:E; [|discriminate]
  end.
