(* ===== verification/Scalars.v ===== *)
(** * The instances of the scalar interface

    [scalar_R]/[trig_R] read every operation of f64 as the exact real
    operation: the meaning the spec gives the code, and the instance the
    algebraic and analytic theorems are proved at.  [scalar_float] is
    Rocq's primitive binary64, the type f64 is, so that the solver and the
    projection evaluate by [vm_compute] exactly as the hardware would on
    each elementary operation.  The tactic [rsimpl] unfolds the interface at
    [R] so that [ring], [field], [lra] and [nra] see real arithmetic. *)

From Stdlib Require Import Reals Lra ZArith PrimFloat Uint63 Bool.
From S2P Require Import Prelude.

(** ** The reals *)

Definition Rltb (a b : R) : bool := if Rlt_dec a b then true else false.
Definition Ris_zero (a : R) : bool := if Req_dec_T a 0 then true else false.

#[export] Instance scalar_R : Scalar R := {
  s_zero := 0%R;
  s_one := 1%R;
  s_add := Rplus;
  s_sub := Rminus;
  s_mul := Rmult;
  s_div := Rdiv;
  s_opp := Ropp;
  s_abs := Rabs;
  s_sqrt := R_sqrt.sqrt;
  s_ltb := Rltb;
  s_is_zero := Ris_zero;
  s_of_Z := IZR
}.

#[export] Instance trig_R : Trig R := {
  s_sin := Rtrigo_def.sin;
  s_cos := Rtrigo_def.cos;
  s_acos := Ratan.acos
}.

Ltac rsimpl :=
  cbn [s_zero s_one s_add s_sub s_mul s_div s_opp s_abs s_sqrt s_ltb
       s_is_zero s_of_Z s_sin s_cos s_acos scalar_R trig_R] in *.

Lemma Rltb_spec (a b : R) : reflect (a < b)%R (Rltb a b).
Proof. unfold Rltb; destruct (Rlt_dec a b); constructor; auto. Qed.

Lemma Rltb_true (a b : R) : Rltb a b = true <-> (a < b)%R.
Proof. destruct (Rltb_spec a b); split; auto; discriminate. Qed.

Lemma Rltb_false (a b : R) : Rltb a b = false <-> (b <= a)%R.
Proof.
  destruct (Rltb_spec a b); split; intros; try discriminate; auto; lra.
Qed.

Lemma Ris_zero_spec (a : R) : reflect (a = 0)%R (Ris_zero a).
Proof. unfold Ris_zero; destruct (Req_dec_T a 0); constructor; auto. Qed.

(** The literals of the source at [R]. *)
Lemma s_two_R : @s_two R _ = 2%R.
Proof. reflexivity. Qed.

Lemma s_half_R : @s_half R _ = (1 / 2)%R.
Proof. reflexivity. Qed.

Lemma lie_eps_R : @lie_eps R _ = (1 / 1000000)%R.
Proof. reflexivity. Qed.

Lemma lie_eps_R_pos : (0 < @lie_eps R _)%R.
Proof. rewrite lie_eps_R. lra. Qed.

Lemma powi_R (x : R) (n : nat) : @powi R _ x n = (x ^ n)%R.
Proof. induction n as [|n IH]; simpl; [reflexivity|]. now rewrite IH. Qed.

Lemma s_half_mul_R (x : R) : (@s_half R _ ⊗ x) = (x / 2)%R.
Proof. rsimpl. unfold s_half, s_two; rsimpl. field. Qed.

#[export] Hint Rewrite s_two_R s_half_R lie_eps_R powi_R : lm_rw.

(** ** IEEE-754 binary64 *)

Definition float_of_Z (z : Z) : float :=
  if (z <? 0)%Z then PrimFloat.opp (PrimFloat.of_uint63 (Uint63.of_Z (- z)))
  else PrimFloat.of_uint63 (Uint63.of_Z z).

#[export] Instance scalar_float : Scalar float := {
  s_zero := 0%float;
  s_one := 1%float;
  s_add := PrimFloat.add;
  s_sub := PrimFloat.sub;
  s_mul := PrimFloat.mul;
  s_div := PrimFloat.div;
  s_opp := PrimFloat.opp;
  s_abs := PrimFloat.abs;
  s_sqrt := PrimFloat.sqrt;
  s_ltb := PrimFloat.ltb;
  s_is_zero := fun x => PrimFloat.eqb x 0%float;
  s_of_Z := float_of_Z
}.

(** The literal [1e-6] of the source is the binary64 the Rust compiler
    reads it as, the binary64 nearest to 10^-6: [1 / 1000000] is correctly
    rounded, like the parser. *)
Lemma lie_eps_float : @lie_eps float _ = 0x1.0c6f7a0b5ed8dp-20%float.
Proof. vm_compute. reflexivity. Qed.
