(* ===== verification/DMatrix.v ===== *)
(** * nalgebra's dynamic vectors and matrices

    [DVector<f64>] is a [list K]; [DMatrix<f64>] is the record [DMat] of its
    shape and its rows.  Each operation that lm.rs and optimize.rs call is
    written with the shape check nalgebra performs, a failed check being a
    panic ([None]).  [lu_solve] is a Gaussian elimination with partial
    pivoting standing in for [jtj_with_lambda.lu().solve(b)]: [None] is a
    singular system, exactly as nalgebra's [Option] result. *)

From Stdlib Require Import List Arith Lia Bool.
Import ListNotations.
From S2P Require Import Prelude.

Section DMatrix.
Context {K : Type} `{Scalar K}.

(** ** Vectors *)

Definition dvzeros (n : nat) : list K := repeat s_zero n.

(** [-v] *)
Definition dvneg (v : list K) : list K := map s_opp v.

(** [&u + &v]: the shapes must agree. *)
Definition dvadd (u v : list K) : option (list K) :=
  if length u =? length v then Some (map (fun p => fst p ⊕ snd p) (combine u v))
  else None.

(** The dot product, accumulated left to right from zero. *)
Definition dot (u v : list K) : K :=
  fold_left (fun acc p => acc ⊕ fst p ⊗ snd p) (combine u v) s_zero.

(** [v.norm()]: the square root of the sum of squares. *)
Definition dvnorm (v : list K) : K := s_sqrt (dot v v).

(** [splice c seg row] overwrites [row[c .. c + len seg]] with [seg]. *)
Definition splice (c : nat) (seg row : list K) : list K :=
  firstn c row ++ seg ++ skipn (c + length seg) row.

(** [v.fixed_view_mut::<n, 1>(i, 0).copy_from(&seg)] with [n = len seg]. *)
Definition dvcopy (i : nat) (seg v : list K) : option (list K) :=
  if i + length seg <=? length v then Some (splice i seg v) else None.

(** ** Matrices *)

Record DMat := mkDMat { nrows : nat; ncols : nat; rows : list (list K) }.

(** The shape invariant nalgebra's type keeps. *)
Definition dmat_wf (M : DMat) : Prop :=
  length (rows M) = nrows M /\ Forall (fun r => length r = ncols M) (rows M).

(** [DMatrix::zeros(r, c)] *)
Definition dzeros (r c : nat) : DMat := mkDMat r c (repeat (dvzeros c) r).

(** [M[(i, j)]], read with the zero default outside the shape. *)
Definition dget (M : DMat) (i j : nat) : K := nth j (nth i (rows M) []) s_zero.

(** [M[(i, j)] = v]: out of range panics. *)
Definition dset (M : DMat) (i j : nat) (v : K) : option DMat :=
  if (i <? nrows M) && (j <? ncols M) then
    row <- nth_error (rows M) i ;;
    row' <- replace_nth j v row ;;
    rs <- replace_nth i row' (rows M) ;;
    Some (mkDMat (nrows M) (ncols M) rs)
  else None.

(** [M.transpose()] *)
Definition dtranspose (M : DMat) : DMat :=
  mkDMat (ncols M) (nrows M)
    (map (fun j => map (fun r => nth j r s_zero) (rows M)) (seq 0 (ncols M))).

(** [A * v]: the columns of [A] must match the length of [v]. *)
Definition dmatvec (A : DMat) (v : list K) : option (list K) :=
  if ncols A =? length v then Some (map (fun r => dot r v) (rows A)) else None.

(** The product of row [i] of [A] with column [j] of [B], for every
    [(i, j)]; the product of fixed-size matrices, whose shapes the types
    check. *)
Definition dmul_raw (A B : DMat) : DMat :=
  mkDMat (nrows A) (ncols B)
    (map (fun r => map (fun c => dot r c) (rows (dtranspose B))) (rows A)).

(** [A * B] of dynamic matrices: the inner dimensions must agree. *)
Definition dmul (A B : DMat) : option DMat :=
  if ncols A =? nrows B then Some (dmul_raw A B) else None.

(** [M.fixed_view_mut::<p, q>(r, c).copy_from(&B)] with [B] of shape
    [p x q]: the view must fit. *)
Definition dcopy_block (r c : nat) (B M : DMat) : option DMat :=
  if (r + nrows B <=? nrows M) && (c + ncols B <=? ncols M) then
    Some (mkDMat (nrows M) (ncols M)
            (map (fun ir => let '(i, row) := ir in
                            if (r <=? i) && (i <? r + nrows B)
                            then splice c (nth (i - r) (rows B) []) row
                            else row)
                 (combine (seq 0 (nrows M)) (rows M))))
  else None.

(** The loop [for i in 0..m.nrows() { m[(i, i)] += lambda }]. *)
Definition add_diagonal (lambda : K) (M : DMat) : option DMat :=
  fold_left (fun acc i => m <- acc ;; dset m i i (dget m i i ⊕ lambda))
            (seq 0 (nrows M)) (Some M).

(** ** The linear solve *)

(** The index of the first row whose leading entry has the largest
    absolute value (nalgebra's [icamax] over the column). *)
Fixpoint pivot_index (rs : list (list K)) (i best : nat) (bestv : K) : nat :=
  match rs with
  | [] => best
  | r :: rs' =>
      let a := s_abs (hd s_zero r) in
      if bestv ≺ a then pivot_index rs' (S i) i a else pivot_index rs' (S i) best bestv
  end.

Definition remove_nth {A} (n : nat) (l : list A) : list A := firstn n l ++ skipn (S n) l.

(** Gaussian elimination on the augmented rows [[a_i0 .. a_i(n-1) | b_i]]:
    choose the pivot, eliminate the first column, solve the rest, then
    back-substitute the first unknown.  A zero pivot is a singular
    system. *)
Fixpoint gauss (n : nat) (rs : list (list K)) : option (list K) :=
  match n with
  | 0 => Some []
  | S n' =>
      let p := pivot_index rs 0 0 (s_opp s_one) in
      let prow := nth p rs [] in
      let piv := hd s_zero prow in
      if s_is_zero piv then None else
      let reduced :=
        map (fun r => let f := hd s_zero r ⊘ piv in
                      tl (map (fun ab => fst ab ⊖ f ⊗ snd ab) (combine r prow)))
            (remove_nth p rs) in
      xs <- gauss n' reduced ;;
      let rest := tl prow in
      Some (((nth n' rest s_zero ⊖ dot (firstn n' rest) xs) ⊘ piv) :: xs)
  end.

(** [A.lu().solve(&b)] for a square [A]. *)
Definition lu_solve (A : DMat) (b : list K) : option (list K) :=
  gauss (nrows A) (map (fun rb => fst rb ++ [snd rb]) (combine (rows A) b)).

(** ** Shape and entry lemmas *)

Lemma splice_length (c : nat) (seg row : list K) :
  c + length seg <= length row -> length (splice c seg row) = length row.
Proof.
  intros Hle. unfold splice. rewrite !length_app, length_firstn, length_skipn. lia.
Qed.

Lemma splice_nth (c : nat) (seg row : list K) (k : nat) :
  c + length seg <= length row ->
  nth k (splice c seg row) s_zero =
  if (c <=? k) && (k <? c + length seg) then nth (k - c) seg s_zero
  else nth k row s_zero.
Proof.
  intros Hle. unfold splice.
  assert (Hf : length (firstn c row) = c) by (rewrite length_firstn; lia).
  destruct (Nat.ltb_spec k c) as [Hk|Hk].
  - rewrite app_nth1 by lia. rewrite nth_firstn.
    destruct (Nat.leb_spec c k); [lia|]. destruct (Nat.ltb_spec k c); [reflexivity|lia].
  - rewrite app_nth2 by lia. rewrite Hf.
    destruct (Nat.leb_spec c k) as [_|]; [|lia]. simpl.
    destruct (Nat.ltb_spec k (c + length seg)) as [Hk'|Hk'].
    + rewrite app_nth1 by lia. reflexivity.
    + rewrite app_nth2 by lia. rewrite nth_skipn. f_equal. lia.
Qed.

Lemma dvcopy_length (i : nat) (seg v v' : list K) :
  dvcopy i seg v = Some v' -> length v' = length v.
Proof.
  unfold dvcopy. destruct (Nat.leb_spec (i + length seg) (length v)); [|discriminate].
  intros E; injection E as <-. now apply splice_length.
Qed.

Lemma dvcopy_nth (i : nat) (seg v v' : list K) (k : nat) :
  dvcopy i seg v = Some v' ->
  nth k v' s_zero =
  if (i <=? k) && (k <? i + length seg) then nth (k - i) seg s_zero else nth k v s_zero.
Proof.
  unfold dvcopy. destruct (Nat.leb_spec (i + length seg) (length v)); [|discriminate].
  intros E; injection E as <-. now apply splice_nth.
Qed.

Lemma dvcopy_some (i : nat) (seg v : list K) :
  i + length seg <= length v -> dvcopy i seg v = Some (splice i seg v).
Proof. unfold dvcopy; intros Hle. apply Nat.leb_le in Hle. now rewrite Hle. Qed.

Lemma dzeros_wf (r c : nat) : dmat_wf (dzeros r c).
Proof.
  split; simpl; [apply repeat_length|].
  apply Forall_forall. intros x Hx. apply repeat_spec in Hx. subst.
  unfold dvzeros. apply repeat_length.
Qed.

Lemma dget_dzeros (r c i j : nat) : dget (dzeros r c) i j = s_zero.
Proof.
  unfold dget, dzeros, dvzeros; simpl.
  destruct (Nat.ltb_spec i r).
  - rewrite nth_repeat_lt by lia. destruct (Nat.ltb_spec j c).
    + now rewrite nth_repeat_lt.
    + apply nth_overflow. rewrite repeat_length. lia.
  - assert (E : nth i (repeat (repeat s_zero c) r) [] = [])
      by (apply nth_overflow; rewrite repeat_length; lia).
    rewrite E. now destruct j.
Qed.

Lemma nth_row_length (M : DMat) (i : nat) :
  dmat_wf M -> i < nrows M -> length (nth i (rows M) []) = ncols M.
Proof.
  intros [Hl Hf] Hi. rewrite Forall_forall in Hf. apply Hf, nth_In. lia.
Qed.

Lemma dcopy_block_some (r c : nat) (B M : DMat) :
  r + nrows B <= nrows M -> c + ncols B <= ncols M ->
  exists M', dcopy_block r c B M = Some M'.
Proof.
  unfold dcopy_block; intros H1 H2.
  apply Nat.leb_le in H1, H2. rewrite H1, H2. simpl. eexists; reflexivity.
Qed.

Lemma dcopy_block_shape (r c : nat) (B M M' : DMat) :
  dcopy_block r c B M = Some M' -> nrows M' = nrows M /\ ncols M' = ncols M.
Proof.
  unfold dcopy_block. destruct (_ && _); [|discriminate].
  intros E; injection E as <-. simpl. auto.
Qed.

Lemma nth_dcopy_rows (r c : nat) (B M : DMat) (i : nat) :
  dmat_wf M -> i < nrows M ->
  nth i (map (fun ir => let '(i, row) := ir in
                        if (r <=? i) && (i <? r + nrows B)
                        then splice c (nth (i - r) (rows B) []) row else row)
            (combine (seq 0 (nrows M)) (rows M))) [] =
  if (r <=? i) && (i <? r + nrows B)
  then splice c (nth (i - r) (rows B) []) (nth i (rows M) []) else nth i (rows M) [].
Proof.
  intros [Hl _] Hi.
  rewrite (nth_map_lt _ _ _ _ (0, [])) by (rewrite length_combine, length_seq; lia).
  rewrite combine_nth by (rewrite length_seq; lia).
  rewrite seq_nth by lia. reflexivity.
Qed.

Lemma dcopy_block_wf (r c : nat) (B M M' : DMat) :
  dmat_wf M -> dmat_wf B -> dcopy_block r c B M = Some M' -> dmat_wf M'.
Proof.
  intros HM HB. unfold dcopy_block.
  destruct (Nat.leb_spec (r + nrows B) (nrows M)); [|discriminate].
  destruct (Nat.leb_spec (c + ncols B) (ncols M)); [|discriminate].
  intros E; injection E as <-. split; simpl.
  - rewrite length_map, length_combine, length_seq. destruct HM as [-> _]. lia.
  - apply Forall_nth. intros i d Hi.
    rewrite length_map, length_combine, length_seq in Hi.
    rewrite (nth_indep _ d []) by (rewrite length_map, length_combine, length_seq; lia).
    rewrite nth_dcopy_rows by (auto; lia).
    destruct (Nat.leb_spec r i), (Nat.ltb_spec i (r + nrows B)); simpl;
      try (apply nth_row_length; auto; lia).
    rewrite splice_length; rewrite !nth_row_length by (auto; lia); lia.
Qed.

Lemma dget_dcopy_block (r c : nat) (B M M' : DMat) (i j : nat) :
  dmat_wf M -> dmat_wf B -> dcopy_block r c B M = Some M' ->
  i < nrows M ->
  dget M' i j =
  if (r <=? i) && (i <? r + nrows B) && (c <=? j) && (j <? c + ncols B)
  then dget B (i - r) (j - c) else dget M i j.
Proof.
  intros HM HB. unfold dcopy_block.
  destruct (Nat.leb_spec (r + nrows B) (nrows M)); [|discriminate].
  destruct (Nat.leb_spec (c + ncols B) (ncols M)); [|discriminate].
  intros E Hi; injection E as <-. unfold dget; simpl.
  rewrite nth_dcopy_rows by auto.
  destruct (Nat.leb_spec r i), (Nat.ltb_spec i (r + nrows B)); simpl; try reflexivity.
  rewrite splice_nth by (rewrite !nth_row_length by (auto; lia); lia).
  rewrite !nth_row_length by (auto; lia). reflexivity.
Qed.
Lemma dset_some (M : DMat) (i j : nat) (v : K) :
  dmat_wf M -> i < nrows M -> j < ncols M ->
  exists M', dset M i j v = Some M' /\ dmat_wf M' /\
             nrows M' = nrows M /\ ncols M' = ncols M.
Proof.
  intros HM Hi Hj. pose proof HM as [Hl Hf]. unfold dset.
  apply Nat.ltb_lt in Hi as Hi', Hj as Hj'. rewrite Hi', Hj'. simpl.
  rewrite (nth_error_nth' (rows M) [] (n:=i) ltac:(lia)).
  destruct (replace_nth_some j v (nth i (rows M) [])) as [row' Hr];
    [rewrite nth_row_length; auto|].
  rewrite Hr.
  destruct (replace_nth_some i row' (rows M)) as [rs Hrs]; [lia|]. rewrite Hrs.
  eexists; split; [reflexivity|]. simpl. split; [|auto]. split.
  - simpl. apply replace_nth_length in Hrs. lia.
  - apply Forall_nth. intros k d Hk. simpl in Hk |- *.
    rewrite (replace_nth_length _ _ _ _ Hrs) in Hk.
    rewrite (nth_indep _ d []) by (rewrite (replace_nth_length _ _ _ _ Hrs); lia).
    rewrite (replace_nth_nth _ _ _ _ _ _ Hrs).
    destruct (Nat.eqb_spec k i).
    + rewrite (replace_nth_length _ _ _ _ Hr). apply nth_row_length; auto.
    + apply nth_row_length; auto; lia.
Qed.

Lemma add_diagonal_some (lambda : K) (M : DMat) :
  dmat_wf M -> nrows M <= ncols M ->
  exists M', add_diagonal lambda M = Some M' /\ dmat_wf M' /\
             nrows M' = nrows M /\ ncols M' = ncols M.
Proof.
  intros HM Hsq. unfold add_diagonal.
  assert (Hgen : forall l (M0 : DMat), dmat_wf M0 -> nrows M0 = nrows M ->
            ncols M0 = ncols M -> (forall i, In i l -> i < nrows M) ->
            exists M', fold_left (fun acc i => m <- acc ;; dset m i i (dget m i i ⊕ lambda))
                                 l (Some M0) = Some M' /\ dmat_wf M' /\
                       nrows M' = nrows M /\ ncols M' = ncols M).
  { induction l as [|i l IH]; intros M0 H0 Hr Hc Hin; simpl; [eauto|].
    destruct (dset_some M0 i i (dget M0 i i ⊕ lambda)) as (M1 & E & H1 & Hr1 & Hc1);
      auto; try (rewrite Hr; apply Hin; simpl; auto);
      try (rewrite Hc; specialize (Hin i (or_introl eq_refl)); lia).
    rewrite E. apply IH; auto; try lia. intros k Hk. apply Hin. simpl; auto. }
  apply Hgen; auto. intros i Hi. apply in_seq in Hi. lia.
Qed.

Lemma dtranspose_rows_length (M : DMat) : length (rows (dtranspose M)) = ncols M.
Proof. simpl. now rewrite length_map, length_seq. Qed.

(** [J^T * J] is always defined, square of side [ncols J], and well
    formed. *)
Lemma dmul_transpose_self (J : DMat) :
  dmul (dtranspose J) J = Some (dmul_raw (dtranspose J) J) /\
  dmat_wf (dmul_raw (dtranspose J) J) /\
  nrows (dmul_raw (dtranspose J) J) = ncols J /\ ncols (dmul_raw (dtranspose J) J) = ncols J.
Proof.
  unfold dmul. simpl. rewrite Nat.eqb_refl. split; [reflexivity|].
  split; [|simpl; auto]. split; simpl.
  - now rewrite length_map, length_map, length_seq.
  - apply Forall_forall. intros r Hr. apply in_map_iff in Hr as (r0 & <- & _).
    now rewrite length_map, length_map, length_seq.
Qed.

Lemma dmul_raw_wf (A B : DMat) : length (rows A) = nrows A -> dmat_wf (dmul_raw A B).
Proof.
  intros HA. split; simpl; [now rewrite length_map|].
  apply Forall_forall. intros r Hr. apply in_map_iff in Hr as (r0 & <- & _).
  now rewrite length_map, length_map, length_seq.
Qed.

Lemma dmatvec_length (A : DMat) (v w : list K) :
  dmatvec A v = Some w -> length w = length (rows A).
Proof.
  unfold dmatvec. destruct (ncols A =? length v); [|discriminate].
  intros E; injection E as <-. apply length_map.
Qed.

Lemma dmatvec_some (A : DMat) (v : list K) :
  ncols A = length v -> dmatvec A v = Some (map (fun r => dot r v) (rows A)).
Proof. unfold dmatvec; intros E. now rewrite E, Nat.eqb_refl. Qed.

Lemma dvadd_some (u v : list K) :
  length u = length v -> exists w, dvadd u v = Some w /\ length w = length u.
Proof.
  unfold dvadd; intros E. rewrite E, Nat.eqb_refl. eexists; split; [reflexivity|].
  rewrite length_map, length_combine. lia.
Qed.

Lemma gauss_length (n : nat) (rs : list (list K)) (xs : list K) :
  gauss n rs = Some xs -> length xs = n.
Proof.
  revert rs xs; induction n as [|n IH]; intros rs xs E; simpl in E.
  - now injection E as <-.
  - destruct (s_is_zero _); [discriminate|].
    destruct (gauss n _) eqn:E'; [|discriminate].
    injection E as <-. simpl. f_equal. eapply IH; eauto.
Qed.

Lemma lu_solve_length (A : DMat) (b xs : list K) :
  lu_solve A b = Some xs -> length xs = nrows A.
Proof. apply gauss_length. Qed.
End DMatrix.

Arguments DMat K : clear implicits.
