(* ===== verification/LinAlg.v ===== *)
(** * The dense linear algebra at [R]

    Facts about the [DMatrix] stand-ins for nalgebra over the reals, used
    by the theorems on the solver's step ([LMStep]):
    - [dot] as an index sum ([sumn]) and its algebra;
    - soundness of the Gaussian elimination: a solution [lu_solve A b]
      returns satisfies [A x = b] ([gauss_sound], [lu_solve_sound]);
    - the entries of [dmatvec], [dtranspose], [dmul_raw], [dset] and of the
      damping loop [add_diagonal];
    - [J^T] is the adjoint of [J], and the quadratic form of
      [J^T J + lambda I] is [|J dx|^2 + lambda |dx|^2], so that a nonzero
      solution of the damped normal equations is a descent direction
      ([damped_step_descent]). *)

From Stdlib Require Import List Arith Lia Reals Lra.
Import ListNotations.
From S2P Require Import Prelude Scalars DMatrix.
Local Open Scope R_scope.

(** ** Dot products *)

Lemma fold_dot_shift (l : list (R * R)) (s : R) :
  fold_left (fun acc p => acc ⊕ fst p ⊗ snd p) l s =
  s + fold_left (fun acc p => acc ⊕ fst p ⊗ snd p) l 0.
Proof.
  revert s. induction l as [|[a b] l IH]; intros s; cbn; rsimpl; [ring|].
  rewrite IH, (IH (0 + a * b)). ring.
Qed.

Lemma dot_nil_l (v : list R) : dot [] v = 0.
Proof. reflexivity. Qed.

Lemma dot_nil_r (u : list R) : dot u [] = 0.
Proof. destruct u; reflexivity. Qed.

Lemma dot_cons (a b : R) (u v : list R) : dot (a :: u) (b :: v) = a * b + dot u v.
Proof. unfold dot. cbn [combine fold_left]. rewrite fold_dot_shift. cbn [fst snd]. rsimpl. ring. Qed.

#[export] Hint Rewrite dot_nil_l dot_nil_r dot_cons : lm_rw.

(** A row operation [r - f p] commutes with the dot product. *)
Lemma dot_row_op (f : R) (u v x : list R) :
  length u = length v ->
  dot (map (fun ab => fst ab - f * snd ab) (combine u v)) x = dot u x - f * dot v x.
Proof.
  revert v x. induction u as [|a u IH]; intros [|b v] [|c x] Hl; cbn [map combine fst snd length] in *;
    autorewrite with lm_rw; try ring; try discriminate.
  rewrite IH by lia. ring.
Qed.

(** ** The elimination *)

Lemma pivot_index_lt (rs : list (list R)) (i best : nat) (bv : R) :
  (best < i + length rs)%nat -> (pivot_index rs i best bv < i + length rs)%nat.
Proof.
  revert i best bv. induction rs as [|r rs IH]; intros i best bv Hb; cbn [pivot_index length] in *;
    [lia|]. replace (i + S (length rs))%nat with (S i + length rs)%nat by lia.
  destruct (_ ≺ _); apply IH; lia.
Qed.

Lemma remove_nth_in {A} (p : nat) (l : list A) (x d : A) :
  (p < length l)%nat -> In x l -> x = nth p l d \/ In x (remove_nth p l).
Proof.
  intros Hp Hx. rewrite <- (firstn_skipn p l) in Hx. unfold remove_nth.
  rewrite (skipn_S_nth p l d) in Hx by exact Hp.
  apply in_app_or in Hx as [Hx|[->|Hx]]; [right; apply in_or_app; auto|now left|].
  right; apply in_or_app; auto.
Qed.

Lemma remove_nth_length {A} (p : nat) (l : list A) :
  (p < length l)%nat -> length (remove_nth p l) = (length l - 1)%nat.
Proof.
  intros Hp. unfold remove_nth. rewrite length_app, length_firstn, length_skipn. lia.
Qed.

Lemma in_firstn_incl {A} (n : nat) (l : list A) (x : A) : In x (firstn n l) -> In x l.
Proof.
  revert l; induction n as [|n IH]; intros [|y l] Hx; cbn in *; try tauto.
  destruct Hx as [->|Hx]; [now left|right; auto].
Qed.

Lemma in_skipn_incl {A} (n : nat) (l : list A) (x : A) : In x (skipn n l) -> In x l.
Proof.
  revert l; induction n as [|n IH]; intros [|y l] Hx; cbn in *; try tauto. right; auto.
Qed.

Lemma remove_nth_incl {A} (p : nat) (l : list A) (x : A) : In x (remove_nth p l) -> In x l.
Proof.
  unfold remove_nth. intros Hx. apply in_app_or in Hx as [Hx|Hx];
    [exact (in_firstn_incl _ _ _ Hx)|exact (in_skipn_incl _ _ _ Hx)].
Qed.

(** The entry of a reduced row. *)
Lemma nth_row_op (f : R) (u v : list R) (k : nat) :
  length u = length v ->
  nth k (map (fun ab => fst ab - f * snd ab) (combine u v)) 0 = nth k u 0 - f * nth k v 0.
Proof.
  revert v k. induction u as [|a u IH]; intros [|b v] [|k] Hl; cbn [map combine nth fst snd length] in *;
    try ring; try discriminate. apply IH. lia.
Qed.

(** Back-substitution makes the pivot row hold. *)
Lemma back_subst_pivot (n : nat) (p0 : R) (pt xs : list R) :
  p0 <> 0 ->
  dot (firstn (S n) (p0 :: pt)) (((nth n pt 0 - dot (firstn n pt) xs) / p0) :: xs) =
  nth (S n) (p0 :: pt) 0.
Proof. intros Hp. cbn [firstn nth]. rewrite dot_cons. field. exact Hp. Qed.

(** ... and every other row, once its reduced form holds. *)
Lemma back_subst_row (n : nat) (p0 a0 : R) (pt rt xs : list R) :
  p0 <> 0 -> length rt = S n -> length pt = S n ->
  let r' := map (fun ab => fst ab - a0 / p0 * snd ab) (combine rt pt) in
  dot (firstn n r') xs = nth n r' 0 ->
  dot (firstn (S n) (a0 :: rt)) (((nth n pt 0 - dot (firstn n pt) xs) / p0) :: xs) =
  nth (S n) (a0 :: rt) 0.
Proof.
  intros Hp Hr Hq r' Hred. unfold r' in Hred.
  rewrite nth_row_op in Hred by lia.
  rewrite firstn_map, combine_firstn, dot_row_op in Hred
    by (rewrite !length_firstn; lia).
  cbn [firstn nth]. rewrite dot_cons.
  set (D := dot (firstn n pt) xs) in *. set (E := dot (firstn n rt) xs) in *.
  replace E with (nth n rt 0 - a0 / p0 * nth n pt 0 + a0 / p0 * D) by lra.
  field. exact Hp.
Qed.

(** Soundness of the elimination: on [n] augmented rows of length [n + 1],
    a solution it returns satisfies every row. *)
Lemma gauss_sound (n : nat) (rs : list (list R)) (xs : list R) :
  length rs = n -> Forall (fun r => length r = S n) rs -> gauss n rs = Some xs ->
  Forall (fun r => dot (firstn n r) xs = nth n r 0) rs.
Proof.
  revert rs xs. induction n as [|n IH]; intros rs xs Hlen Hrows Hg.
  - destruct rs; [constructor|discriminate].
  - cbn [gauss] in Hg. rsimpl.
    set (p := pivot_index rs 0 0 (- (1))) in *.
    assert (Hp : (p < length rs)%nat) by (apply (pivot_index_lt rs 0 0); lia).
    assert (Hprow : length (nth p rs []) = S (S n)).
    { rewrite Forall_forall in Hrows. apply Hrows, nth_In, Hp. }
    destruct (nth p rs []) as [|p0 pt] eqn:Eprow; [discriminate|].
    cbn [hd tl] in Hg. destruct (Ris_zero_spec p0) as [|Hp0]; [discriminate|].
    opt_destr. injection Hg as <-.
    rewrite Forall_forall in Hrows |- *. intros r Hr.
    destruct (remove_nth_in p rs r [] Hp Hr) as [->|Hin].
    + rewrite Eprow. apply back_subst_pivot, Hp0.
    + pose proof (Hrows r (remove_nth_incl _ _ _ Hin)) as Hrl.
      destruct r as [|a0 rt]; [discriminate|]. cbn [length] in Hrl, Hprow.
      apply back_subst_row; [exact Hp0|lia|lia|].
      refine (proj1 (Forall_forall _ _) (IH _ _ _ _ E) _ _).
      * rewrite length_map, remove_nth_length by exact Hp. lia.
      * apply Forall_forall. intros r' Hr'. apply in_map_iff in Hr' as (r0 & <- & Hr0).
        pose proof (Hrows r0 (remove_nth_incl _ _ _ Hr0)) as Hl.
        destruct r0 as [|b rb]; [discriminate|]. cbn [combine map tl hd length] in Hl |- *.
        rewrite length_map, length_combine. lia.
      * apply in_map_iff. exists (a0 :: rt). split; [reflexivity|exact Hin].
Qed.

(** Each augmented row [r ++ [b_i]] solved means [r . x = b_i]. *)
Lemma augmented_rows_solved (n : nat) (rs : list (list R)) (b x : list R) :
  length rs = length b -> Forall (fun r => length r = n) rs ->
  Forall (fun r => dot (firstn n r) x = nth n r 0)
         (map (fun rb => fst rb ++ [snd rb]) (combine rs b)) ->
  map (fun r => dot r x) rs = b.
Proof.
  revert b. induction rs as [|r rs IH]; intros [|bi b] Hl Hrs Hsol; try discriminate; [reflexivity|].
  inversion Hrs as [|? ? Hr Hrs']; subst. inversion Hsol as [|? ? Hi Hsol']; subst.
  cbn [map]. f_equal; [|apply IH; auto].
  cbn [fst snd] in Hi. rewrite firstn_app, firstn_all, Nat.sub_diag, app_nil_r in Hi.
  rewrite app_nth2, Nat.sub_diag in Hi by lia. exact Hi.
Qed.

(** Soundness of the stand-in for [lu().solve]: a solution it returns
    solves the system. *)
Lemma lu_solve_sound (A : DMat R) (b x : list R) :
  dmat_wf A -> ncols A = nrows A -> length b = nrows A ->
  lu_solve A b = Some x -> dmatvec A x = Some b.
Proof.
  intros [Hr Hc] Hsq Hb Hs. pose proof (lu_solve_length _ _ _ Hs) as Hx.
  unfold lu_solve in Hs.
  assert (Hc' : Forall (fun r => length r = nrows A) (rows A)) by (rewrite <- Hsq; exact Hc).
  apply gauss_sound in Hs.
  - unfold dmatvec. rewrite Hsq, Hx, Nat.eqb_refl. f_equal.
    apply (augmented_rows_solved (nrows A)); [lia|exact Hc'|exact Hs].
  - rewrite length_map, length_combine. lia.
  - apply Forall_forall. intros r Hin. apply in_map_iff in Hin as ([r0 bi] & <- & Hin).
    apply in_combine_l in Hin. rewrite Forall_forall in Hc'.
    cbn [fst snd]. rewrite length_app, (Hc' r0 Hin). cbn. lia.
Qed.

(** ** Index sums *)

(** [sumn f n = f 0 + ... + f (n - 1)]. *)
Fixpoint sumn (f : nat -> R) (n : nat) : R :=
  match n with 0 => 0 | S n => sumn f n + f n end.

Lemma sumn_ext (f g : nat -> R) (n : nat) :
  (forall k, (k < n)%nat -> f k = g k) -> sumn f n = sumn g n.
Proof.
  induction n as [|n IH]; intros Hfg; cbn; [reflexivity|].
  rewrite IH by (intros; apply Hfg; lia). rewrite Hfg by lia. reflexivity.
Qed.

Lemma sumn_shift (f : nat -> R) (n : nat) : sumn f (S n) = f 0%nat + sumn (fun k => f (S k)) n.
Proof. induction n as [|n IH]; cbn in *; [ring|]. rewrite IH. ring. Qed.

Lemma sumn_plus (f g : nat -> R) (n : nat) :
  sumn (fun k => f k + g k) n = sumn f n + sumn g n.
Proof. induction n as [|n IH]; cbn; [ring|]. rewrite IH. ring. Qed.

Lemma sumn_scale (c : R) (f : nat -> R) (n : nat) : sumn (fun k => c * f k) n = c * sumn f n.
Proof. induction n as [|n IH]; cbn; [ring|]. rewrite IH. ring. Qed.

Lemma sumn_exchange (f : nat -> nat -> R) (n m : nat) :
  sumn (fun i => sumn (fun j => f i j) m) n = sumn (fun j => sumn (fun i => f i j) n) m.
Proof.
  induction n as [|n IH]; cbn.
  - induction m as [|m IHm]; cbn; [reflexivity|]. rewrite <- IHm. ring.
  - rewrite IH, <- sumn_plus. reflexivity.
Qed.

Lemma sumn_zero (f : nat -> R) (n : nat) : (forall k, (k < n)%nat -> f k = 0) -> sumn f n = 0.
Proof.
  induction n as [|n IH]; intros Hf; cbn; [reflexivity|].
  rewrite IH by (intros; apply Hf; lia). rewrite Hf by lia. ring.
Qed.

Lemma sumn_delta (c : R) (j n : nat) :
  (j < n)%nat -> sumn (fun k => if (k =? j)%nat then c else 0) n = c.
Proof.
  induction n as [|n IH]; intros Hj; cbn; [lia|].
  destruct (Nat.eqb_spec n j) as [->|Hne].
  - rewrite sumn_zero; [ring|]. intros k Hk. destruct (Nat.eqb_spec k j); [lia|reflexivity].
  - rewrite IH by lia. ring.
Qed.

Lemma sumn_nonneg (f : nat -> R) (n : nat) : (forall k, (k < n)%nat -> 0 <= f k) -> 0 <= sumn f n.
Proof.
  induction n as [|n IH]; intros Hf; cbn; [lra|].
  pose proof (Hf n ltac:(lia)). pose proof (IH ltac:(intros; apply Hf; lia)). lra.
Qed.

Lemma sumn_pos (f : nat -> R) (n j : nat) :
  (forall k, (k < n)%nat -> 0 <= f k) -> (j < n)%nat -> 0 < f j -> 0 < sumn f n.
Proof.
  induction n as [|n IH]; intros Hf Hj Hfj; cbn; [lia|].
  pose proof (sumn_nonneg f n ltac:(intros; apply Hf; lia)).
  destruct (Nat.eq_dec j n) as [->|Hne]; [lra|].
  pose proof (IH ltac:(intros; apply Hf; lia) ltac:(lia) Hfj). pose proof (Hf n ltac:(lia)). lra.
Qed.

(** [dot] as an index sum. *)
Lemma dot_sumn (u v : list R) :
  length u = length v -> dot u v = sumn (fun k => nth k u 0 * nth k v 0) (length u).
Proof.
  revert v. induction u as [|a u IH]; intros [|b v] Hl; cbn [length] in *; try discriminate;
    [reflexivity|]. rewrite dot_cons, sumn_shift, IH by lia. reflexivity.
Qed.

(** ** Entries of the matrix operations *)

Lemma dget_row (M : DMat R) (i j : nat) : dget M i j = nth j (nth i (rows M) []) 0.
Proof. reflexivity. Qed.

Lemma dmatvec_entries (M : DMat R) (u : list R) :
  dmat_wf M -> ncols M = length u ->
  exists v, dmatvec M u = Some v /\ length v = nrows M /\
    forall i, (i < nrows M)%nat -> nth i v 0 = sumn (fun j => dget M i j * nth j u 0) (ncols M).
Proof.
  intros HM Hu. pose proof HM as [Hl _]. rewrite dmatvec_some by exact Hu.
  eexists; split; [reflexivity|]. split; [rewrite length_map; exact Hl|].
  intros i Hi. rewrite (nth_map_lt _ _ _ _ []) by lia.
  rewrite dot_sumn by (rewrite nth_row_length by assumption; lia).
  rewrite nth_row_length by assumption. reflexivity.
Qed.

Lemma dtranspose_wf (J : DMat R) : dmat_wf J -> dmat_wf (dtranspose J).
Proof.
  intros [Hl Hf]. split; cbn [dtranspose rows nrows ncols].
  - now rewrite length_map, length_seq.
  - apply Forall_forall. intros r Hr. apply in_map_iff in Hr as (j & <- & _).
    now rewrite length_map.
Qed.

Lemma dget_dtranspose (J : DMat R) (i j : nat) :
  dmat_wf J -> (i < ncols J)%nat -> (j < nrows J)%nat -> dget (dtranspose J) i j = dget J j i.
Proof.
  intros [Hl _] Hi Hj. unfold dget, dtranspose. cbn [rows].
  rewrite (nth_map_lt _ _ _ _ 0%nat) by (rewrite length_seq; lia).
  rewrite seq_nth by lia. rewrite (nth_map_lt _ _ _ _ []) by lia. reflexivity.
Qed.

Lemma dget_dmul_raw (A B : DMat R) (i k : nat) :
  dmat_wf A -> dmat_wf B -> ncols A = nrows B ->
  (i < nrows A)%nat -> (k < ncols B)%nat ->
  dget (dmul_raw A B) i k = sumn (fun j => dget A i j * dget B j k) (ncols A).
Proof.
  intros HA HB Hc Hi Hk. pose proof HA as [HAl _].
  unfold dget at 1, dmul_raw. cbn [rows].
  rewrite (nth_map_lt _ _ _ _ []) by lia.
  rewrite (nth_map_lt _ _ _ _ []) by (rewrite dtranspose_rows_length; lia).
  rewrite dot_sumn.
  2: { rewrite nth_row_length by assumption.
       rewrite nth_row_length by (try apply dtranspose_wf; auto; cbn; lia). cbn. lia. }
  rewrite nth_row_length by assumption. apply sumn_ext. intros j Hj.
  f_equal. rewrite <- dget_row, dget_dtranspose by (auto; lia). reflexivity.
Qed.

Lemma dget_dset (M M' : DMat R) (i j : nat) (v : R) (a b : nat) :
  dset M i j v = Some M' ->
  nrows M' = nrows M /\ ncols M' = ncols M /\
  dget M' a b = if ((a =? i)%nat && (b =? j)%nat)%bool then v else dget M a b.
Proof.
  unfold dset. destruct (_ && _)%bool; [|discriminate].
  intros E. repeat opt_destr. injection E as <-. cbn [nrows ncols]. split; [reflexivity|].
  split; [reflexivity|]. unfold dget. cbn [rows].
  rewrite (replace_nth_nth _ _ _ _ _ _ E2). destruct (Nat.eqb_spec a i) as [->|]; cbn [andb].
  - rewrite (replace_nth_nth _ _ _ _ _ _ E1). apply nth_error_nth with (d := []) in E0.
    rewrite E0. destruct (b =? j)%nat; reflexivity.
  - reflexivity.
Qed.

Lemma add_diagonal_fold_none (l : R) (idx : list nat) :
  fold_left (fun acc i => m <- acc ;; dset m i i (dget m i i ⊕ l)) idx None = None.
Proof. induction idx; cbn; auto. Qed.

Lemma add_diagonal_fold (l : R) (idx : list nat) (M0 M' : DMat R) :
  NoDup idx ->
  fold_left (fun acc i => m <- acc ;; dset m i i (dget m i i ⊕ l)) idx (Some M0) = Some M' ->
  nrows M' = nrows M0 /\ ncols M' = ncols M0 /\
  forall a b, dget M' a b = dget M0 a b + (if ((a =? b)%nat && existsb (Nat.eqb a) idx)%bool then l else 0).
Proof.
  revert M0. induction idx as [|i idx IH]; intros M0 Hnd E; cbn [fold_left] in E.
  - injection E as <-. repeat split; intros a b. rewrite Bool.andb_false_r. ring.
  - inversion Hnd as [|? ? Hni Hnd']; subst.
    destruct (dset M0 i i (dget M0 i i ⊕ l)) as [M1|] eqn:E1;
      [|rewrite add_diagonal_fold_none in E; discriminate].
    destruct (IH M1 Hnd' E) as (Hr & Hc & Hd).
    pose proof (dget_dset _ _ _ _ _ 0%nat 0%nat E1) as (Hr1 & Hc1 & _).
    repeat split; [lia|lia|]. intros a b. rewrite Hd.
    rewrite (proj2 (proj2 (dget_dset _ _ _ _ _ a b E1))). rsimpl. cbn [existsb].
    destruct (Nat.eqb_spec a i) as [->|Hai], (Nat.eqb_spec b i) as [->|Hbi];
      rewrite ?Nat.eqb_refl; cbn [andb orb].
    + assert (existsb (Nat.eqb i) idx = false) as ->.
      { apply Bool.not_true_iff_false. intros Hx. apply existsb_exists in Hx as (y & Hy & Hiy).
        apply Nat.eqb_eq in Hiy. subst. contradiction. }
      ring.
    + destruct (Nat.eqb_spec i b); [lia|]. cbn. ring.
    + destruct (Nat.eqb_spec a i); [lia|]. reflexivity.
    + destruct (Nat.eqb_spec a i); [lia|]. reflexivity.
Qed.

Lemma add_diagonal_entries (l : R) (M M' : DMat R) :
  add_diagonal l M = Some M' ->
  nrows M' = nrows M /\ ncols M' = ncols M /\
  forall a b, (a < nrows M)%nat -> dget M' a b = dget M a b + (if (a =? b)%nat then l else 0).
Proof.
  unfold add_diagonal. intros E.
  destruct (add_diagonal_fold l _ M M' (seq_NoDup _ 0) E) as (Hr & Hc & Hd).
  repeat split; [exact Hr|exact Hc|]. intros a b Ha. rewrite Hd.
  replace (existsb (Nat.eqb a) (seq 0 (nrows M))) with true; [rewrite Bool.andb_true_r; reflexivity|].
  symmetry. apply existsb_exists. exists a. split; [apply in_seq; lia|apply Nat.eqb_refl].
Qed.

(** The entries of [J^T J + lambda I] applied to [dx]. *)
Lemma damped_entry (J A : DMat R) (l : R) (dx Jdx : list R) (j : nat) :
  dmat_wf J -> length dx = ncols J ->
  add_diagonal l (dmul_raw (dtranspose J) J) = Some A ->
  dmatvec J dx = Some Jdx -> (j < ncols J)%nat ->
  sumn (fun k => dget A j k * nth k dx 0) (ncols J) =
  sumn (fun i => dget J i j * nth i Jdx 0) (nrows J) + l * nth j dx 0.
Proof.
  intros HJ Hdx HA HJdx Hj.
  destruct (add_diagonal_entries _ _ _ HA) as (_ & _ & HAe). cbn [nrows] in HAe.
  destruct (dmatvec_entries J dx HJ ltac:(lia)) as (v & Ev & Hvl & Hv).
  rewrite HJdx in Ev. injection Ev as <-.
  transitivity (sumn (fun k => sumn (fun i => dget J i j * (dget J i k * nth k dx 0)) (nrows J)) (ncols J)
                + sumn (fun k => if (k =? j)%nat then l * nth j dx 0 else 0) (ncols J)).
  - rewrite <- sumn_plus. apply sumn_ext. intros k Hk.
    rewrite HAe by (cbn; lia).
    rewrite dget_dmul_raw by (try apply dtranspose_wf; auto; cbn; lia). cbn [ncols dtranspose].
    rewrite Rmult_plus_distr_r. f_equal.
    + rewrite Rmult_comm, <- sumn_scale. apply sumn_ext. intros i Hi.
      rewrite dget_dtranspose by (auto; lia). ring.
    + destruct (Nat.eqb_spec j k) as [<-|]; [rewrite Nat.eqb_refl; ring|].
      destruct (Nat.eqb_spec k j); [lia|ring].
  - rewrite sumn_delta by exact Hj. f_equal. rewrite sumn_exchange. apply sumn_ext.
    intros i Hi. rewrite Hv by exact Hi. rewrite <- sumn_scale. reflexivity.
Qed.

Lemma dot_comm (u v : list R) : dot u v = dot v u.
Proof.
  revert v. induction u as [|a u IH]; intros [|b v]; autorewrite with lm_rw; try reflexivity.
  rewrite IH. ring.
Qed.

Lemma dot_neg_r (u v : list R) : dot u (dvneg v) = - dot u v.
Proof.
  unfold dvneg. revert v. induction u as [|a u IH]; intros [|b v]; cbn [map];
    autorewrite with lm_rw; rsimpl; try ring. rewrite IH. ring.
Qed.

Lemma dot_self_nonneg (u : list R) : 0 <= dot u u.
Proof. induction u as [|a u IH]; autorewrite with lm_rw; nra. Qed.

Lemma dot_self_pos (u : list R) (k : nat) : nth k u 0 <> 0 -> 0 < dot u u.
Proof.
  revert k. induction u as [|a u IH]; intros [|k] Hk; cbn [nth] in Hk; try lra;
    autorewrite with lm_rw; pose proof (dot_self_nonneg u).
  - pose proof (Rsqr_pos_lt a Hk). unfold Rsqr in *. lra.
  - pose proof (IH k Hk). nra.
Qed.

(** [J^T] is the adjoint of [J]. *)
Lemma dot_dmatvec_transpose (J : DMat R) (u v g Ju : list R) :
  dmat_wf J -> length u = ncols J -> length v = nrows J ->
  dmatvec (dtranspose J) v = Some g -> dmatvec J u = Some Ju -> dot u g = dot Ju v.
Proof.
  intros HJ Hu Hv Hg HJu.
  destruct (dmatvec_entries _ v (dtranspose_wf J HJ) ltac:(cbn; lia)) as (g' & Eg & Hgl & Hge).
  rewrite Hg in Eg. injection Eg as <-. cbn [nrows ncols dtranspose] in Hgl, Hge.
  destruct (dmatvec_entries J u HJ ltac:(lia)) as (Ju' & EJ & HJl & HJe).
  rewrite HJu in EJ. injection EJ as <-.
  rewrite !dot_sumn by lia. rewrite Hu, HJl.
  transitivity (sumn (fun j => sumn (fun i => dget J i j * nth j u 0 * nth i v 0) (nrows J)) (ncols J)).
  - apply sumn_ext. intros j Hj. rewrite Hge by exact Hj. rewrite <- sumn_scale. apply sumn_ext.
    intros i Hi. rewrite dget_dtranspose by (auto; lia). ring.
  - rewrite sumn_exchange. apply sumn_ext. intros i Hi.
    transitivity (sumn (fun j => dget J i j * nth j u 0) (ncols J) * nth i v 0).
    + rewrite Rmult_comm, <- sumn_scale. apply sumn_ext. intros j Hj. ring.
    + rewrite <- HJe by exact Hi. reflexivity.
Qed.

(** The quadratic form of [J^T J + lambda I]. *)
Lemma damped_quadratic (J A : DMat R) (l : R) (dx Adx : list R) :
  dmat_wf J -> length dx = ncols J ->
  add_diagonal l (dmul_raw (dtranspose J) J) = Some A -> dmatvec A dx = Some Adx ->
  exists Jdx, dmatvec J dx = Some Jdx /\ dot dx Adx = dot Jdx Jdx + l * dot dx dx.
Proof.
  intros HJ Hdx HA HAdx.
  destruct (dmul_transpose_self J) as (_ & HGwf & HGr & HGc).
  destruct (add_diagonal_some l _ HGwf ltac:(lia)) as (A' & EA & HAwf & HAr & HAc).
  rewrite HA in EA. injection EA as <-.
  destruct (dmatvec_entries J dx HJ ltac:(lia)) as (Jdx & EJ & HJl & HJe).
  destruct (dmatvec_entries A dx HAwf ltac:(lia)) as (v & Ev & Hvl & Hve).
  rewrite HAdx in Ev. injection Ev as <-.
  exists Jdx. split; [exact EJ|].
  rewrite !dot_sumn by lia. rewrite Hdx, HJl.
  transitivity (sumn (fun j => sumn (fun i => nth j dx 0 * dget J i j * nth i Jdx 0) (nrows J)
                               + l * (nth j dx 0 * nth j dx 0)) (ncols J)).
  - apply sumn_ext. intros j Hj. rewrite Hve by lia. rewrite HAc, HGc.
    rewrite (damped_entry J A l dx Jdx j HJ Hdx HA EJ Hj).
    rewrite Rmult_plus_distr_l, <- sumn_scale. f_equal; [apply sumn_ext; intros; ring|ring].
  - rewrite sumn_plus, sumn_scale, sumn_exchange. f_equal. apply sumn_ext. intros i Hi.
    transitivity (nth i Jdx 0 * sumn (fun j => dget J i j * nth j dx 0) (ncols J)).
    + rewrite <- sumn_scale. apply sumn_ext. intros; ring.
    + rewrite <- HJe by exact Hi. reflexivity.
Qed.

(** A nonzero solution of the damped normal equations
    [(J^T J + lambda I) dx = -J^T f] with [lambda > 0] is a descent
    direction of [|f|^2 / 2], whose gradient is [g = J^T f]:
    [g . dx = -(|J dx|^2 + lambda |dx|^2) < 0]. *)
Lemma damped_step_descent (J A : DMat R) (l : R) (fx b dx g : list R) (k : nat) :
  dmat_wf J -> length fx = nrows J -> length dx = ncols J -> 0 < l ->
  add_diagonal l (dmul_raw (dtranspose J) J) = Some A ->
  dmatvec (dtranspose J) (dvneg fx) = Some b -> dmatvec A dx = Some b ->
  dmatvec (dtranspose J) fx = Some g -> nth k dx 0 <> 0 ->
  dot g dx < 0.
Proof.
  intros HJ Hfx Hdx Hl HA Hb HAdx Hg Hk.
  destruct (damped_quadratic J A l dx b HJ Hdx HA HAdx) as (Jdx & EJ & Hq).
  assert (Hnl : length (dvneg fx) = nrows J) by (unfold dvneg; rewrite length_map; exact Hfx).
  pose proof (dot_dmatvec_transpose J dx (dvneg fx) b Jdx HJ Hdx Hnl Hb EJ) as H1.
  pose proof (dot_dmatvec_transpose J dx fx g Jdx HJ Hdx Hfx Hg EJ) as H2.
  rewrite dot_neg_r in H1. rewrite dot_comm, H2.
  pose proof (dot_self_nonneg Jdx). pose proof (dot_self_pos dx k Hk).
  assert (0 < l * dot dx dx) by (apply Rmult_lt_0_compat; assumption). lra.
Qed.
