(* ===== verification/Fixed.v ===== *)
(** * The fixed-size nalgebra types of optimize.rs

    [Vector3]/[Point3] are [Vec3]; [Matrix3] is [Mat3] (row-major fields);
    [Vector4] (the camera model) is [Vec4]; [Vector6] (a pose in Lie-algebra
    coordinates) is [Vec6]; [Quaternion]/[UnitQuaternion] is [Quat] with
    nalgebra's argument order [(w, i, j, k)]; [Isometry3] is [Iso3];
    [Point2] is [Pt2].  The operations are those the source applies to them,
    written as nalgebra evaluates them, including the library's
    unit-quaternion rotation of a vector (which optimize.rs reaches through
    [transform * target_pt]).  [mat3_rows] turns a fixed matrix into the
    dynamic one that [copy_from] writes. *)

From Stdlib Require Import List.
Import ListNotations.
From S2P Require Import Prelude DMatrix.

(** The literal row and column indices [0], [1], [2] of a 3x3 matrix. *)
Inductive idx3 := I0 | I1 | I2.

Section Fixed.
Context {K : Type} `{Scalar K}.

Record Vec3 := mkV3 { vx : K; vy : K; vz : K }.
Record Vec4 := mkV4 { e0 : K; e1 : K; e2 : K; e3 : K }.
(** [Vector6]: [fixed_view::<3,1>(0,0)] is [v6_head], [(3,0)] is [v6_tail]. *)
Record Vec6 := mkV6 { v6_head : Vec3; v6_tail : Vec3 }.
Record Mat3 := mkM3 {
  m00 : K; m01 : K; m02 : K;
  m10 : K; m11 : K; m12 : K;
  m20 : K; m21 : K; m22 : K }.
Record Quat := mkQ { qw : K; qi : K; qj : K; qk : K }.
Record Iso3 := mkIso { iso_trans : Vec3; iso_rot : Quat }.
Record Pt2 := mkP2 { px : K; py : K }.

(** ** Vectors *)

Definition v3_zero : Vec3 := mkV3 s_zero s_zero s_zero.
Definition v3_add (a b : Vec3) : Vec3 := mkV3 (vx a ⊕ vx b) (vy a ⊕ vy b) (vz a ⊕ vz b).
Definition v3_sub (a b : Vec3) : Vec3 := mkV3 (vx a ⊖ vx b) (vy a ⊖ vy b) (vz a ⊖ vz b).
Definition v3_scale (a : Vec3) (s : K) : Vec3 := mkV3 (vx a ⊗ s) (vy a ⊗ s) (vz a ⊗ s).
Definition v3_div (a : Vec3) (s : K) : Vec3 := mkV3 (vx a ⊘ s) (vy a ⊘ s) (vz a ⊘ s).
Definition v3_cross (a b : Vec3) : Vec3 :=
  mkV3 (vy a ⊗ vz b ⊖ vz a ⊗ vy b)
       (vz a ⊗ vx b ⊖ vx a ⊗ vz b)
       (vx a ⊗ vy b ⊖ vy a ⊗ vx b).
Definition v3_norm_squared (a : Vec3) : K := vx a ⊗ vx a ⊕ vy a ⊗ vy a ⊕ vz a ⊗ vz a.
(** [Vector3::norm] *)
Definition v3_norm (a : Vec3) : K := s_sqrt (v3_norm_squared a).

(** A [Vector6] read from a dynamic vector slice of length 6. *)
Definition vec6_of_list (l : list K) : Vec6 :=
  mkV6 (mkV3 (nth 0 l s_zero) (nth 1 l s_zero) (nth 2 l s_zero))
       (mkV3 (nth 3 l s_zero) (nth 4 l s_zero) (nth 5 l s_zero)).
Definition vec4_of_list (l : list K) : Vec4 :=
  mkV4 (nth 0 l s_zero) (nth 1 l s_zero) (nth 2 l s_zero) (nth 3 l s_zero).
Definition v3_list (a : Vec3) : list K := [vx a; vy a; vz a].
Definition vec6_list (v : Vec6) : list K := v3_list (v6_head v) ++ v3_list (v6_tail v).

(** ** 3x3 matrices *)

Definition mat3_zero : Mat3 :=
  mkM3 s_zero s_zero s_zero s_zero s_zero s_zero s_zero s_zero s_zero.
Definition mat3_id : Mat3 :=
  mkM3 s_one s_zero s_zero s_zero s_one s_zero s_zero s_zero s_one.
Definition mat3_map2 (f : K -> K -> K) (a b : Mat3) : Mat3 :=
  mkM3 (f (m00 a) (m00 b)) (f (m01 a) (m01 b)) (f (m02 a) (m02 b))
       (f (m10 a) (m10 b)) (f (m11 a) (m11 b)) (f (m12 a) (m12 b))
       (f (m20 a) (m20 b)) (f (m21 a) (m21 b)) (f (m22 a) (m22 b)).
Definition mat3_map (f : K -> K) (a : Mat3) : Mat3 :=
  mkM3 (f (m00 a)) (f (m01 a)) (f (m02 a))
       (f (m10 a)) (f (m11 a)) (f (m12 a))
       (f (m20 a)) (f (m21 a)) (f (m22 a)).
Definition mat3_add : Mat3 -> Mat3 -> Mat3 := mat3_map2 s_add.
Definition mat3_sub : Mat3 -> Mat3 -> Mat3 := mat3_map2 s_sub.
Definition mat3_neg : Mat3 -> Mat3 := mat3_map s_opp.
Definition mat3_scale (a : Mat3) (s : K) : Mat3 := mat3_map (fun x => x ⊗ s) a.
Definition mat3_div (a : Mat3) (s : K) : Mat3 := mat3_map (fun x => x ⊘ s) a.
Definition mat3_row0 (a : Mat3) : Vec3 := mkV3 (m00 a) (m01 a) (m02 a).
Definition mat3_row1 (a : Mat3) : Vec3 := mkV3 (m10 a) (m11 a) (m12 a).
Definition mat3_row2 (a : Mat3) : Vec3 := mkV3 (m20 a) (m21 a) (m22 a).
Definition dot3 (a b : Vec3) : K := vx a ⊗ vx b ⊕ vy a ⊗ vy b ⊕ vz a ⊗ vz b.
Definition mat3_vec (a : Mat3) (v : Vec3) : Vec3 :=
  mkV3 (dot3 (mat3_row0 a) v) (dot3 (mat3_row1 a) v) (dot3 (mat3_row2 a) v).
Definition mat3_col0 (a : Mat3) : Vec3 := mkV3 (m00 a) (m10 a) (m20 a).
Definition mat3_col1 (a : Mat3) : Vec3 := mkV3 (m01 a) (m11 a) (m21 a).
Definition mat3_col2 (a : Mat3) : Vec3 := mkV3 (m02 a) (m12 a) (m22 a).
Definition mat3_mul (a b : Mat3) : Mat3 :=
  mkM3 (dot3 (mat3_row0 a) (mat3_col0 b)) (dot3 (mat3_row0 a) (mat3_col1 b))
       (dot3 (mat3_row0 a) (mat3_col2 b))
       (dot3 (mat3_row1 a) (mat3_col0 b)) (dot3 (mat3_row1 a) (mat3_col1 b))
       (dot3 (mat3_row1 a) (mat3_col2 b))
       (dot3 (mat3_row2 a) (mat3_col0 b)) (dot3 (mat3_row2 a) (mat3_col1 b))
       (dot3 (mat3_row2 a) (mat3_col2 b)).
Definition mat3_transpose (a : Mat3) : Mat3 :=
  mkM3 (m00 a) (m10 a) (m20 a) (m01 a) (m11 a) (m21 a) (m02 a) (m12 a) (m22 a).
Definition mat3_rows (a : Mat3) : list (list K) :=
  [v3_list (mat3_row0 a); v3_list (mat3_row1 a); v3_list (mat3_row2 a)].

(** [Matrix3] as the dynamic matrix a [copy_from] reads. *)
Definition mat3_dmat (a : Mat3) : DMat K := mkDMat 3 3 (mat3_rows a).

(** [m[(i, j)] = v] on a [Matrix3].  The source writes only at literal
    indices in [0..3), so the index is one of three constructors and the
    write is total. *)
Definition mat3_set (a : Mat3) (i j : idx3) (v : K) : Mat3 :=
  let '(mkM3 a00 a01 a02 a10 a11 a12 a20 a21 a22) := a in
  match i, j with
  | I0, I0 => mkM3 v a01 a02 a10 a11 a12 a20 a21 a22
  | I0, I1 => mkM3 a00 v a02 a10 a11 a12 a20 a21 a22
  | I0, I2 => mkM3 a00 a01 v a10 a11 a12 a20 a21 a22
  | I1, I0 => mkM3 a00 a01 a02 v a11 a12 a20 a21 a22
  | I1, I1 => mkM3 a00 a01 a02 a10 v a12 a20 a21 a22
  | I1, I2 => mkM3 a00 a01 a02 a10 a11 v a20 a21 a22
  | I2, I0 => mkM3 a00 a01 a02 a10 a11 a12 v a21 a22
  | I2, I1 => mkM3 a00 a01 a02 a10 a11 a12 a20 v a22
  | I2, I2 => mkM3 a00 a01 a02 a10 a11 a12 a20 a21 v
  end.

(** ** Quaternions and isometries *)

Definition quat_identity : Quat := mkQ s_one s_zero s_zero s_zero.
Definition quat_vector (q : Quat) : Vec3 := mkV3 (qi q) (qj q) (qk q).
(** The norm of the coordinate vector, stored by nalgebra as [(i, j, k, w)]. *)
Definition quat_norm (q : Quat) : K :=
  s_sqrt (qi q ⊗ qi q ⊕ qj q ⊗ qj q ⊕ qk q ⊗ qk q ⊕ qw q ⊗ qw q).
(** [UnitQuaternion::from_quaternion]: division by the norm. *)
Definition quat_normalize (q : Quat) : Quat :=
  let n := quat_norm q in mkQ (qw q ⊘ n) (qi q ⊘ n) (qj q ⊘ n) (qk q ⊘ n).
(** [UnitQuaternion * Vector3] as nalgebra computes it:
    [t = 2 (q_v x v)], [v + w t + q_v x t]. *)
Definition quat_rotate (q : Quat) (v : Vec3) : Vec3 :=
  let t := v3_scale (v3_cross (quat_vector q) v) s_two in
  let c := v3_cross (quat_vector q) t in
  v3_add (v3_add (v3_scale t (qw q)) c) v.
(** [Isometry3 * Point3]: rotate, then translate. *)
Definition iso_transform_point (T : Iso3) (p : Vec3) : Vec3 :=
  v3_add (quat_rotate (iso_rot T) p) (iso_trans T).

(** [Point2 - Point2] *)
Definition pt2_sub (a b : Pt2) : Pt2 := mkP2 (px a ⊖ px b) (py a ⊖ py b).
Definition pt2_list (a : Pt2) : list K := [px a; py a].
End Fixed.

Arguments Vec3 K : clear implicits.
Arguments Vec4 K : clear implicits.
Arguments Vec6 K : clear implicits.
Arguments Mat3 K : clear implicits.
Arguments Quat K : clear implicits.
Arguments Iso3 K : clear implicits.
Arguments Pt2 K : clear implicits.
