(* ===== verification/Lie.v ===== *)
(** * Lie-group utilities (src/src/optimize.rs, lines 6-103)

    [skew_sym], [exp_map], [log_map] and [exp_map_jacobian], each written
    statement by statement from the source, generic in the scalar type:
    [skew_sym] is the zero matrix and its six indexed writes
    ([mat3_set]), [exp_map_jacobian] the zero 3x6 matrix and its two
    [fixed_view_mut(..).copy_from] writes ([dcopy_block]), which never
    panic and build the block matrix [exp_map_jacobian_block].
    The theorems are at [R]: [skew_sym v] is the cross product by [v];
    [exp_map_jacobian p] maps a perturbation [(d, w)] to
    [d + w x p]; the small-angle branches of [exp_map]/[log_map] are the
    identity rotation; the quaternion [exp_map] builds is a unit one; and,
    in [LieRoundtrip], [log_map (exp_map xi) = xi] for rotation angles in
    [(1e-6, 2 pi)]. *)

From Stdlib Require Import List Arith Lia Reals Lra.
Import ListNotations.
From S2P Require Import Prelude Scalars DMatrix Fixed.

Module Lie.
Section Defs.
Context {K : Type} `{Scalar K} `{Trig K}.

(** [skew_sym(v)]: zeros, then the six off-diagonal writes. *)
Definition skew_sym (v : Vec3 K) : Mat3 K :=
  let ss := mat3_zero in
  let ss := mat3_set ss I0 I1 (s_opp (vz v)) in
  let ss := mat3_set ss I0 I2 (vy v) in
  let ss := mat3_set ss I1 I0 (vz v) in
  let ss := mat3_set ss I1 I2 (s_opp (vx v)) in
  let ss := mat3_set ss I2 I0 (s_opp (vy v)) in
  let ss := mat3_set ss I2 I1 (vx v) in
  ss.

(** [exp_map(param_vector)] *)
Definition exp_map (param_vector : Vec6 K) : Iso3 K :=
  let t := v6_head param_vector in
  let omega := v6_tail param_vector in
  let theta := v3_norm omega in
  let half_theta := s_half ⊗ theta in
  let quat_axis := v3_div (v3_scale omega (s_sin half_theta)) theta in
  let quat :=
    if lie_eps ≺ theta then
      quat_normalize (mkQ (s_cos half_theta) (vx quat_axis) (vy quat_axis) (vz quat_axis))
    else quat_identity in
  let v :=
    if lie_eps ≺ theta then
      let ssym_omega := skew_sym omega in
      mat3_add mat3_id
        (mat3_add (mat3_div (mat3_scale ssym_omega (s_one ⊖ s_cos theta)) (powi theta 2))
                  (mat3_scale (mat3_mul ssym_omega ssym_omega)
                              ((theta ⊖ s_sin theta) ⊘ powi theta 3)))
    else mat3_id in
  mkIso (mat3_vec v t) quat.

(** [log_map(input)] *)
Definition log_map (input : Iso3 K) : Vec6 K :=
  let t := iso_trans input in
  let quat := iso_rot input in
  let theta := s_two ⊗ s_acos (qw quat) in
  let half_theta := s_half ⊗ theta in
  if lie_eps ≺ theta then
    let omega := v3_div (v3_scale (quat_vector quat) theta) (s_sin half_theta) in
    let ssym_omega := skew_sym omega in
    let v_inv := mat3_sub mat3_id (mat3_scale ssym_omega s_half) in
    let v_inv :=
      mat3_add v_inv
        (mat3_div (mat3_scale (mat3_mul ssym_omega ssym_omega)
                              (s_one ⊖ half_theta ⊗ s_cos half_theta ⊘ s_sin half_theta))
                  (theta ⊗ theta)) in
    mkV6 (mat3_vec v_inv t) omega
  else mkV6 (mat3_vec mat3_id t) v3_zero.

(** [exp_map_jacobian(transformed_point)]: a 3x6 zero matrix whose left
    view receives the identity and right view [-skew_sym(p)]; a view that
    does not fit would panic. *)
Definition exp_map_jacobian (transformed_point : Vec3 K) : option (DMat K) :=
  let ss := dzeros 3 6 in
  ss <- dcopy_block 0 0 (mat3_dmat mat3_id) ss ;;
  ss <- dcopy_block 0 3 (mat3_dmat (mat3_neg (skew_sym transformed_point))) ss ;;
  Some ss.

(** The block matrix [[I | -skew_sym(p)]] the two copies build. *)
Definition exp_map_jacobian_block (transformed_point : Vec3 K) : DMat K :=
  mkDMat 3 6 (map (fun rs => fst rs ++ snd rs)
                  (combine (mat3_rows mat3_id)
                           (mat3_rows (mat3_neg (skew_sym transformed_point))))).
End Defs.

(** The closed form of the six writes. *)
Lemma skew_sym_closed {K : Type} `{Scalar K} (v : Vec3 K) :
  skew_sym v = mkM3 s_zero          (s_opp (vz v)) (vy v)
                    (vz v)          s_zero         (s_opp (vx v))
                    (s_opp (vy v))  (vx v)         s_zero.
Proof. reflexivity. Qed.

(** The two copies always fit and build the block matrix. *)
Lemma exp_map_jacobian_some {K : Type} `{Scalar K} (p : Vec3 K) :
  exp_map_jacobian p = Some (exp_map_jacobian_block p).
Proof. reflexivity. Qed.

(** ** Component lemmas at [R] *)

Local Open Scope R_scope.

Ltac v3_ring :=
  repeat match goal with v : Vec3 R |- _ => destruct v end;
  unfold v3_cross, v3_add, v3_sub, v3_scale, v3_div, mat3_vec, dot3,
    mat3_row0, mat3_row1, mat3_row2; rewrite ?skew_sym_closed; simpl; rsimpl; f_equal; ring.

Lemma mat3_vec_id (v : Vec3 R) : mat3_vec mat3_id v = v.
Proof. destruct v; unfold mat3_vec, dot3, mat3_id; simpl; rsimpl; f_equal; ring. Qed.

Lemma cross_anticomm (a b : Vec3 R) : v3_cross a b = v3_scale (v3_cross b a) (-1)%R.
Proof. v3_ring. Qed.

Ltac m3_destr :=
  repeat match goal with
  | A : Mat3 R |- _ => destruct A as [?a00 ?a01 ?a02 ?a10 ?a11 ?a12 ?a20 ?a21 ?a22]
  | v : Vec3 R |- _ => destruct v as [?x ?y ?z]
  end.

(** Entry-wise ring reasoning on 3x3 matrices and 3-vectors.  The field
    names of the destructed records are fresh so that the projections stay
    visible to [cbn]. *)
Ltac m3_ring :=
  m3_destr;
  unfold mat3_add, mat3_sub, mat3_map2, mat3_div, mat3_scale, mat3_map, mat3_mul,
    mat3_vec, dot3, mat3_row0, mat3_row1, mat3_row2, mat3_col0, mat3_col1, mat3_col2,
    v3_add, v3_sub, v3_scale, v3_div, v3_cross;
  cbn [vx vy vz m00 m01 m02 m10 m11 m12 m20 m21 m22]; rsimpl; unfold Rdiv; f_equal; ring.

(** [mat3_vec] is linear in the matrix and turns products into
    composition. *)
Lemma mat3_vec_add (A B : Mat3 R) (v : Vec3 R) :
  mat3_vec (mat3_add A B) v = v3_add (mat3_vec A v) (mat3_vec B v).
Proof. m3_ring. Qed.

Lemma mat3_vec_sub (A B : Mat3 R) (v : Vec3 R) :
  mat3_vec (mat3_sub A B) v = v3_sub (mat3_vec A v) (mat3_vec B v).
Proof. m3_ring. Qed.

Lemma mat3_vec_scale (A : Mat3 R) (s : R) (v : Vec3 R) :
  mat3_vec (mat3_scale A s) v = v3_scale (mat3_vec A v) s.
Proof. m3_ring. Qed.

Lemma mat3_vec_div (A : Mat3 R) (s : R) (v : Vec3 R) :
  mat3_vec (mat3_div A s) v = v3_scale (mat3_vec A v) (/ s).
Proof. m3_ring. Qed.

Lemma mat3_vec_mul (A B : Mat3 R) (v : Vec3 R) :
  mat3_vec (mat3_mul A B) v = mat3_vec A (mat3_vec B v).
Proof. m3_ring. Qed.

Lemma skew_sym_apply (w v : Vec3 R) : mat3_vec (skew_sym w) v = v3_cross w v.
Proof. m3_destr. rewrite skew_sym_closed. m3_ring. Qed.

#[export] Hint Rewrite mat3_vec_id : lm_rw.
Create Rewrite HintDb m3.
#[export] Hint Rewrite mat3_vec_add mat3_vec_sub mat3_vec_scale mat3_vec_div mat3_vec_mul
  skew_sym_apply mat3_vec_id : m3.

(** The block [[I | -skew_sym(p)]] applied to a perturbation [(d, w)]. *)
Lemma exp_map_jacobian_dmatvec (p d w : Vec3 R) :
  dmatvec (exp_map_jacobian_block p) (vec6_list (mkV6 d w)) =
  Some (v3_list (v3_add d (v3_cross w p))).
Proof.
  destruct p, d, w. unfold dmatvec, exp_map_jacobian_block, vec6_list, v3_list, dot; simpl.
  rsimpl. f_equal. unfold v3_add, v3_cross; simpl; rsimpl. f_equal; [|f_equal; [|f_equal]]; ring.
Qed.

(** ** Theorems *)

(** C26: [skew_sym(v) * w] is the cross product [v x w] (spec, testable
    property 2). *)
Theorem skew_sym_cross (v w : Vec3 R) : mat3_vec (skew_sym v) w = v3_cross v w.
Proof. apply skew_sym_apply. Qed.

(** [v3_norm] at [R] squares to the sum of squares. *)
Lemma v3_norm_sq (w : Vec3 R) : (v3_norm w * v3_norm w)%R = v3_norm_squared w.
Proof.
  unfold v3_norm, v3_norm_squared; rsimpl. apply sqrt_sqrt. destruct w; simpl; nra.
Qed.

Lemma v3_norm_nonneg (w : Vec3 R) : (0 <= v3_norm w)%R.
Proof. unfold v3_norm; rsimpl. apply sqrt_pos. Qed.

(** The branch test [theta > 1e-6] at [R]. *)
Lemma lie_test_true (x : R) : (lie_eps < x)%R -> (lie_eps ≺ x) = true.
Proof. intros Hx. rsimpl. now apply Rltb_true. Qed.

Lemma lie_test_false (x : R) : (x <= lie_eps)%R -> (lie_eps ≺ x) = false.
Proof. intros Hx. rsimpl. now apply Rltb_false. Qed.

(** C27: the Jacobian [exp_map_jacobian p] maps a perturbation [(d, w)] of
    the Lie-algebra coordinates to [d + w x p], the first-order motion of
    the transformed point [p] (spec, section 4.2). *)
Theorem exp_map_jacobian_apply (p d w : Vec3 R) :
  (J <- exp_map_jacobian p ;; dmatvec J (vec6_list (mkV6 d w))) =
  Some (v3_list (v3_add d (v3_cross w p))).
Proof. rewrite exp_map_jacobian_some. apply exp_map_jacobian_dmatvec. Qed.

(** The small-angle branch of [exp_map]. *)
Lemma exp_map_small (xi : Vec6 R) :
  (v3_norm (v6_tail xi) <= lie_eps)%R ->
  exp_map xi = mkIso (v6_head xi) quat_identity.
Proof.
  intros Hs. unfold exp_map. cbv zeta. rewrite lie_test_false by exact Hs.
  now rewrite mat3_vec_id.
Qed.

(** The small-angle branch of [log_map]. *)
Lemma log_map_small (T : Iso3 R) :
  (2 * acos (qw (iso_rot T)) <= lie_eps)%R ->
  log_map T = mkV6 (iso_trans T) v3_zero.
Proof.
  intros Hs. unfold log_map. cbv zeta. rewrite lie_test_false by exact Hs.
  now rewrite mat3_vec_id.
Qed.

(** C29: both maps take their small-angle branch at or below [1e-6]: a
    rotation vector at most [1e-6] long gives [exp_map] the identity
    rotation and the translation part unchanged; a rotation of angle
    [2 acos w] at most [1e-6] gives [log_map] the translation unchanged
    and a zero rotation vector. *)
Theorem small_angle_branches (xi : Vec6 R) (T : Iso3 R) :
  ((v3_norm (v6_tail xi) <= lie_eps)%R -> exp_map xi = mkIso (v6_head xi) quat_identity) /\
  ((2 * acos (qw (iso_rot T)) <= lie_eps)%R -> log_map T = mkV6 (iso_trans T) v3_zero).
Proof. split; [apply exp_map_small|apply log_map_small]. Qed.

(** The unit quaternion of rotation vector [w] and angle [|w|]. *)
Definition axis_angle_quat (w : Vec3 R) : Quat R :=
  let theta := v3_norm w in
  mkQ (cos (theta / 2)) (vx w * sin (theta / 2) / theta) (vy w * sin (theta / 2) / theta)
      (vz w * sin (theta / 2) / theta).

Lemma axis_angle_quat_norm (w : Vec3 R) :
  lie_eps < v3_norm w -> quat_norm (axis_angle_quat w) = 1.
Proof.
  intros Hs. pose proof lie_eps_R_pos as He.
  unfold axis_angle_quat, quat_norm; cbn [qw qi qj qk]; rsimpl. rewrite <- sqrt_1. f_equal.
  pose proof (v3_norm_sq w) as Hsq. unfold v3_norm_squared in Hsq; rsimpl.
  set (theta := v3_norm w) in *.
  pose proof (sin2_cos2 (theta / 2)) as Hsc. unfold Rsqr in Hsc.
  assert (Hpos : 0 < theta) by lra.
  set (s := sin (theta / 2)) in *. set (c := cos (theta / 2)) in *.
  transitivity ((vx w * vx w + vy w * vy w + vz w * vz w) * (s * s) / (theta * theta) + c * c);
    [field; lra|].
  rewrite <- Hsq, <- Hsc. field. lra.
Qed.

Lemma quat_normalize_unit (q : Quat R) : quat_norm q = 1 -> quat_normalize q = q.
Proof.
  intros Hn. unfold quat_normalize. rewrite Hn. destruct q as [a b c d]; cbn [qw qi qj qk]; rsimpl.
  f_equal; field.
Qed.

(** C28: above the threshold, the rotation [exp_map] builds is the unit
    quaternion [(cos (theta/2), sin (theta/2) omega / theta)] of the
    rotation vector: the normalisation by [from_quaternion] leaves it
    unchanged. *)
Theorem exp_map_rotation (xi : Vec6 R) :
  lie_eps < v3_norm (v6_tail xi) ->
  iso_rot (exp_map xi) = axis_angle_quat (v6_tail xi) /\
  quat_norm (iso_rot (exp_map xi)) = 1.
Proof.
  intros Hs.
  assert (Hr : iso_rot (exp_map xi) = axis_angle_quat (v6_tail xi)).
  { unfold exp_map. cbv zeta. rewrite lie_test_true by exact Hs.
    cbn [iso_rot]. unfold v3_div, v3_scale. cbn [vx vy vz]. rsimpl.
    rewrite s_half_mul_R. apply quat_normalize_unit, axis_angle_quat_norm, Hs. }
  rewrite Hr. split; [reflexivity|]. now apply axis_angle_quat_norm.
Qed.

(** ** Witnesses *)

Lemma v3_norm_axis (a : R) : 0 <= a -> v3_norm (mkV3 a 0 0) = a.
Proof.
  intros Ha. unfold v3_norm, v3_norm_squared; cbn [vx vy vz]; rsimpl.
  replace (a * a + 0 * 0 + 0 * 0) with (Rsqr a) by (unfold Rsqr; ring).
  now apply sqrt_Rsqr.
Qed.

Lemma small_angle_branches_witness :
  let xi := mkV6 (mkV3 1 2 3) (mkV3 0 0 0) in
  let T := mkIso (mkV3 1 2 3) quat_identity in
  v3_norm (v6_tail xi) <= lie_eps /\ exp_map xi = mkIso (mkV3 1 2 3) quat_identity /\
  2 * acos (qw (iso_rot T)) <= lie_eps /\ log_map T = mkV6 (mkV3 1 2 3) v3_zero.
Proof.
  intros xi T. unfold xi, T.
  assert (Hn : v3_norm (v6_tail (mkV6 (mkV3 1 2 3) (mkV3 0 0 0))) <= lie_eps).
  { cbn [v6_tail]. rewrite v3_norm_axis by lra. pose proof lie_eps_R_pos. lra. }
  assert (Ha : 2 * acos (qw (iso_rot (mkIso (mkV3 1 2 3) quat_identity))) <= lie_eps).
  { cbn [iso_rot qw quat_identity]. rsimpl. rewrite acos_1. pose proof lie_eps_R_pos. lra. }
  destruct (small_angle_branches (mkV6 (mkV3 1 2 3) (mkV3 0 0 0))
                                 (mkIso (mkV3 1 2 3) quat_identity)) as [He Hl].
  split; [exact Hn|]. split; [exact (He Hn)|]. split; [exact Ha|exact (Hl Ha)].
Defined.

Lemma exp_map_rotation_witness :
  lie_eps < v3_norm (v6_tail (mkV6 (mkV3 0 0 0) (mkV3 1 0 0))) /\
  iso_rot (exp_map (mkV6 (mkV3 0 0 0) (mkV3 1 0 0))) = axis_angle_quat (mkV3 1 0 0) /\
  quat_norm (iso_rot (exp_map (mkV6 (mkV3 0 0 0) (mkV3 1 0 0)))) = 1.
Proof.
  assert (Hn : lie_eps < v3_norm (v6_tail (mkV6 (mkV3 0 0 0) (mkV3 1 0 0)))).
  { cbn [v6_tail]. rewrite v3_norm_axis by lra. rewrite lie_eps_R. lra. }
  split; [exact Hn|]. exact (exp_map_rotation _ Hn).
Defined.

End Lie.
