(* ===== verification/LieRoundtrip.v ===== *)
(** * Round trips between Lie-algebra coordinates and isometries

    [exp_map] and [log_map] of optimize.rs (modelled in [Lie]) are
    inverse to each other, over [R], on the range where the source's
    formulas are defined:
    - [log_map (exp_map xi) = xi] when the rotation vector has length in
      [(1e-6, 2 pi)] (spec, testable property 1, whose range
      [(0.01, pi - 0.01)] this contains);
    - [exp_map (log_map T) = T] when the rotation of [T] is a unit
      quaternion with scalar part [w > -1] and angle [2 acos w > 1e-6].

    The proof works with [so3_poly w t a b = t + a (w x t) + b (w x (w x t))],
    the action of [I + a S + b S^2] for [S = skew_sym w]: [V] in [exp_map]
    and [V_inv] in [log_map] are of this form, two of them compose by
    [S^3 = -|w|^2 S] ([so3_poly_compose]), and the coefficients of the
    source make the composite the identity ([so3_coeffs], by the
    half-angle formulas).

    [log_map] takes [2 acos w] without first making [w] non-negative, which
    the spec (sections 4.2 and 9) says it does: for [w < 0] the rotation
    vector it returns is longer than [pi] ([log_map_angle_above_pi]),
    although [-q] describes the same rotation with an angle below [pi]. *)

From Stdlib Require Import List Reals Lra.
Import ListNotations.
From S2P Require Import Prelude Scalars DMatrix Fixed Lie.

Module LieRoundtrip.
Import Lie.
Local Open Scope R_scope.

(** [I + a S + b S^2] applied to [t], with [S] the cross product by [w]. *)
Definition so3_poly (w t : Vec3 R) (a b : R) : Vec3 R :=
  v3_add t (v3_add (v3_scale (v3_cross w t) a) (v3_scale (v3_cross w (v3_cross w t)) b)).

Lemma exp_V_apply (w t : Vec3 R) (x y z : R) :
  mat3_vec (mat3_add mat3_id
              (mat3_add (mat3_div (mat3_scale (skew_sym w) x) y)
                        (mat3_scale (mat3_mul (skew_sym w) (skew_sym w)) z))) t =
  so3_poly w t (x / y) z.
Proof. autorewrite with m3. unfold so3_poly. m3_ring. Qed.

Lemma log_Vinv_apply (w t : Vec3 R) (h x y : R) :
  mat3_vec (mat3_add (mat3_sub mat3_id (mat3_scale (skew_sym w) h))
              (mat3_div (mat3_scale (mat3_mul (skew_sym w) (skew_sym w)) x) y)) t =
  so3_poly w t (- h) (x / y).
Proof. autorewrite with m3. unfold so3_poly. m3_ring. Qed.

(** Two such polynomials compose by [S^3 = - |w|^2 S]. *)
Lemma so3_poly_compose (w t : Vec3 R) (a b c d : R) :
  so3_poly w (so3_poly w t a b) c d =
  so3_poly w t (a + c - v3_norm_squared w * (c * b + d * a))
               (b + d + c * a - v3_norm_squared w * d * b).
Proof. unfold so3_poly, v3_norm_squared. m3_ring. Qed.

Lemma so3_poly_zero (w t : Vec3 R) : so3_poly w t 0 0 = t.
Proof. unfold so3_poly. m3_ring. Qed.

Lemma half_angle_sin (x : R) : sin x = 2 * sin (x / 2) * cos (x / 2).
Proof. rewrite <- sin_2a. f_equal. field. Qed.
Lemma half_angle_cos (x : R) : cos x = 1 - 2 * sin (x / 2) * sin (x / 2).
Proof. rewrite <- cos_2a_sin. f_equal. field. Qed.

(** The coefficients of [V] in [exp_map] and of [V_inv] in [log_map]
    make [V_inv V = I] once [|w|^2 = theta^2]. *)
Lemma so3_coeffs (th : R) :
  0 < th -> sin (th / 2) <> 0 ->
  let A := (1 - cos th) / th ^ 2 in
  let B := (th - sin th) / th ^ 3 in
  let C := (1 - th / 2 * cos (th / 2) / sin (th / 2)) / (th * th) in
  A + - (1 / 2) - th * th * (- (1 / 2) * B + C * A) = 0 /\
  B + C + - (1 / 2) * A - th * th * C * B = 0.
Proof.
  intros Hth Hs A B C. unfold A, B, C. rewrite half_angle_sin, half_angle_cos.
  pose proof (sin2_cos2 (th / 2)) as Hsc. unfold Rsqr in Hsc.
  set (s := sin (th / 2)) in *. set (c := cos (th / 2)) in *. split.
  - field. lra.
  - transitivity ((1 - s * s - c * c) / (th * th)); [field; lra|].
    rewrite <- Hsc. field. lra.
Qed.

(** [V] and [V_inv] are inverse to each other, in both orders, when
    [|w| = theta] and [sin (theta/2) <> 0]. *)
Lemma so3_poly_inverse (w t : Vec3 R) (th : R) :
  0 < th -> sin (th / 2) <> 0 -> v3_norm_squared w = th * th ->
  let A := (1 - cos th) / th ^ 2 in
  let B := (th - sin th) / th ^ 3 in
  let C := (1 - th / 2 * cos (th / 2) / sin (th / 2)) / (th * th) in
  so3_poly w (so3_poly w t A B) (- (1 / 2)) C = t /\
  so3_poly w (so3_poly w t (- (1 / 2)) C) A B = t.
Proof.
  intros Hth Hs Hn A B C. destruct (so3_coeffs th Hth Hs) as [HA HB]. fold A B C in HA, HB.
  split; (transitivity (so3_poly w t 0 0); [|apply so3_poly_zero]);
    rewrite so3_poly_compose, Hn; f_equal;
    first [etransitivity; [|exact HA]; ring | etransitivity; [|exact HB]; ring].
Qed.

(** [exp_map] above the threshold, in closed form. *)
Lemma exp_map_large (t w : Vec3 R) :
  lie_eps < v3_norm w ->
  let th := v3_norm w in
  exp_map (mkV6 t w) =
  mkIso (so3_poly w t ((1 - cos th) / th ^ 2) ((th - sin th) / th ^ 3)) (axis_angle_quat w).
Proof.
  intros Hs th. unfold exp_map. cbv zeta. cbn [v6_head v6_tail].
  rewrite lie_test_true by exact Hs. f_equal.
  - rewrite exp_V_apply. rsimpl. rewrite !powi_R. reflexivity.
  - unfold v3_div, v3_scale. cbn [vx vy vz]. rsimpl.
    rewrite s_half_mul_R. apply quat_normalize_unit, axis_angle_quat_norm, Hs.
Qed.

(** [log_map] above the threshold, in closed form. *)
Lemma log_map_large (T : Iso3 R) :
  let th := 2 * acos (qw (iso_rot T)) in
  lie_eps < th ->
  let omega := v3_scale (v3_scale (quat_vector (iso_rot T)) th) (/ sin (th / 2)) in
  log_map T =
  mkV6 (so3_poly omega (iso_trans T) (- (1 / 2))
          ((1 - th / 2 * cos (th / 2) / sin (th / 2)) / (th * th))) omega.
Proof.
  intros th Hs omega. unfold log_map. cbv zeta. rsimpl. rewrite s_two_R.
  fold th. rewrite lie_test_true by exact Hs. rewrite s_half_mul_R, s_half_R.
  rewrite log_Vinv_apply. f_equal; unfold omega, v3_div, v3_scale; cbn [vx vy vz]; rsimpl;
    unfold Rdiv; reflexivity.
Qed.

(** [log_map] reads back the angle and the rotation vector of the
    axis-angle quaternion, for angles in [(0, 2 pi)]. *)
Lemma axis_angle_recover (w : Vec3 R) :
  0 < v3_norm w < 2 * PI ->
  let th := v3_norm w in
  2 * acos (qw (axis_angle_quat w)) = th /\
  sin (th / 2) <> 0 /\
  v3_scale (v3_scale (quat_vector (axis_angle_quat w)) th) (/ sin (th / 2)) = w.
Proof.
  intros Hth th. cbn [qw axis_angle_quat]. fold th.
  assert (Hpos : 0 < th) by (unfold th; lra).
  assert (Hs : 0 < sin (th / 2)) by (apply sin_gt_0; unfold th; lra).
  rewrite acos_cos by (unfold th; lra). split; [field|split; [lra|]].
  destruct w as [w1 w2 w3]. unfold v3_scale, quat_vector, axis_angle_quat.
  cbn [vx vy vz qi qj qk]. rsimpl. fold th.
  f_equal; field; split; lra.
Qed.

(** C14: [log_map] inverts [exp_map]: for a rotation vector of length in
    [(1e-6, 2 pi)], [log_map (exp_map xi) = xi] exactly (spec, testable
    property 1). *)
Theorem log_exp_roundtrip (xi : Vec6 R) :
  lie_eps < v3_norm (v6_tail xi) < 2 * PI ->
  log_map (exp_map xi) = xi.
Proof.
  destruct xi as [t w]. cbn [v6_tail]. intros [Hlo Hhi].
  pose proof lie_eps_R_pos as He.
  destruct (axis_angle_recover w ltac:(lra)) as (Hth & Hsin & Hw).
  rewrite exp_map_large by exact Hlo. cbv zeta.
  rewrite log_map_large; cbn [iso_rot iso_trans]; rewrite Hth; [|exact Hlo].
  rewrite Hw. f_equal. apply (so3_poly_inverse w t (v3_norm w)); [lra|exact Hsin|].
  symmetry. apply v3_norm_sq.
Qed.

(** A unit quaternion's coordinates have squares summing to one. *)
Lemma quat_unit_sq (q : Quat R) :
  quat_norm q = 1 -> qi q * qi q + qj q * qj q + qk q * qk q + qw q * qw q = 1.
Proof.
  unfold quat_norm. rsimpl. intros Hn.
  rewrite <- (sqrt_sqrt (qi q * qi q + qj q * qj q + qk q * qk q + qw q * qw q)) by nra.
  rewrite Hn. ring.
Qed.

(** What [log_map] computes from a unit quaternion [(w, v)] with
    [-1 < w] and angle [th = 2 acos w] above the threshold:
    [sin (th/2)] is the positive [sqrt (1 - w^2)], and the rotation vector
    [v th / sin (th/2)] has length exactly [th]. *)
Lemma log_rotation_vector (w i j k : R) :
  i * i + j * j + k * k + w * w = 1 -> -1 < w -> lie_eps < 2 * acos w ->
  let th := 2 * acos w in
  let omega := v3_scale (v3_scale (mkV3 i j k) th) (/ sin (th / 2)) in
  th / 2 = acos w /\ 0 < sin (th / 2) /\
  v3_norm_squared omega = th * th /\ v3_norm omega = th.
Proof.
  intros Hn Hlo Hs th omega. pose proof lie_eps_R_pos as He.
  assert (Hw1 : w < 1).
  { destruct (Rlt_le_dec w 1) as [|Hge]; [assumption|].
    assert (w = 1) as -> by nra. rewrite acos_1 in Hs. lra. }
  destruct (acos_bound_lt w ltac:(lra)) as [Ha0 HaPI].
  assert (Hh : th / 2 = acos w) by (unfold th; field).
  assert (Hsin : 0 < sin (th / 2)) by (rewrite Hh; apply sin_gt_0; assumption).
  assert (Hsc : sin (th / 2) * sin (th / 2) = 1 - w * w).
  { pose proof (sin2_cos2 (acos w)) as Hsc. rewrite cos_acos in Hsc by lra.
    unfold Rsqr in Hsc. rewrite Hh. lra. }
  assert (Hsq : v3_norm_squared omega = th * th).
  { unfold omega, v3_norm_squared, v3_scale. cbn [vx vy vz]. rsimpl.
    set (s := sin (th / 2)) in *.
    transitivity ((i * i + j * j + k * k) * (th * th) / (s * s)); [field; lra|].
    replace (i * i + j * j + k * k) with (s * s) by lra. field. lra. }
  repeat split; [exact Hh|exact Hsin|exact Hsq|].
  unfold v3_norm. rewrite Hsq. rsimpl. apply sqrt_square. unfold th. lra.
Qed.

(** C15: [exp_map] inverts [log_map] on unit quaternions: when the
    rotation of [T] is a unit quaternion with scalar part [w > -1] and
    angle [2 acos w > 1e-6], [exp_map (log_map T) = T] exactly. *)
Theorem exp_log_roundtrip (T : Iso3 R) :
  quat_norm (iso_rot T) = 1 -> -1 < qw (iso_rot T) ->
  lie_eps < 2 * acos (qw (iso_rot T)) ->
  exp_map (log_map T) = T.
Proof.
  intros Hn Hlo Hs. pose proof lie_eps_R_pos as He. apply quat_unit_sq in Hn.
  rewrite log_map_large by exact Hs.
  destruct T as [t [w i j k]]; cbn [iso_rot iso_trans qw qi qj qk] in *. unfold quat_vector.
  cbn [qi qj qk].
  destruct (log_rotation_vector w i j k Hn Hlo Hs) as (Hh & Hsin & Hsq & Hnorm).
  set (th := 2 * acos w) in *. set (s := sin (th / 2)) in *.
  set (omega := v3_scale (v3_scale (mkV3 i j k) th) (/ s)) in *.
  rewrite exp_map_large by (rewrite Hnorm; unfold th; lra). cbv zeta. rewrite Hnorm. f_equal.
  - apply (so3_poly_inverse omega t th); [unfold th; lra|fold s; lra|exact Hsq].
  - unfold axis_angle_quat. rewrite Hnorm. fold s. rewrite Hh, cos_acos by nra.
    unfold omega, v3_scale. cbn [vx vy vz]. rsimpl. f_equal; field; split; try (unfold th); lra.
Qed.

(** C16: [log_map] does not canonicalise the quaternion: for a unit
    quaternion with scalar part in [(-1, 0)] the rotation vector it returns
    has length [2 acos w > pi], whereas [-q], the same rotation, has angle
    [2 acos (-w) < pi] (the spec requires [w >= 0] before [acos]). *)
Theorem log_map_angle_above_pi (T : Iso3 R) :
  quat_norm (iso_rot T) = 1 -> -1 < qw (iso_rot T) < 0 ->
  v3_norm (v6_tail (log_map T)) = 2 * acos (qw (iso_rot T)) /\
  PI < 2 * acos (qw (iso_rot T)).
Proof.
  intros Hn [Hlo Hneg]. apply quat_unit_sq in Hn.
  destruct T as [t [w i j k]]; cbn [iso_rot iso_trans qw qi qj qk] in *.
  assert (Hpi : PI < 2 * acos w).
  { destruct (acos_bound w) as [Ha0 HaPI].
    destruct (Rlt_le_dec (PI / 2) (acos w)) as [|Hle]; [lra|].
    pose proof (cos_ge_0 (acos w) ltac:(lra) Hle) as Hc. rewrite cos_acos in Hc by nra. lra. }
  assert (Hs : lie_eps < 2 * acos w) by (rewrite lie_eps_R; pose proof PI2_3_2; lra).
  rewrite log_map_large by exact Hs. cbn [iso_rot qw v6_tail]. unfold quat_vector. cbn [qi qj qk].
  destruct (log_rotation_vector w i j k Hn Hlo Hs) as (_ & _ & _ & Hnorm).
  split; [exact Hnorm|exact Hpi].
Qed.

(** ** Witnesses *)

Lemma log_exp_roundtrip_witness :
  lie_eps < v3_norm (v6_tail (mkV6 (mkV3 1 2 3) (mkV3 1 0 0))) < 2 * PI /\
  log_map (exp_map (mkV6 (mkV3 1 2 3) (mkV3 1 0 0))) = mkV6 (mkV3 1 2 3) (mkV3 1 0 0).
Proof.
  assert (Hn : lie_eps < v3_norm (v6_tail (mkV6 (mkV3 1 2 3) (mkV3 1 0 0))) < 2 * PI).
  { cbn [v6_tail]. rewrite v3_norm_axis by lra. rewrite lie_eps_R.
    pose proof PI2_3_2. lra. }
  split; [exact Hn|]. exact (log_exp_roundtrip _ Hn).
Defined.

(** The rotation by [pi] about the x axis. *)
Definition half_turn : Iso3 R := mkIso (mkV3 1 2 3) (mkQ 0 1 0 0).

Lemma exp_log_roundtrip_witness :
  quat_norm (iso_rot half_turn) = 1 /\ -1 < qw (iso_rot half_turn) /\
  lie_eps < 2 * acos (qw (iso_rot half_turn)) /\
  exp_map (log_map half_turn) = half_turn.
Proof.
  assert (H1 : quat_norm (iso_rot half_turn) = 1).
  { unfold quat_norm; cbn [iso_rot half_turn qw qi qj qk]; rsimpl.
    match goal with |- sqrt ?x = 1 => replace x with 1 by ring end. apply sqrt_1. }
  assert (H2 : -1 < qw (iso_rot half_turn)) by (cbn [iso_rot half_turn qw]; lra).
  assert (H3 : lie_eps < 2 * acos (qw (iso_rot half_turn))).
  { cbn [iso_rot half_turn qw]. rewrite acos_0, lie_eps_R. pose proof PI2_3_2. lra. }
  split; [exact H1|split; [exact H2|split; [exact H3|]]].
  exact (exp_log_roundtrip _ H1 H2 H3).
Defined.

(** The quaternion [(-3/5, 4/5, 0, 0)]: a rotation by [2 acos (3/5)],
    about 106 degrees, written with a negative scalar part. *)
Definition negative_scalar : Iso3 R := mkIso (mkV3 1 2 3) (mkQ (-3/5) (4/5) 0 0).

Lemma log_map_angle_above_pi_witness :
  quat_norm (iso_rot negative_scalar) = 1 /\ -1 < qw (iso_rot negative_scalar) < 0 /\
  v3_norm (v6_tail (log_map negative_scalar)) = 2 * acos (qw (iso_rot negative_scalar)) /\
  PI < 2 * acos (qw (iso_rot negative_scalar)).
Proof.
  assert (H1 : quat_norm (iso_rot negative_scalar) = 1).
  { unfold quat_norm; cbn [iso_rot negative_scalar qw qi qj qk]; rsimpl.
    match goal with |- sqrt ?x = 1 => replace x with 1 by field end. apply sqrt_1. }
  assert (H2 : -1 < qw (iso_rot negative_scalar) < 0) by (cbn [iso_rot negative_scalar qw]; lra).
  split; [exact H1|split; [exact H2|]]. exact (log_map_angle_above_pi _ H1 H2).
Defined.

End LieRoundtrip.
