(* ===== verification/Camera.v ===== *)
(** * The projection model (src/src/optimize.rs, lines 105-148)

    [project] is the pinhole map [(fx x / z + cx, fy y / z + cy)];
    [proj_jacobian_wrt_params] and [proj_jacobian_wrt_point] are its 2x4
    and 2x3 analytic Jacobians, as dynamic matrices ready for
    [copy_from].  The theorems are at [R]: the projection is affine in the
    intrinsics with exactly [proj_jacobian_wrt_params] as linear part, and
    [proj_jacobian_wrt_point] is its derivative in every direction
    ([derivable_pt_lim]).  At [float], a point with [z = 0] projects to
    infinities and NaN; no error is raised. *)

From Stdlib Require Import List Reals Lra PrimFloat.
Import ListNotations.
From S2P Require Import Prelude Scalars DMatrix Fixed.

Module Camera.
Section Defs.
Context {K : Type} `{Scalar K}.

(** [project(params, pt)] with [params = (fx, fy, cx, cy)]. *)
Definition project (params : Vec4 K) (pt : Vec3 K) : Pt2 K :=
  mkP2 (e0 params ⊗ vx pt ⊘ vz pt ⊕ e2 params)
       (e1 params ⊗ vy pt ⊘ vz pt ⊕ e3 params).

(** [proj_jacobian_wrt_params(transformed_pt)]: [Matrix2x4::new] takes
    its entries row by row. *)
Definition proj_jacobian_wrt_params (transformed_pt : Vec3 K) : DMat K :=
  mkDMat 2 4
    [[vx transformed_pt ⊘ vz transformed_pt; s_zero; s_one; s_zero];
     [s_zero; vy transformed_pt ⊘ vz transformed_pt; s_zero; s_one]].

(** [proj_jacobian_wrt_point(camera_model, transformed_pt)] *)
Definition proj_jacobian_wrt_point (camera_model : Vec4 K) (transformed_pt : Vec3 K)
  : DMat K :=
  mkDMat 2 3
    [[e0 camera_model ⊘ vz transformed_pt; s_zero;
      s_opp (vx transformed_pt) ⊗ e0 camera_model ⊘ powi (vz transformed_pt) 2];
     [s_zero; e1 camera_model ⊘ vz transformed_pt;
      s_opp (vy transformed_pt) ⊗ e1 camera_model ⊘ powi (vz transformed_pt) 2]].

Definition v4_list (v : Vec4 K) : list K := [e0 v; e1 v; e2 v; e3 v].
Definition v4_add (a b : Vec4 K) : Vec4 K :=
  mkV4 (e0 a ⊕ e0 b) (e1 a ⊕ e1 b) (e2 a ⊕ e2 b) (e3 a ⊕ e3 b).
End Defs.

Local Open Scope R_scope.

(** ** Derivatives *)

Lemma derivable_pt_lim_ext (f g : R -> R) (x l l' : R) :
  (forall s, f s = g s) -> l = l' -> derivable_pt_lim f x l -> derivable_pt_lim g x l'.
Proof.
  intros Hfg <- Hf eps He. destruct (Hf eps He) as [delta Hd]. exists delta.
  intros h Hh Hlt. rewrite <- !Hfg. auto.
Qed.

Lemma derivable_pt_lim_affine (a b : R) : derivable_pt_lim (fun s => a + b * s) 0 b.
Proof.
  intros eps He. exists (mkposreal 1 Rlt_0_1). intros h Hh _.
  replace ((a + b * (0 + h) - (a + b * 0)) / h - b) with 0 by (field; exact Hh).
  now rewrite Rabs_R0.
Qed.

(** The derivative at [0] of [s |-> k (a + b s) / (c + d s) + m]: every
    coordinate of [project] along a direction has this shape. *)
Lemma derivable_pt_lim_proj_coord (k a b c d m : R) :
  c <> 0 ->
  derivable_pt_lim (fun s => k * (a + b * s) / (c + d * s) + m) 0
    ((k * b * c - k * a * d) / (c * c)).
Proof.
  intros Hc.
  pose proof (derivable_pt_lim_scal _ k 0 _ (derivable_pt_lim_affine a b)) as H1.
  pose proof (derivable_pt_lim_affine c d) as H2.
  assert (Hz : c + d * 0 <> 0) by (rewrite Rmult_0_r, Rplus_0_r; exact Hc).
  pose proof (derivable_pt_lim_div _ _ 0 _ _ H1 H2 Hz) as H3.
  pose proof (derivable_pt_lim_plus _ _ 0 _ _ H3 (derivable_pt_lim_const m 0)) as H4.
  refine (derivable_pt_lim_ext _ _ _ _ _ _ _ H4).
  - intros s. unfold plus_fct, div_fct, mult_real_fct, fct_cte. reflexivity.
  - unfold Rsqr, mult_real_fct. cbv beta. rewrite !Rmult_0_r, !Rplus_0_r. field. exact Hc.
Qed.

(** ** Theorems *)

(** C30: the projection is affine in the intrinsics: moving them by [d]
    moves the projected point by [proj_jacobian_wrt_params(pt) * d],
    exactly (not only to first order), whenever [z <> 0]. *)
Theorem project_affine_in_params (p d : Vec4 R) (pt : Vec3 R) :
  vz pt <> 0 ->
  (j <- dmatvec (proj_jacobian_wrt_params pt) (v4_list d) ;;
   dvadd (pt2_list (project p pt)) j) = Some (pt2_list (project (v4_add p d) pt)).
Proof.
  intros Hz. destruct p, d, pt. unfold dmatvec, dvadd, dot, project, pt2_list, v4_add, v4_list.
  simpl in *. rsimpl.
  f_equal. f_equal; [field; exact Hz|]. f_equal. field; exact Hz.
Qed.

(** C31: [proj_jacobian_wrt_point] is the derivative of [project] with
    respect to the camera-frame point: along any direction [e], each
    projected coordinate has derivative the matching entry of
    [proj_jacobian_wrt_point(model, pt) * e] (spec, testable property 3). *)
Theorem proj_jacobian_wrt_point_derivative (p : Vec4 R) (pt e : Vec3 R) :
  vz pt <> 0 ->
  exists je, dmatvec (proj_jacobian_wrt_point p pt) (v3_list e) = Some je /\
    derivable_pt_lim (fun s => px (project p (v3_add pt (v3_scale e s)))) 0 (nth 0 je 0) /\
    derivable_pt_lim (fun s => py (project p (v3_add pt (v3_scale e s)))) 0 (nth 1 je 0).
Proof.
  intros Hz. eexists; split; [reflexivity|].
  destruct p as [f0 f1 f2 f3], pt as [x y z], e as [ex ey ez]; simpl in Hz.
  unfold project, v3_add, v3_scale, dot; simpl; rsimpl. split.
  - eapply derivable_pt_lim_ext; [| |apply (derivable_pt_lim_proj_coord f0 x ex z ez f2 Hz)].
    + intros s; reflexivity.
    + field; exact Hz.
  - eapply derivable_pt_lim_ext; [| |apply (derivable_pt_lim_proj_coord f1 y ey z ez f3 Hz)].
    + intros s; reflexivity.
    + field; exact Hz.
Qed.

(** The evidence of the finding on [z = 0]: two points on the camera
    plane are projected without any check; in binary64 the result is infinite, or NaN when also [x = 0]
    (the spec requires a DegenerateGeometry error instead). *)
Example project_degenerate_float :
  let r1 := @project float _ (mkV4 540 540 320 240)%float (mkV3 1 1 0)%float in
  let r2 := @project float _ (mkV4 540 540 320 240)%float (mkV3 0 0 0)%float in
  is_infinity (px r1) = true /\ is_infinity (py r1) = true /\
  is_nan (px r2) = true /\ is_nan (py r2) = true.
Proof. vm_compute. repeat split. Qed.

(** ** Witnesses *)

Lemma project_affine_in_params_witness :
  vz (mkV3 1 2 4) <> 0 /\
  (j <- dmatvec (proj_jacobian_wrt_params (mkV3 1 2 4)) (v4_list (mkV4 1 1 1 1)) ;;
   dvadd (pt2_list (project (mkV4 540 540 320 240) (mkV3 1 2 4))) j) =
  Some (pt2_list (project (v4_add (mkV4 540 540 320 240) (mkV4 1 1 1 1)) (mkV3 1 2 4))).
Proof.
  assert (Hz : vz (mkV3 1 2 4) <> 0) by (simpl; lra).
  split; [exact Hz|]. exact (project_affine_in_params _ _ _ Hz).
Defined.

Lemma proj_jacobian_wrt_point_derivative_witness :
  vz (mkV3 1 2 4) <> 0 /\
  exists je, dmatvec (proj_jacobian_wrt_point (mkV4 540 540 320 240) (mkV3 1 2 4))
               (v3_list (mkV3 0 0 1)) = Some je /\
    derivable_pt_lim (fun s => px (project (mkV4 540 540 320 240)
                                   (v3_add (mkV3 1 2 4) (v3_scale (mkV3 0 0 1) s)))) 0
                     (nth 0 je 0) /\
    derivable_pt_lim (fun s => py (project (mkV4 540 540 320 240)
                                   (v3_add (mkV3 1 2 4) (v3_scale (mkV3 0 0 1) s)))) 0
                     (nth 1 je 0).
Proof.
  assert (Hz : vz (mkV3 1 2 4) <> 0) by (simpl; lra).
  split; [exact Hz|]. exact (proj_jacobian_wrt_point_derivative _ _ _ Hz).
Defined.

End Camera.
