(* ===== verification/LieJacobian.v ===== *)
(** * [exp_map_jacobian] against the derivative of [exp_map]
      (src/src/optimize.rs, lines 25-52 and 83-103)

    The doc comment of [exp_map_jacobian] calls it the derivative of
    [exp(t) * p] with respect to [t], and [jacobian] uses it as the
    derivative of the transformed point with respect to the pose
    parameters.  Over [R], at a pose with zero rotation vector (the initial
    pose [log_map] gives the test [test_opt]):
    - along the translation parameters the code's [exp_map] moves the point
      by exactly the perturbation, as the identity block of
      [exp_map_jacobian] says;
    - along the rotation parameters the code's [exp_map] is constant near
      the pose, since every rotation vector of length at most [1e-6] takes
      the identity branch: the derivative is [0], while the block
      [-skew_sym(p)] of [exp_map_jacobian] gives [w x p]. *)

From Stdlib Require Import List Reals Lra.
Import ListNotations.
From S2P Require Import Prelude Scalars DMatrix Fixed Lie Camera.

Module LieJacobian.
Import Lie Camera.
Local Open Scope R_scope.

(** A function constant near [0] has derivative [0] there. *)
Lemma derivable_pt_lim_locally_const (f : R -> R) (delta : R) :
  0 < delta -> (forall h, Rabs h < delta -> f h = f 0) -> derivable_pt_lim f 0 0.
Proof.
  intros Hd Hc eps He. exists (mkposreal delta Hd). intros h Hh Hlt. cbn in Hlt.
  rewrite Rplus_0_l, Hc by exact Hlt. unfold Rminus. rewrite Rplus_opp_r, Rdiv_0_l, Rplus_0_l.
  rewrite Ropp_0, Rabs_R0. exact He.
Qed.

Lemma v3_norm_scale (w : Vec3 R) (s : R) : v3_norm (v3_scale w s) = Rabs s * v3_norm w.
Proof.
  unfold v3_norm, v3_norm_squared, v3_scale. cbn [vx vy vz]. rsimpl.
  rewrite <- (sqrt_Rsqr (Rabs s)) by apply Rabs_pos. rewrite <- sqrt_mult.
  - f_equal. rewrite <- Rsqr_abs. unfold Rsqr. ring.
  - apply Rle_0_sqr.
  - destruct w as [a b c]; cbn [vx vy vz]. nra.
Qed.

Lemma quat_rotate_identity (p : Vec3 R) : quat_rotate quat_identity p = p.
Proof.
  destruct p as [a b c]. unfold quat_rotate, quat_identity, quat_vector, v3_scale, v3_cross,
    v3_add. cbn [vx vy vz qw qi qj qk]. rsimpl. unfold s_two. rsimpl. f_equal; ring.
Qed.

(** Near a pose with zero rotation, rotating parameters do not move
    [exp_map]: [exp_map (t, s w)] is the pure translation [t] while
    [|s| |w| <= 1e-6]. *)
Lemma exp_map_rotation_flat (t w : Vec3 R) (s : R) :
  Rabs s * v3_norm w <= lie_eps -> exp_map (mkV6 t (v3_scale w s)) = mkIso t quat_identity.
Proof. intros Hs. apply exp_map_small. cbn [v6_tail]. rewrite v3_norm_scale. exact Hs. Qed.

Lemma exp_map_zero_rotation (t : Vec3 R) : exp_map (mkV6 t v3_zero) = mkIso t quat_identity.
Proof.
  apply exp_map_small. cbn [v6_tail]. unfold v3_norm, v3_norm_squared, v3_zero; cbn [vx vy vz].
  rsimpl. replace (0 * 0 + 0 * 0 + 0 * 0) with 0 by ring. rewrite sqrt_0.
  pose proof lie_eps_R_pos. lra.
Qed.

(** The transformed point moves by [s d] along a translation direction. *)
Lemma exp_map_translation_line (t d p : Vec3 R) (s : R) :
  iso_transform_point (exp_map (mkV6 (v3_add t (v3_scale d s)) v3_zero)) p =
  v3_add (v3_add p t) (v3_scale d s).
Proof.
  rewrite exp_map_zero_rotation. unfold iso_transform_point. cbn [iso_rot iso_trans].
  rewrite quat_rotate_identity.
  destruct p as [p1 p2 p3], t as [t1 t2 t3], d as [d1 d2 d3]. unfold v3_add, v3_scale.
  cbn [vx vy vz].
  rsimpl. f_equal; ring.
Qed.

(** ** Theorems *)

(** C18: at a pose [(t, 0)] with zero rotation, the translation columns of
    [exp_map_jacobian] are the derivative of the code's [exp_map]: along a
    translation direction [d] the transformed point
    [exp_map (t + s d, 0) * p] has derivative [d], which is what
    [exp_map_jacobian], evaluated at the transformed point, gives for
    [(d, 0)]. *)
Theorem exp_map_jacobian_translation_exact (t d p : Vec3 R) :
  let p' := iso_transform_point (exp_map (mkV6 t v3_zero)) p in
  let f := fun s => iso_transform_point (exp_map (mkV6 (v3_add t (v3_scale d s)) v3_zero)) p in
  (J <- exp_map_jacobian p' ;; dmatvec J (vec6_list (mkV6 d v3_zero))) = Some (v3_list d) /\
  derivable_pt_lim (fun s => vx (f s)) 0 (vx d) /\
  derivable_pt_lim (fun s => vy (f s)) 0 (vy d) /\
  derivable_pt_lim (fun s => vz (f s)) 0 (vz d).
Proof.
  intros p' f. rewrite exp_map_jacobian_some; cbv beta iota. rewrite exp_map_jacobian_dmatvec. split.
  - f_equal. destruct d as [d1 d2 d3], p' as [q1 q2 q3]. unfold v3_add, v3_cross, v3_zero, v3_list.
    cbn [vx vy vz]. rsimpl. f_equal; [|f_equal; [|f_equal]]; ring.
  - unfold f. destruct p as [p1 p2 p3], t as [t1 t2 t3], d as [d1 d2 d3].
    repeat split; (eapply derivable_pt_lim_ext;
      [intros s; rewrite exp_map_translation_line; unfold v3_add, v3_scale; cbn [vx vy vz];
       rsimpl; reflexivity
      |reflexivity|apply derivable_pt_lim_affine]).
Qed.

(** C17: at a pose [(t, 0)] with zero rotation, the rotation columns of
    [exp_map_jacobian] are not the derivative of the code's [exp_map]:
    along a rotation direction [w] the transformed point
    [exp_map (t, s w) * p] is constant for [|s w| <= 1e-6], so its
    derivative is [0], while [exp_map_jacobian] at the transformed point
    [p'] gives [w x p'] for [(0, w)]. *)
Theorem exp_map_jacobian_rotation_mismatch (t w p : Vec3 R) :
  let p' := iso_transform_point (exp_map (mkV6 t v3_zero)) p in
  let f := fun s => iso_transform_point (exp_map (mkV6 t (v3_scale w s))) p in
  (J <- exp_map_jacobian p' ;; dmatvec J (vec6_list (mkV6 v3_zero w))) =
    Some (v3_list (v3_cross w p')) /\
  derivable_pt_lim (fun s => vx (f s)) 0 0 /\
  derivable_pt_lim (fun s => vy (f s)) 0 0 /\
  derivable_pt_lim (fun s => vz (f s)) 0 0.
Proof.
  intros p' f. rewrite exp_map_jacobian_some; cbv beta iota. rewrite exp_map_jacobian_dmatvec. split.
  - f_equal. destruct w as [w1 w2 w3], p' as [q1 q2 q3]. unfold v3_add, v3_cross, v3_zero, v3_list.
    cbn [vx vy vz]. rsimpl. f_equal; [|f_equal; [|f_equal]]; ring.
  - pose proof lie_eps_R_pos as He. pose proof (v3_norm_nonneg w) as Hw.
    assert (Hflat : forall h, Rabs h < lie_eps / (v3_norm w + 1) -> f h = f 0).
    { intros h Hh. unfold f. rewrite !exp_map_rotation_flat; [reflexivity| |].
      - rewrite Rabs_R0. lra.
      - apply Rlt_le. apply (Rmult_lt_compat_r (v3_norm w + 1)) in Hh; [|lra].
        unfold Rdiv in Hh. rewrite Rmult_assoc, Rinv_l, Rmult_1_r in Hh by lra.
        pose proof (Rabs_pos h). nra. }
    assert (Hd : 0 < lie_eps / (v3_norm w + 1)) by (apply Rdiv_lt_0_compat; lra).
    repeat split; apply (derivable_pt_lim_locally_const _ _ Hd);
      intros h Hh; rewrite (Hflat h Hh); reflexivity.
Qed.

End LieJacobian.
