(* ===== verification/LM.v ===== *)
(** * The generic Levenberg-Marquardt solver (src/src/lm.rs)

    [LMProblem] is the Rust trait: a residual and a Jacobian of a parameter
    vector, each of which may panic ([None]).  [LMShape] is the contract a
    problem offers the solver: on a parameter vector of length [n] both
    methods succeed, with [m] residuals and a well-formed [m x n] Jacobian.

    [lm_body] is one pass of the [while] loop, up to and excluding
    [iteration += 1]; [lm_loop] runs it [max_iter - iteration] times, the
    number of passes the loop condition allows, which makes the loop
    structural without any fuel; [levenberg_marquardt] is the function.
    [lm_step] is the same loop as a state machine on [lm_status] (running
    with [x], [lambda_current] and [iteration]; done with a result;
    panicked), and [lm_loop_star] shows that the machine reaches the
    final state the function computes.  The theorems: the machine always
    reaches a final state, within [max_iter + 1] steps, and its counter
    stays within [max_iter]; on a problem meeting [LMShape] it never
    panics and every reachable state holds a vector of length [n]; the
    residual norm of the returned point never exceeds the initial one (at
    [R]); a singular system or a rejected step keeps [x] and multiplies the
    damping by [gamma]; the tolerance test returns the current point even
    when the candidate is better. *)

From Stdlib Require Import List Arith ZArith Lia Bool Reals Lra PrimFloat.
Import ListNotations.
From S2P Require Import Prelude Scalars DMatrix.

Module LM.

(** The trait [LMProblem]. *)
Class LMProblem (K P : Type) := {
  residual : P -> list K -> option (list K);
  jacobian : P -> list K -> option (DMat K)
}.

(** The shape contract: [n] parameters, [m] residuals. *)
Class LMShape {K P : Type} `{LMProblem K P} (problem : P) (n m : nat) := {
  residual_shape : forall x, length x = n ->
    exists r, residual problem x = Some r /\ length r = m;
  jacobian_shape : forall x, length x = n ->
    exists j, jacobian problem x = Some j /\ dmat_wf j /\ nrows j = m /\ ncols j = n
}.

(** The outcome of one pass: [break], or go on with a new [x] and
    [lambda_current]. *)
Inductive outcome (K : Type) := Break | Continue (x : list K) (lambda : K).
Arguments Break {K}.
Arguments Continue {K} x lambda.

Section Solver.
Context {K P : Type} `{Scalar K} `{LMProblem K P}.
Variables (problem : P) (max_iter : nat) (tol gamma : K).

(** One pass of the loop body, lines 25-58. *)
Definition lm_body (x : list K) (lambda_current : K) : option (outcome K) :=
  fx <- residual problem x ;;
  j <- jacobian problem x ;;
  jtj <- dmul (dtranspose j) j ;;
  jtj_with_lambda <- add_diagonal lambda_current jtj ;;
  b <- dmatvec (dtranspose j) (dvneg fx) ;;
  match lu_solve jtj_with_lambda b with
  | Some dx =>
      new_x <- dvadd x dx ;;
      fx_new <- residual problem new_x ;;
      let fx_norm := dvnorm fx in
      let fx_new_norm := dvnorm fx_new in
      if s_abs (fx_norm ⊖ fx_new_norm) ≺ tol then Some Break
      else if fx_new_norm ≺ fx_norm then Some (Continue new_x (lambda_current ⊘ gamma))
      else Some (Continue x (lambda_current ⊗ gamma))
  | None => Some (Continue x (lambda_current ⊗ gamma))
  end.

(** The loop with [remaining = max_iter - iteration] passes left. *)
Fixpoint lm_loop (remaining : nat) (x : list K) (lambda_current : K) : option (list K) :=
  match remaining with
  | 0 => Some x
  | S r =>
      o <- lm_body x lambda_current ;;
      match o with
      | Break => Some x
      | Continue x' lambda' => lm_loop r x' lambda'
      end
  end.

(** ** The loop as a state machine *)

Record lm_state := mkLMState {
  st_x : list K; st_lambda : K; st_iteration : nat }.

Inductive lm_status := Running (s : lm_state) | Done (x : list K) | Panicked.

Inductive lm_step : lm_status -> lm_status -> Prop :=
| step_continue s x' l' :
    st_iteration s < max_iter ->
    lm_body (st_x s) (st_lambda s) = Some (Continue x' l') ->
    lm_step (Running s) (Running (mkLMState x' l' (S (st_iteration s))))
| step_break s :
    st_iteration s < max_iter ->
    lm_body (st_x s) (st_lambda s) = Some Break ->
    lm_step (Running s) (Done (st_x s))
| step_exhausted s :
    max_iter <= st_iteration s ->
    lm_step (Running s) (Done (st_x s))
| step_panic s :
    st_iteration s < max_iter ->
    lm_body (st_x s) (st_lambda s) = None ->
    lm_step (Running s) Panicked.

Inductive star : lm_status -> lm_status -> Prop :=
| star_refl a : star a a
| star_step a b c : lm_step a b -> star b c -> star a c.

Definition final (st : lm_status) : Prop :=
  match st with Running _ => False | _ => True end.

(** The final state that [lm_loop]'s result stands for. *)
Definition final_of (r : option (list K)) : lm_status :=
  match r with Some x => Done x | None => Panicked end.

Lemma lm_loop_star (i : nat) (x : list K) (l : K) :
  i <= max_iter ->
  star (Running (mkLMState x l i)) (final_of (lm_loop (max_iter - i) x l)).
Proof.
  remember (max_iter - i) as r eqn:Er. revert i x l Er.
  induction r as [|r IH]; intros i x l Er Hi; simpl.
  - eapply star_step; [apply step_exhausted; simpl; lia|apply star_refl].
  - destruct (lm_body x l) as [[|x' l']|] eqn:Eb.
    + eapply star_step; [apply step_break; simpl; [lia|exact Eb]|apply star_refl].
    + eapply star_step; [apply step_continue; simpl; [lia|exact Eb]|].
      apply IH; simpl; lia.
    + eapply star_step; [apply step_panic; simpl; [lia|exact Eb]|apply star_refl].
Qed.

End Solver.

(** [levenberg_marquardt(problem, init_param, max_iter, tol, lambda, gamma)] *)
Definition levenberg_marquardt {K P : Type} `{Scalar K} `{LMProblem K P}
    (problem : P) (init_param : list K) (max_iter : nat) (tol lambda gamma : K)
    : option (list K) :=
  lm_loop problem tol gamma max_iter init_param lambda.

Arguments mkLMState {K} st_x st_lambda st_iteration.
Arguments Running {K} s.
Arguments Done {K} x.
Arguments Panicked {K}.

Section Props.
Context {K P : Type} `{Scalar K} `{LMProblem K P}.
Variables (problem : P) (max_iter : nat) (tol gamma : K).

Local Abbreviation lm_step := (lm_step problem max_iter tol gamma).
Local Abbreviation star := (star problem max_iter tol gamma).
Local Abbreviation lm_body := (lm_body problem tol gamma).

Inductive starN : nat -> lm_status -> lm_status -> Prop :=
| starN_refl a : starN 0 a a
| starN_step n a b c : lm_step a b -> starN n b c -> starN (S n) a c.

(** The two ways a pass can go on: keep [x] and multiply the damping by
    [gamma] (singular system or rejected step), or move to a candidate
    whose residual norm is strictly smaller and divide the damping. *)
Lemma lm_body_continue_cases (x x' : list K) (l l' : K) :
  lm_body x l = Some (Continue x' l') ->
  (x' = x /\ l' = l ⊗ gamma) \/
  (exists fx fx', residual problem x = Some fx /\ residual problem x' = Some fx' /\
                  (dvnorm fx' ≺ dvnorm fx) = true /\ l' = l ⊘ gamma).
Proof.
  unfold LM.lm_body. intros E.
  destruct (residual problem x) as [fx|] eqn:Efx; [|discriminate].
  do 4 opt_destr.
  destruct (lu_solve _ _) as [dx|]; [|injection E as <- <-; auto].
  do 2 opt_destr.
  destruct (s_abs _ ≺ tol); [discriminate|].
  destruct (dvnorm _ ≺ dvnorm fx) eqn:Elt; injection E as <- <-; [|auto].
  right. eauto 6.
Qed.

(** Every step of the machine from a running state that stays running
    advances the iteration counter below [max_iter]. *)
Lemma lm_step_running (s s' : lm_state) :
  lm_step (Running s) (Running s') ->
  st_iteration s' = S (st_iteration s) /\ st_iteration s < max_iter /\
  lm_body (st_x s) (st_lambda s) = Some (Continue (st_x s') (st_lambda s')).
Proof. intros Hs. inv Hs. simpl. auto. Qed.

(** Rule induction over the runs of the machine: an invariant of the
    running states that every continuing pass preserves holds of the
    state a finished run stops in. *)
Lemma star_running_invariant (I : lm_state -> Prop) (s0 : lm_state) (st : lm_status) :
  (forall s x' l', I s -> st_iteration s < max_iter ->
     lm_body (st_x s) (st_lambda s) = Some (Continue x' l') ->
     I (mkLMState x' l' (S (st_iteration s)))) ->
  I s0 -> star (Running s0) st ->
  match st with
  | Running s => I s
  | Done x => exists s, I s /\ st_x s = x
  | Panicked => True
  end.
Proof.
  intros Hpres HI Hst. remember (Running s0) as a eqn:Ea. revert s0 HI Ea.
  induction Hst as [a|a b c Hs Hst IH]; intros s0 HI ->.
  - exact HI.
  - inv Hs.
    + eapply IH; [eapply Hpres; eassumption|reflexivity].
    + inv Hst; [eauto|match goal with Hs' : LM.lm_step _ _ _ _ _ _ |- _ => inv Hs' end].
    + inv Hst; [eauto|match goal with Hs' : LM.lm_step _ _ _ _ _ _ |- _ => inv Hs' end].
    + inv Hst; [trivial|match goal with Hs' : LM.lm_step _ _ _ _ _ _ |- _ => inv Hs' end].
Qed.

Lemma lm_body_shape (n m : nat) `{!LMShape problem n m} (x : list K) (l : K) :
  length x = n ->
  exists o, lm_body x l = Some o /\
    match o with Break => True | Continue x' _ => length x' = n end.
Proof.
  intros Hx. unfold LM.lm_body.
  destruct (residual_shape x Hx) as (fx & -> & Hfx).
  destruct (jacobian_shape x Hx) as (j & -> & Hwf & Hr & Hc).
  destruct (dmul_transpose_self j) as (-> & Hwf2 & Hr2 & Hc2).
  destruct (add_diagonal_some l _ Hwf2 ltac:(lia)) as (A & -> & _ & HrA & _).
  rewrite dmatvec_some by (simpl; unfold dvneg; rewrite length_map; lia).
  destruct (lu_solve A _) as [dx|] eqn:Es; [|eauto].
  apply lu_solve_length in Es.
  destruct (dvadd_some x dx ltac:(lia)) as (x' & -> & Hx').
  assert (Hxn : length x' = n) by lia.
  destruct (residual_shape x' Hxn) as (fx' & -> & _).
  destruct (_ ≺ tol); [eexists; split; [reflexivity|exact I]|].
  destruct (_ ≺ _); eexists; (split; [reflexivity|]); cbn; lia.
Qed.

Lemma lm_loop_no_panic (n m : nat) `{!LMShape problem n m} (r : nat) (x : list K) (l : K) :
  length x = n -> exists x', lm_loop problem tol gamma r x l = Some x' /\ length x' = n.
Proof.
  revert x l; induction r as [|r IH]; intros x l Hx; simpl; [eauto|].
  destruct (lm_body_shape n m x l Hx) as ([|x' l'] & -> & Ho); eauto.
Qed.

(** The statuses a run on a problem of [n] parameters may be in: running
    with an [n]-vector, or done with one; never panicked. *)
Definition shaped (n : nat) (st : lm_status (K:=K)) : Prop :=
  match st with
  | Running s => length (st_x s) = n
  | Done x => length x = n
  | Panicked => False
  end.

Lemma lm_step_shaped (n m : nat) `{!LMShape problem n m} (a b : lm_status) :
  shaped n a -> lm_step a b -> shaped n b.
Proof.
  intros Ha Hs. destruct Hs as [s x' l' _ Hb|s _ _|s _|s _ Hb]; simpl in *; try exact Ha.
  - destruct (lm_body_shape n m _ (st_lambda s) Ha) as (o & Ho & Hlen).
    rewrite Hb in Ho. injection Ho as <-. exact Hlen.
  - destruct (lm_body_shape n m _ (st_lambda s) Ha) as (o & Ho & _). congruence.
Qed.
End Props.

(** ** Theorems *)

(** C1: termination: from any running state the machine reaches a final
    state (a result or a panic) in at most [max_iter - iteration + 1]
    steps; the loop cannot run longer than its iteration cap. *)
Theorem lm_terminates {K P : Type} `{Scalar K} `{LMProblem K P}
    (problem : P) (max_iter : nat) (tol gamma : K) (s : lm_state) :
  exists st k, final st /\ k <= max_iter - st_iteration s + 1 /\
    starN problem max_iter tol gamma k (Running s) st.
Proof.
  remember (max_iter - st_iteration s) as r eqn:Er. revert s Er.
  induction r as [r IH] using lt_wf_ind; intros s Er.
  destruct (Nat.leb_spec max_iter (st_iteration s)) as [Hle|Hlt].
  - exists (Done (st_x s)), 1. repeat split; [lia|].
    econstructor; [apply step_exhausted; exact Hle|constructor].
  - destruct (lm_body problem tol gamma (st_x s) (st_lambda s)) as [[|x' l']|] eqn:Eb.
    + exists (Done (st_x s)), 1. repeat split; [lia|].
      econstructor; [apply step_break; eauto|constructor].
    + destruct (IH (max_iter - S (st_iteration s)) ltac:(lia)
                  (mkLMState x' l' (S (st_iteration s))) eq_refl) as (st & k & Hf & Hk & Hs).
      exists st, (S k). repeat split; [exact Hf|simpl in Hk; lia|].
      econstructor; [apply step_continue; eauto|exact Hs].
    + exists Panicked, 1. repeat split; [lia|].
      econstructor; [apply step_panic; eauto|constructor].
Qed.

(** C22: no panic: on a problem meeting the shape contract [LMShape] with
    [n] parameters, [levenberg_marquardt] started from a vector of length
    [n] returns a vector of length [n]: every matrix product, the damping
    loop, the solve and [&x + &dx] are well shaped. *)
Theorem levenberg_marquardt_no_panic {K P : Type} `{Scalar K} `{LMProblem K P}
    (problem : P) (n m : nat) `{!LMShape problem n m}
    (init_param : list K) (max_iter : nat) (tol lambda gamma : K) :
  length init_param = n ->
  exists x, levenberg_marquardt problem init_param max_iter tol lambda gamma = Some x /\
            length x = n.
Proof. apply (lm_loop_no_panic problem tol gamma n m). Qed.

(** C9: the shape of the state is an invariant of the machine: on a
    problem meeting [LMShape] with [n] parameters, every status reachable
    from a running state holding an [n]-vector is a running state holding
    an [n]-vector or a result of length [n]; no panic is reachable. *)
Theorem lm_reachable_shaped {K P : Type} `{Scalar K} `{LMProblem K P}
    (problem : P) (n m : nat) `{!LMShape problem n m}
    (max_iter : nat) (tol gamma : K) (s : lm_state) (st : lm_status) :
  length (st_x s) = n -> star problem max_iter tol gamma (Running s) st -> shaped n st.
Proof.
  intros Hs Hst. change (shaped n (Running s)) in Hs. revert Hs.
  induction Hst as [a|a b c Hab _ IH]; [auto|].
  intros Ha. apply IH. exact (lm_step_shaped problem max_iter tol gamma n m a b Ha Hab).
Qed.

(** [usize::MAX] on a 64-bit target: the range of [iteration] and
    [max_iter]. *)
Definition usize_max : N := (2 ^ 64 - 1)%N.

(** C10: the iteration counter stays within [max_iter]: in a run started
    at [iteration = 0], every reachable running state has
    [iteration <= max_iter], because [iteration += 1] runs only after the
    guard [iteration < max_iter]; so the increment never overflows
    [usize]. *)
Theorem lm_iteration_bounded {K P : Type} `{Scalar K} `{LMProblem K P}
    (problem : P) (max_iter : nat) (tol gamma : K) (x0 : list K) (l0 : K) (s : lm_state) :
  (N.of_nat max_iter <= usize_max)%N ->
  star problem max_iter tol gamma (Running (mkLMState x0 l0 0)) (Running s) ->
  st_iteration s <= max_iter /\ (N.of_nat (st_iteration s) <= usize_max)%N.
Proof.
  intros Hmax Hs.
  apply (star_running_invariant problem max_iter tol gamma (fun s => st_iteration s <= max_iter))
    in Hs; [|intros s0 x' l' _ Hlt _; simpl; lia|simpl; lia].
  split; [exact Hs|lia].
Qed.

(** C2: the residual norm of the point [levenberg_marquardt] returns never
    exceeds that of the initial point: a step is taken only when it
    strictly decreases the norm (at [R]). *)
Theorem levenberg_marquardt_residual_nonincreasing {P : Type} `{LMProblem R P}
    (problem : P) (init_param : list R) (max_iter : nat) (tol lambda gamma : R)
    (x : list R) (r0 : list R) :
  levenberg_marquardt problem init_param max_iter tol lambda gamma = Some x ->
  residual problem init_param = Some r0 ->
  exists r, residual problem x = Some r /\ (dvnorm r <= dvnorm r0)%R.
Proof.
  intros Hlm Hr0.
  pose proof (lm_loop_star problem max_iter tol gamma 0 init_param lambda ltac:(lia)) as Hs.
  rewrite Nat.sub_0_r in Hs. unfold levenberg_marquardt in Hlm. rewrite Hlm in Hs.
  apply (star_running_invariant problem max_iter tol gamma
           (fun s => exists r, residual problem (st_x s) = Some r /\ (dvnorm r <= dvnorm r0)%R))
    in Hs.
  - destruct Hs as (s & (r & Hr & Hle) & <-). eauto.
  - intros s x' l' (r & Hr & Hle) _ Hb. cbn [st_x].
    destruct (lm_body_continue_cases problem tol gamma _ _ _ _ Hb)
      as [[-> _]|(fx & fx' & Hfx & Hfx' & Hlt & _)]; [eauto|].
    rewrite Hr in Hfx. injection Hfx as <-. rsimpl. apply Rltb_true in Hlt.
    exists fx'. split; [exact Hfx'|lra].
  - simpl. exists r0. split; [exact Hr0|lra].
Qed.

(** C21: a step of the machine that keeps running either keeps [x] and
    multiplies the damping by [gamma] (singular system or rejected step),
    or moves to a point with a strictly smaller residual norm and divides
    the damping by [gamma]; in both cases it counts one iteration. *)
Theorem lm_step_cases {K P : Type} `{Scalar K} `{LMProblem K P}
    (problem : P) (max_iter : nat) (tol gamma : K) (s s' : lm_state) :
  lm_step problem max_iter tol gamma (Running s) (Running s') ->
  st_iteration s' = S (st_iteration s) /\
  ((st_x s' = st_x s /\ st_lambda s' = st_lambda s ⊗ gamma) \/
   (exists fx fx', residual problem (st_x s) = Some fx /\
      residual problem (st_x s') = Some fx' /\ (dvnorm fx' ≺ dvnorm fx) = true /\
      st_lambda s' = st_lambda s ⊘ gamma)).
Proof.
  intros Hs. apply lm_step_running in Hs as (Hi & _ & Hb).
  split; [exact Hi|]. exact (lm_body_continue_cases problem tol gamma _ _ _ _ Hb).
Qed.

(** C23: a singular damped system (the [None] of the solve) is recovered
    locally: the pass keeps [x] and multiplies the damping by [gamma]; no
    error is surfaced. *)
Theorem lm_body_singular {K P : Type} `{Scalar K} `{LMProblem K P}
    (problem : P) (tol gamma : K) (x : list K) (l : K) (fx b : list K) (j A : DMat K) :
  residual problem x = Some fx -> jacobian problem x = Some j ->
  add_diagonal l (dmul_raw (dtranspose j) j) = Some A ->
  dmatvec (dtranspose j) (dvneg fx) = Some b -> lu_solve A b = None ->
  lm_body problem tol gamma x l = Some (Continue x (l ⊗ gamma)).
Proof.
  intros Hfx Hj HA Hb Hs. unfold lm_body. rewrite Hfx, Hj.
  rewrite (proj1 (dmul_transpose_self j)), HA, Hb, Hs. reflexivity.
Qed.

(** ** Test problems and witnesses *)

(** A problem given by a residual and a Jacobian function (the closures of
    the quadratic-fit test of lm.rs). *)
Record FnProblem (K : Type) := mkFnProblem {
  fp_residual : list K -> list K;
  fp_jacobian : list K -> DMat K }.
Arguments mkFnProblem {K} fp_residual fp_jacobian.
Arguments fp_residual {K} _ _.
Arguments fp_jacobian {K} _ _.

#[export] Instance fn_problem_lm {K : Type} : LMProblem K (FnProblem K) := {
  residual p x := Some (fp_residual p x);
  jacobian p x := Some (fp_jacobian p x) }.

Section QuadFit.
Context {K : Type} `{Scalar K}.

(** The data of spec testable property 6: [y = x^2 + x + 1] at
    [x = 1 .. 5]. *)
Definition quad_data : list (K * K) :=
  map (fun xy => (s_of_Z (fst xy), s_of_Z (snd xy)))
      [(1, 3); (2, 7); (3, 13); (4, 21); (5, 31)]%Z.

Definition quad_fit : FnProblem K :=
  mkFnProblem
    (fun p => let a := nth 0 p s_zero in let b := nth 1 p s_zero in
              let c := nth 2 p s_zero in
              map (fun xy => a ⊗ fst xy ⊗ fst xy ⊕ b ⊗ fst xy ⊕ c ⊖ snd xy) quad_data)
    (fun _ => mkDMat 5 3 (map (fun xy => [fst xy ⊗ fst xy; fst xy; s_one]) quad_data)).

#[export] Instance quad_fit_shape : LMShape quad_fit 3 5.
Proof.
  split; intros x _; eexists; (split; [reflexivity|]); [reflexivity|].
  split; [|split; reflexivity]. split; [reflexivity|]. repeat constructor.
Qed.

(** The Gauss-Newton candidate [x + dx] a pass evaluates. *)
Definition gn_candidate {P} `{LMProblem K P} (problem : P) (x : list K) (l : K)
  : option (list K) :=
  fx <- residual problem x ;; j <- jacobian problem x ;;
  jtj <- dmul (dtranspose j) j ;; a <- add_diagonal l jtj ;;
  b <- dmatvec (dtranspose j) (dvneg fx) ;; dx <- lu_solve a b ;; dvadd x dx.

End QuadFit.

Definition tol_1e8 : float := (1 / 100000000)%float.
Definition lambda_1e3 : float := (1 / 1000)%float.

(** C19: the tolerance test stops the solver on the current point: when
    the pass's Gauss-Newton candidate [x + dx] has a residual norm within
    [tol] of the current one, the pass breaks before comparing the two
    norms, so [levenberg_marquardt] returns [x] itself, even when the
    candidate's residual is smaller (spec 4.1, step 4). *)
Theorem lm_tolerance_keeps_current {K P : Type} `{Scalar K} `{LMProblem K P}
    (problem : P) (tol gamma l : K) (x c fx fc : list K) (max_iter : nat) :
  residual problem x = Some fx -> gn_candidate problem x l = Some c ->
  residual problem c = Some fc -> (s_abs (dvnorm fx ⊖ dvnorm fc) ≺ tol) = true ->
  lm_body problem tol gamma x l = Some Break /\
  levenberg_marquardt problem x (S max_iter) tol l gamma = Some x.
Proof.
  intros Hfx Hc Hfc Htol.
  assert (Hb : lm_body problem tol gamma x l = Some Break).
  { unfold gn_candidate in Hc. unfold lm_body. rewrite Hfx in Hc |- *.
    destruct (jacobian problem x) as [j|]; [|discriminate].
    destruct (dmul (dtranspose j) j) as [jtj|]; [|discriminate].
    destruct (add_diagonal l jtj) as [a|]; [|discriminate].
    destruct (dmatvec (dtranspose j) (dvneg fx)) as [b|]; [|discriminate].
    destruct (lu_solve a b) as [dx|]; [|discriminate].
    destruct (dvadd x dx) as [c'|]; [|discriminate]. injection Hc as ->.
    rewrite Hfc. cbv zeta. now rewrite Htol. }
  split; [exact Hb|]. unfold levenberg_marquardt. cbn [lm_loop]. now rewrite Hb.
Qed.

Section LineProblem.
Local Open Scope R_scope.

(** The residual [f(x) = x] of one parameter, with Jacobian [[1]]. *)
Definition line_problem : FnProblem R := mkFnProblem (fun x => x) (fun _ => mkDMat 1 1 [[1]]).

#[export] Instance line_shape : LMShape line_problem 1 1.
Proof.
  split; intros x Hx; cbn [residual jacobian fn_problem_lm fp_residual fp_jacobian line_problem].
  - eexists; split; [reflexivity|exact Hx].
  - eexists; split; [reflexivity|]. split; [|split; reflexivity].
    split; [reflexivity|]. repeat constructor.
Qed.

(** One pass from [x = 1] with [lambda = 1], [gamma = 2], [tol = 0]:
    [dx = -1/2] is accepted and the damping halves. *)
Lemma line_problem_pass : lm_body line_problem 0 2 [1] 1 = Some (Continue [1 / 2] (1 / 2)).
Proof.
  unfold lm_body.
  cbv -[Rplus Rmult Ropp Rinv Rabs R_sqrt.sqrt Rltb Ris_zero IZR Rdiv Rminus].
  assert (E1 : Rltb (- (1)) (Rabs (0 + 1 * 1 + 1)) = true)
    by (apply Rltb_true; pose proof (Rabs_pos (0 + 1 * 1 + 1)); lra).
  assert (E2 : Ris_zero (0 + 1 * 1 + 1) = false)
    by (destruct (Ris_zero_spec (0 + 1 * 1 + 1)); [lra|reflexivity]).
  rewrite E1, E2.
  cbv -[Rplus Rmult Ropp Rinv Rabs R_sqrt.sqrt Rltb Ris_zero IZR Rdiv Rminus].
  assert (Hd : (0 + 1 * - (1) - 0) / (0 + 1 * 1 + 1) = - (1 / 2)) by field.
  rewrite Hd, (proj2 (Rltb_false _ _) (Rabs_pos _)).
  rewrite (proj2 (Rltb_true _ _)); [do 3 f_equal; field|].
  apply sqrt_lt_1_alt. split; nra.
Qed.
End LineProblem.

(** The witnesses of the theorems with hypotheses. *)

Lemma levenberg_marquardt_no_panic_witness :
  length [200; 2; 3]%float = 3 /\
  exists x, levenberg_marquardt quad_fit [200; 2; 3]%float 100 tol_1e8 lambda_1e3 10%float
            = Some x /\ length x = 3.
Proof.
  split; [reflexivity|]. apply (levenberg_marquardt_no_panic quad_fit 3 5). reflexivity.
Defined.

Lemma lm_tolerance_keeps_current_witness :
  let xf := [1.0000000006486727; 0.99999999581504573; 1.0000000055755527]%float in
  let l3 := (lambda_1e3 / 10 / 10 / 10)%float in
  let c := [1.0000000000000044; 0.99999999999997102; 1.0000000000000391]%float in
  residual quad_fit xf = Some (fp_residual quad_fit xf) /\
  gn_candidate quad_fit xf l3 = Some c /\
  residual quad_fit c = Some (fp_residual quad_fit c) /\
  (s_abs (dvnorm (fp_residual quad_fit xf) ⊖ dvnorm (fp_residual quad_fit c)) ≺ tol_1e8) = true /\
  lm_body quad_fit tol_1e8 10%float xf l3 = Some Break /\
  levenberg_marquardt quad_fit xf 1 tol_1e8 l3 10%float = Some xf.
Proof.
  intros xf l3 c.
  assert (H1 : residual quad_fit xf = Some (fp_residual quad_fit xf)) by reflexivity.
  assert (H2 : gn_candidate quad_fit xf l3 = Some c) by (vm_compute; reflexivity).
  assert (H3 : residual quad_fit c = Some (fp_residual quad_fit c)) by reflexivity.
  assert (H4 : (s_abs (dvnorm (fp_residual quad_fit xf) ⊖ dvnorm (fp_residual quad_fit c))
                  ≺ tol_1e8) = true) by (vm_compute; reflexivity).
  split; [exact H1|]. split; [exact H2|]. split; [exact H3|]. split; [exact H4|].
  exact (lm_tolerance_keeps_current quad_fit tol_1e8 10%float l3 xf c _ _ 0 H1 H2 H3 H4).
Defined.

Lemma lm_reachable_shaped_witness :
  let s0 := mkLMState [200; 2; 3]%float lambda_1e3 0 in
  let xf := [1.0000000006486727; 0.99999999581504573; 1.0000000055755527]%float in
  length (st_x s0) = 3 /\ star quad_fit 100 tol_1e8 10%float (Running s0) (Done xf) /\
  shaped 3 (Done xf).
Proof.
  intros s0 xf.
  assert (Hst : star quad_fit 100 tol_1e8 10%float (Running s0) (Done xf)).
  { pose proof (lm_loop_star quad_fit 100 tol_1e8 10%float 0 [200; 2; 3]%float lambda_1e3
                  ltac:(lia)) as Hs.
    replace (final_of _) with (@Done float xf) in Hs by (vm_compute; reflexivity). exact Hs. }
  split; [reflexivity|]. split; [exact Hst|].
  exact (lm_reachable_shaped quad_fit 3 5 100 tol_1e8 10%float s0 _ eq_refl Hst).
Defined.

Lemma levenberg_marquardt_residual_nonincreasing_witness :
  levenberg_marquardt line_problem [1%R] 1 0%R 1%R 2%R = Some [(1 / 2)%R] /\
  residual line_problem [1%R] = Some [1%R] /\
  exists r, residual line_problem [(1 / 2)%R] = Some r /\ (dvnorm r <= dvnorm [1%R])%R.
Proof.
  assert (Hlm : levenberg_marquardt line_problem [1%R] 1 0%R 1%R 2%R = Some [(1 / 2)%R]).
  { unfold levenberg_marquardt. cbn [lm_loop]. rewrite line_problem_pass. reflexivity. }
  assert (Hr : residual line_problem [1%R] = Some [1%R]) by reflexivity.
  split; [exact Hlm|]. split; [exact Hr|].
  exact (levenberg_marquardt_residual_nonincreasing line_problem [1%R] 1 0%R 1%R 2%R
           [(1 / 2)%R] [1%R] Hlm Hr).
Defined.

(** One pass of the machine on [line_problem]. *)
Lemma line_problem_star_one :
  star line_problem 1 0%R 2%R (Running (mkLMState [1%R] 1%R 0))
       (Running (mkLMState [(1 / 2)%R] (1 / 2)%R 1)).
Proof.
  eapply star_step; [|apply star_refl].
  apply (step_continue line_problem 1 0%R 2%R (mkLMState [1%R] 1%R 0)); [cbn; lia|].
  exact line_problem_pass.
Qed.

Lemma lm_iteration_bounded_witness :
  (N.of_nat 1 <= usize_max)%N /\
  star line_problem 1 0%R 2%R (Running (mkLMState [1%R] 1%R 0))
       (Running (mkLMState [(1 / 2)%R] (1 / 2)%R 1)) /\
  st_iteration (mkLMState [(1 / 2)%R] (1 / 2)%R 1) <= 1 /\
  (N.of_nat (st_iteration (mkLMState [(1 / 2)%R] (1 / 2)%R 1)) <= usize_max)%N.
Proof.
  assert (Hm : (N.of_nat 1 <= usize_max)%N) by (unfold usize_max; lia).
  split; [exact Hm|]. split; [exact line_problem_star_one|].
  exact (lm_iteration_bounded line_problem 1 0%R 2%R [1%R] 1%R _ Hm line_problem_star_one).
Defined.

Lemma lm_step_cases_witness :
  let s0 := mkLMState [200; 2; 3]%float lambda_1e3 0 in
  let s1 := mkLMState [1.0146943726502684; 0.91137401237931748; 1.1046189399210051]%float
                      (lambda_1e3 / 10)%float 1 in
  lm_step quad_fit 100 tol_1e8 10%float (Running s0) (Running s1) /\
  st_iteration s1 = S (st_iteration s0) /\
  ((st_x s1 = st_x s0 /\ st_lambda s1 = st_lambda s0 ⊗ 10%float) \/
   (exists fx fx', residual quad_fit (st_x s0) = Some fx /\
      residual quad_fit (st_x s1) = Some fx' /\ (dvnorm fx' ≺ dvnorm fx) = true /\
      st_lambda s1 = st_lambda s0 ⊘ 10%float)).
Proof.
  assert (Hs : lm_step quad_fit 100 tol_1e8 10%float
            (Running (mkLMState [200; 2; 3]%float lambda_1e3 0))
            (Running (mkLMState [1.0146943726502684; 0.91137401237931748;
                                 1.1046189399210051]%float (lambda_1e3 / 10)%float 1))).
  { apply (step_continue quad_fit 100 tol_1e8 10%float (mkLMState [200; 2; 3]%float lambda_1e3 0));
      [simpl; lia|vm_compute; reflexivity]. }
  split; [exact Hs|]. exact (lm_step_cases quad_fit 100 tol_1e8 10%float _ _ Hs).
Defined.

(** A problem whose Jacobian is zero: with no damping the system is
    singular. *)
Definition flat_problem : FnProblem float :=
  mkFnProblem (fun x => x) (fun _ => mkDMat 1 1 [[0%float]]).

Lemma lm_body_singular_witness :
  residual flat_problem [1%float] = Some [1%float] /\
  lm_body flat_problem tol_1e8 10%float [1%float] 0%float
  = Some (Continue [1%float] (0 ⊗ 10)%float).
Proof.
  split; [reflexivity|].
  apply (lm_body_singular flat_problem tol_1e8 10%float [1%float] 0%float [1%float]
           [(0 * - 1 + 0)%float] (mkDMat 1 1 [[0%float]])
           (mkDMat 1 1 [[(0 + 0 * 0 + 0)%float]])); vm_compute; reflexivity.
Defined.

End LM.
