(* ===== verification/LMStep.v ===== *)
(** * The step the solver takes (src/src/lm.rs, lines 28-50)

    Over [R], on a problem meeting the shape contract [LMShape], a pass of
    [lm_body] that moves [x] took the [Some dx] branch of
    [jtj_with_lambda.lu().solve(..)] and accepted [x + dx]:
    - [dx] solves the damped normal equations
      [(J^T J + lambda I) dx = -J^T f(x)] ([lm_accepted_step_normal_equations],
      by the soundness of the solve in [LinAlg]);
    - with [lambda > 0], [dx] is a descent direction of [|f|^2 / 2]: its
      slope along [dx] is [J^T f . dx = -(|J dx|^2 + lambda |dx|^2) < 0]
      ([lm_accepted_step_descent]).

    The witness runs one pass of [lm_body] over [R] on the residual
    [f(x) = x], evaluating the program symbolically and deciding its
    comparisons. *)

From Stdlib Require Import List Arith Lia Reals Lra.
Import ListNotations.
From S2P Require Import Prelude Scalars DMatrix LinAlg LM.

Module LMStep.
Import LM.

(** The pass that moves [x] took the [Some dx] branch of the solve and
    accepted the candidate [x + dx]. *)
Lemma lm_body_moved {K P : Type} `{Scalar K} `{LMProblem K P}
    (problem : P) (tol gamma : K) (x x' : list K) (l l' : K) :
  lm_body problem tol gamma x l = Some (Continue x' l') -> x' <> x ->
  exists fx j A b dx, residual problem x = Some fx /\ jacobian problem x = Some j /\
    add_diagonal l (dmul_raw (dtranspose j) j) = Some A /\
    dmatvec (dtranspose j) (dvneg fx) = Some b /\
    lu_solve A b = Some dx /\ dvadd x dx = Some x'.
Proof.
  intros Hb Hne. unfold lm_body in Hb.
  destruct (residual problem x) as [fx|]; [|discriminate].
  destruct (jacobian problem x) as [j|]; [|discriminate].
  rewrite (proj1 (dmul_transpose_self j)) in Hb.
  destruct (add_diagonal l _) as [A|] eqn:EA; [|discriminate].
  destruct (dmatvec _ (dvneg fx)) as [b|] eqn:Eb; [|discriminate].
  destruct (lu_solve A b) as [dx|] eqn:Es; [|injection Hb as <- _; congruence].
  destruct (dvadd x dx) as [nx|] eqn:Ex; [|discriminate].
  destruct (residual problem nx) as [fx'|]; [|discriminate].
  destruct (_ ≺ tol); [discriminate|].
  destruct (_ ≺ _); injection Hb as <- _; [|congruence].
  exists fx, j, A, b, dx. auto 7.
Qed.

Local Open Scope R_scope.

(** A move [x + dx <> x] has a nonzero coordinate in [dx]. *)
Lemma dvadd_moved (x dx x' : list R) :
  dvadd x dx = Some x' -> x' <> x -> exists k, nth k dx 0 <> 0.
Proof.
  unfold dvadd. destruct (Nat.eqb_spec (length x) (length dx)) as [Hl|]; [|discriminate].
  intros E Hne. injection E as <-. revert dx Hl Hne.
  induction x as [|a x IH]; intros [|d dx] Hl Hne; cbn [length combine map fst snd] in *;
    try discriminate; [congruence|].
  destruct (Req_dec_T d 0) as [->|Hd]; [|now exists 0%nat].
  destruct (IH dx ltac:(lia)) as [k Hk].
  - intros Heq. apply Hne. rewrite Heq, Rplus_0_r. reflexivity.
  - now exists (S k).
Qed.

Section Step.
Context {P : Type} `{LMProblem R P} (problem : P) (n m : nat) `{!LMShape problem n m}.

(** The accepted candidate is [x + dx] with [dx] a solution of the damped
    normal equations [(J^T J + lambda I) dx = -J^T f]. *)
Lemma lm_body_moved_solves (tol gamma : R) (x x' : list R) (l l' : R) :
  length x = n -> lm_body problem tol gamma x l = Some (Continue x' l') -> x' <> x ->
  exists fx J A b dx, residual problem x = Some fx /\ jacobian problem x = Some J /\
    dmat_wf J /\ nrows J = m /\ ncols J = n /\ length fx = m /\ length dx = n /\
    add_diagonal l (dmul_raw (dtranspose J) J) = Some A /\
    dmatvec (dtranspose J) (dvneg fx) = Some b /\
    dmatvec A dx = Some b /\ dvadd x dx = Some x'.
Proof.
  intros Hx Hb Hne.
  destruct (lm_body_moved problem tol gamma x x' l l' Hb Hne)
    as (fx & J & A & b & dx & Hfx & HJ & HA & Hbb & Hs & Hadd).
  destruct (residual_shape x Hx) as (fx' & Hfx' & Hfl). rewrite Hfx in Hfx'. injection Hfx' as <-.
  destruct (jacobian_shape x Hx) as (J' & HJ' & HJwf & HJr & HJc).
  rewrite HJ in HJ'. injection HJ' as <-.
  destruct (dmul_transpose_self J) as (_ & HGwf & HGr & HGc).
  destruct (add_diagonal_some l _ HGwf ltac:(lia)) as (A' & EA & HAwf & HAr & HAc).
  rewrite HA in EA. injection EA as <-.
  assert (Hbl : length b = nrows A).
  { rewrite (dmatvec_length _ _ _ Hbb), dtranspose_rows_length. lia. }
  assert (Hdx : length dx = n) by (rewrite (lu_solve_length _ _ _ Hs); lia).
  assert (Hsol : dmatvec A dx = Some b) by (apply lu_solve_sound; auto; lia).
  exists fx, J, A, b, dx. do 10 (split; [assumption|]). assumption.
Qed.
End Step.

(** ** Theorems *)

(** C3: an accepted step solves the damped normal equations: when a pass
    of [lm_body] from [x] (of the problem's length [n]) continues with
    [x' <> x], then [x' = x + dx] where [dx] satisfies
    [(J^T J + lambda I) dx = -J^T f(x)], with [J] and [f(x)] the Jacobian
    and residual at [x]. *)
Theorem lm_accepted_step_normal_equations {P : Type} `{LMProblem R P}
    (problem : P) (n m : nat) `{!LMShape problem n m}
    (tol gamma : R) (x x' : list R) (l l' : R) :
  length x = n -> lm_body problem tol gamma x l = Some (Continue x' l') -> x' <> x ->
  exists fx J A b dx, residual problem x = Some fx /\ jacobian problem x = Some J /\
    add_diagonal l (dmul_raw (dtranspose J) J) = Some A /\
    dmatvec (dtranspose J) (dvneg fx) = Some b /\
    dmatvec A dx = Some b /\ dvadd x dx = Some x'.
Proof.
  intros Hx Hb Hne.
  destruct (lm_body_moved_solves problem n m tol gamma x x' l l' Hx Hb Hne)
    as (fx & J & A & b & dx & Hfx & HJ & _ & _ & _ & _ & _ & HA & Hbb & Hs & Hadd).
  exists fx, J, A, b, dx. repeat split; assumption.
Qed.

(** C4: an accepted step goes downhill: with a positive damping, the step
    [dx] of a pass that moves [x] has a negative slope
    [J^T f(x) . dx < 0] for [|f|^2 / 2], whose gradient is [J^T f(x)]. *)
Theorem lm_accepted_step_descent {P : Type} `{LMProblem R P}
    (problem : P) (n m : nat) `{!LMShape problem n m}
    (tol gamma : R) (x x' : list R) (l l' : R) :
  length x = n -> 0 < l ->
  lm_body problem tol gamma x l = Some (Continue x' l') -> x' <> x ->
  exists fx J g dx, residual problem x = Some fx /\ jacobian problem x = Some J /\
    dmatvec (dtranspose J) fx = Some g /\ dvadd x dx = Some x' /\ dot g dx < 0.
Proof.
  intros Hx Hl Hb Hne.
  destruct (lm_body_moved_solves problem n m tol gamma x x' l l' Hx Hb Hne)
    as (fx & J & A & b & dx & Hfx & HJ & HJwf & HJr & HJc & Hfl & Hdl & HA & Hbb & Hs & Hadd).
  destruct (dvadd_moved x dx x' Hadd Hne) as [k Hk].
  assert (Hg : dmatvec (dtranspose J) fx = Some (map (fun r => dot r fx) (rows (dtranspose J))))
    by (apply dmatvec_some; cbn; lia).
  exists fx, J, (map (fun r => dot r fx) (rows (dtranspose J))), dx.
  do 4 (split; [assumption|]).
  apply (damped_step_descent J A l fx b dx _ k HJwf ltac:(lia) ltac:(lia) Hl HA Hbb Hs Hg Hk).
Qed.

(** ** Witnesses *)

Lemma lm_accepted_step_normal_equations_witness :
  length [1] = 1%nat /\ lm_body line_problem 0 2 [1] 1 = Some (Continue [1 / 2] (1 / 2)) /\
  [1 / 2] <> [1] /\
  exists fx J A b dx, residual line_problem [1] = Some fx /\ jacobian line_problem [1] = Some J /\
    add_diagonal 1 (dmul_raw (dtranspose J) J) = Some A /\
    dmatvec (dtranspose J) (dvneg fx) = Some b /\
    dmatvec A dx = Some b /\ dvadd [1] dx = Some [1 / 2].
Proof.
  assert (Hne : [1 / 2] <> [1]) by (intros E; injection E; lra).
  split; [reflexivity|]. split; [exact line_problem_pass|]. split; [exact Hne|].
  exact (lm_accepted_step_normal_equations line_problem 1 1 0 2 [1] [1 / 2] 1 (1 / 2)
           eq_refl line_problem_pass Hne).
Defined.

Lemma lm_accepted_step_descent_witness :
  length [1] = 1%nat /\ 0 < 1 /\
  lm_body line_problem 0 2 [1] 1 = Some (Continue [1 / 2] (1 / 2)) /\ [1 / 2] <> [1] /\
  exists fx J g dx, residual line_problem [1] = Some fx /\ jacobian line_problem [1] = Some J /\
    dmatvec (dtranspose J) fx = Some g /\ dvadd [1] dx = Some [1 / 2] /\ dot g dx < 0.
Proof.
  assert (Hne : [1 / 2] <> [1]) by (intros E; injection E; lra).
  assert (Hl : 0 < 1) by lra.
  split; [reflexivity|]. split; [exact Hl|]. split; [exact line_problem_pass|].
  split; [exact Hne|].
  exact (lm_accepted_step_descent line_problem 1 1 0 2 [1] [1 / 2] 1 (1 / 2)
           eq_refl Hl line_problem_pass Hne).
Defined.

End LMStep.
