(* ===== verification/LMFloat.v ===== *)
(** * The damping in binary64 (src/src/lm.rs, lines 48-57)

    [lambda_current] is divided by [gamma] on every accepted step and
    multiplied by it on every rejected or singular one, with no clamp
    (spec, section 4.1).  In binary64, with the [gamma = 10] of the tests:
    - zero is absorbing: [0 * 10 = 0 / 10 = 0], so once [lambda_current]
      has underflowed to [0] it stays [0] in every later state of the
      loop ([lm_damping_zero_absorbing]), and a singular [J^T J] is then
      never damped again;
    - from [1e-3], 321 divisions reach [0] and 312 multiplications reach
      [+inf]; a huge damping makes the step vanish, the tolerance test
      fires, and the solver stops where it is: on the quadratic fit, a
      pass from the initial guess [(200, 2, 3)] with [lambda = 1e308] or
      [+inf] breaks ([lm_damping_extremes]). *)

From Stdlib Require Import List Arith Lia PrimFloat.
Import ListNotations.
From S2P Require Import Prelude Scalars DMatrix LM.

Module LMFloat.
Import LM.

(** [k] accepted ([lambda /= gamma]) or rejected ([lambda *= gamma])
    passes in a row, as the loop computes them. *)
Definition damping_after_accepts (k : nat) (gamma lambda : float) : float :=
  Nat.iter k (fun l => l ⊘ gamma) lambda.
Definition damping_after_rejects (k : nat) (gamma lambda : float) : float :=
  Nat.iter k (fun l => l ⊗ gamma) lambda.

(** ** Theorems *)

(** C20: in binary64 with [gamma = 10], a zero damping stays zero: from a
    running state with [lambda_current = 0], every running state the loop
    reaches has [lambda_current = 0], whatever the problem. *)
Theorem lm_damping_zero_absorbing {P : Type} `{LMProblem float P}
    (problem : P) (max_iter : nat) (tol : float) (s s' : lm_state) :
  st_lambda s = 0%float ->
  star problem max_iter tol 10%float (Running s) (Running s') ->
  st_lambda s' = 0%float.
Proof.
  intros H0 Hs.
  apply (star_running_invariant problem max_iter tol 10%float (fun s => st_lambda s = 0%float))
    in Hs; [exact Hs| |exact H0].
  intros s0 x' l' Hl _ Hb. cbn [st_lambda].
  destruct (lm_body_continue_cases problem tol 10%float _ _ _ _ Hb)
    as [[_ ->]|(_ & _ & _ & _ & _ & ->)]; rewrite Hl; reflexivity.
Qed.

(** The ends of binary64 on the quadratic fit (the evidence of the
    finding on the damping schedule): from [1e-3] with
    [gamma = 10], 321 accepted passes make it exactly [0] and 312 rejected
    passes make it [+inf]; and on the quadratic fit a pass from
    [(200, 2, 3)] with a damping of [1e308] or [+inf] breaks, so the solver
    returns its initial guess. *)
Example lm_damping_extremes :
  damping_after_accepts 321 10 lambda_1e3 = 0%float /\
  damping_after_accepts 320 10 lambda_1e3 <> 0%float /\
  is_infinity (damping_after_rejects 312 10 lambda_1e3) = true /\
  is_infinity (damping_after_rejects 311 10 lambda_1e3) = false /\
  lm_body quad_fit tol_1e8 10%float [200; 2; 3]%float (damping_after_rejects 311 10 lambda_1e3)
    = Some Break /\
  lm_body quad_fit tol_1e8 10%float [200; 2; 3]%float infinity = Some Break.
Proof.
  split; [vm_compute; reflexivity|]. split; [vm_compute; discriminate|].
  vm_compute. repeat split.
Qed.

(** ** Witnesses *)

Lemma lm_damping_zero_absorbing_witness :
  st_lambda (mkLMState [1%float] 0%float 0) = 0%float /\
  star flat_problem 5 tol_1e8 10%float (Running (mkLMState [1%float] 0%float 0))
       (Running (mkLMState [1%float] 0%float 1)) /\
  st_lambda (mkLMState [1%float] 0%float 1) = 0%float.
Proof.
  assert (H0 : st_lambda (mkLMState [1%float] 0%float 0) = 0%float) by reflexivity.
  assert (Hs : star flat_problem 5 tol_1e8 10%float (Running (mkLMState [1%float] 0%float 0))
                 (Running (mkLMState [1%float] 0%float 1))).
  { eapply star_step; [|apply star_refl].
    apply (step_continue flat_problem 5 tol_1e8 10%float (mkLMState [1%float] 0%float 0));
      [cbn; lia|vm_compute; reflexivity]. }
  split; [exact H0|]. split; [exact Hs|].
  exact (lm_damping_zero_absorbing flat_problem 5 tol_1e8 _ _ H0 Hs).
Defined.

End LMFloat.
