(* ===== verification/Calibration.v ===== *)
(** * The calibration problem (src/src/optimize.rs, lines 150-268)

    [Calibration] holds the target points [model_pts] (camera-model frame)
    and one observed point list per image [image_pts_set].
    [decode_params] reads the camera model from [param[0..4]] and pose [i]
    from [param[4+6i .. 4+6i+6]] through [exp_map]; a view that does not
    fit panics.  [residual] and [jacobian] are the two nested loops of the
    [LMProblem] impl, with their running state [(vector, residual_idx)]
    threaded explicitly: [residual_points]/[residual_images] and
    [jacobian_points]/[jacobian_images] are the inner and outer loops.
    Rust's [zip] is [combine] (it stops at the shorter list) and
    [enumerate] pairs with [seq].

    The theorems: the decode layout and its panic condition; the shapes of
    the residual and Jacobian and the fact that neither panics on a long
    enough parameter vector, whatever the observations (so that the solver
    never panics on a calibration problem); every entry of the Jacobian
    (the intrinsic block, the pose block of the row's image by the chain
    rule, zero elsewhere); every entry of the residual, including on
    mismatched input, where a short observation list shifts the residual
    rows of every later image away from the Jacobian rows that describe
    them. *)

From Stdlib Require Import List Arith Lia Bool Reals.
Import ListNotations.
From S2P Require Import Prelude Scalars DMatrix Fixed Lie Camera LM.
Import Lie Camera LM.

Module Calibration.
Section Defs.
Context {K : Type} `{Scalar K} `{Trig K}.

Record Calibration := mkCalibration {
  model_pts : list (Vec3 K);
  image_pts_set : list (list (Pt2 K)) }.

(** [decode_params(param)] *)
Definition decode_params (c : Calibration) (param : list K)
  : option (Vec4 K * list (Iso3 K)) :=
  camera_model <- slice 0 4 param ;;
  transforms <- opt_all
    (map (fun i => lie_alg_transform <- slice (4 + 6 * i) 6 param ;;
                   Some (exp_map (vec6_of_list lie_alg_transform)))
         (seq 0 (length (image_pts_set c)))) ;;
  Some (vec4_of_list camera_model, transforms).

(** The inner loop of [residual]: one image, its observations zipped
    with the target points. *)
Fixpoint residual_points (camera_model : Vec4 K) (transform : Iso3 K)
    (pairs : list (Pt2 K * Vec3 K)) (res : list K) (residual_idx : nat)
    : option (list K * nat) :=
  match pairs with
  | [] => Some (res, residual_idx)
  | (observed_image_pt, target_pt) :: rest =>
      let transformed_point := iso_transform_point transform target_pt in
      let projected_pt := project camera_model transformed_point in
      let individual_residual := pt2_sub projected_pt observed_image_pt in
      res' <- dvcopy residual_idx (pt2_list individual_residual) res ;;
      residual_points camera_model transform rest res' (residual_idx + 2)
  end.

(** The outer loop of [residual]: images zipped with their poses. *)
Fixpoint residual_images (camera_model : Vec4 K) (model : list (Vec3 K))
    (images : list (list (Pt2 K) * Iso3 K)) (res : list K) (residual_idx : nat)
    : option (list K * nat) :=
  match images with
  | [] => Some (res, residual_idx)
  | (image_pts, transform) :: rest =>
      '(res', idx') <- residual_points camera_model transform
                         (combine image_pts model) res residual_idx ;;
      residual_images camera_model model rest res' idx'
  end.

(** [residual(p)] *)
Definition residual (c : Calibration) (p : list K) : option (list K) :=
  '(camera_model, transforms) <- decode_params c p ;;
  let num_images := length (image_pts_set c) in
  let num_target_points := length (model_pts c) in
  let num_residuals := num_images * num_target_points in
  '(res, _) <- residual_images camera_model (model_pts c)
                 (combine (image_pts_set c) transforms)
                 (dvzeros (num_residuals * 2)) 0 ;;
  Some res.

(** The inner loop of [jacobian]: the two rows of one target point. *)
Fixpoint jacobian_points (camera_model : Vec4 K) (tform_idx : nat) (transform : Iso3 K)
    (pts : list (Vec3 K)) (jac : DMat K) (residual_idx : nat) : option (DMat K * nat) :=
  match pts with
  | [] => Some (jac, residual_idx)
  | target_pt :: rest =>
      let transformed_point := iso_transform_point transform target_pt in
      jac1 <- dcopy_block residual_idx 0 (proj_jacobian_wrt_params transformed_point) jac ;;
      let proj_jacobian_wrt_point := proj_jacobian_wrt_point camera_model transformed_point in
      transform_jacobian_wrt_transform <- exp_map_jacobian transformed_point ;;
      jac2 <- dcopy_block residual_idx (4 + tform_idx * 6)
                (dmul_raw proj_jacobian_wrt_point transform_jacobian_wrt_transform) jac1 ;;
      jacobian_points camera_model tform_idx transform rest jac2 (residual_idx + 2)
  end.

(** The outer loop of [jacobian]: the enumerated poses. *)
Fixpoint jacobian_images (camera_model : Vec4 K) (model : list (Vec3 K))
    (tforms : list (nat * Iso3 K)) (jac : DMat K) (residual_idx : nat)
    : option (DMat K * nat) :=
  match tforms with
  | [] => Some (jac, residual_idx)
  | (tform_idx, transform) :: rest =>
      '(jac', idx') <- jacobian_points camera_model tform_idx transform model jac residual_idx ;;
      jacobian_images camera_model model rest jac' idx'
  end.

(** [jacobian(p)] *)
Definition jacobian (c : Calibration) (p : list K) : option (DMat K) :=
  '(camera_model, transforms) <- decode_params c p ;;
  let num_images := length (image_pts_set c) in
  let num_target_points := length (model_pts c) in
  let num_residuals := num_images * num_target_points in
  let num_unknowns := 6 * num_images + 4 in
  '(jac, _) <- jacobian_images camera_model (model_pts c)
                 (combine (seq 0 (length transforms)) transforms)
                 (dzeros (num_residuals * 2) num_unknowns) 0 ;;
  Some jac.
End Defs.

Arguments Calibration K : clear implicits.

(** [impl lm::LMProblem for Calibration] *)
#[export] Instance calibration_lm {K : Type} `{Scalar K} `{Trig K}
  : LMProblem K (Calibration K) := {
  LM.residual := residual;
  LM.jacobian := jacobian }.

(** ** Decoding *)

Section Decode.
Context {K : Type} `{Scalar K} `{Trig K}.

(** Pose [i] as [decode_params] reads it. *)
Definition decoded_pose (p : list K) (i : nat) : Iso3 K :=
  exp_map (vec6_of_list (firstn 6 (skipn (4 + 6 * i) p))).

Lemma decode_params_some (c : Calibration K) (p : list K) :
  4 + 6 * length (image_pts_set c) <= length p ->
  decode_params c p =
  Some (vec4_of_list (firstn 4 p), map (decoded_pose p) (seq 0 (length (image_pts_set c)))).
Proof.
  intros Hp. unfold decode_params. rewrite slice_some by lia. simpl.
  rewrite (opt_all_map_some _ (decoded_pose p)); [reflexivity|].
  intros i Hi. apply in_seq in Hi. rewrite slice_some by lia. reflexivity.
Qed.

Lemma decode_params_none (c : Calibration K) (p : list K) :
  length p < 4 + 6 * length (image_pts_set c) -> decode_params c p = None.
Proof.
  intros Hp. unfold decode_params.
  destruct (Nat.ltb_spec (length p) 4) as [H4|H4]; [now rewrite slice_none by lia|].
  rewrite slice_some by lia. simpl.
  rewrite opt_all_none; [reflexivity|].
  apply in_map_iff. exists (length (image_pts_set c) - 1). split.
  - rewrite slice_none by lia. reflexivity.
  - apply in_seq. lia.
Qed.
End Decode.

(** ** The residual in closed form *)

Section ResidualSpec.
Context {K : Type} `{Scalar K} `{Trig K}.

(** The two residual entries of one observation: projected minus
    observed. *)
Definition reprojection_error (cm : Vec4 K) (T : Iso3 K) (obs : Pt2 K) (tgt : Vec3 K)
  : list K :=
  pt2_list (pt2_sub (project cm (iso_transform_point T tgt)) obs).

Definition points_residuals (cm : Vec4 K) (T : Iso3 K) (pairs : list (Pt2 K * Vec3 K))
  : list K :=
  flat_map (fun ot => reprojection_error cm T (fst ot) (snd ot)) pairs.

Definition images_residuals (cm : Vec4 K) (model : list (Vec3 K))
    (images : list (list (Pt2 K) * Iso3 K)) : list K :=
  flat_map (fun it => points_residuals cm (snd it) (combine (fst it) model)) images.

Definition images_pairs (model : list (Vec3 K)) (images : list (list (Pt2 K) * Iso3 K))
  : nat :=
  fold_right (fun it acc => length (combine (fst it) model) + acc) 0 images.

Lemma points_residuals_length (cm : Vec4 K) (T : Iso3 K) (pairs : list (Pt2 K * Vec3 K)) :
  length (points_residuals cm T pairs) = 2 * length pairs.
Proof.
  induction pairs as [|[o t] pairs IH]; simpl; [reflexivity|]. rewrite IH. lia.
Qed.

Lemma images_residuals_length (cm : Vec4 K) (model : list (Vec3 K)) images :
  length (images_residuals cm model images) = 2 * images_pairs model images.
Proof.
  induction images as [|[im T] images IH]; simpl; [reflexivity|].
  rewrite length_app, points_residuals_length, IH. simpl. lia.
Qed.

Lemma images_pairs_le (model : list (Vec3 K)) images :
  images_pairs model images <= length images * length model.
Proof.
  induction images as [|[im T] images IH]; simpl; [lia|].
  rewrite length_combine. lia.
Qed.

Lemma images_pairs_cons (model : list (Vec3 K)) im T images :
  images_pairs model ((im, T) :: images) = length (combine im model) + images_pairs model images.
Proof. reflexivity. Qed.

Lemma splice_app (A B seg : list K) :
  length seg <= length B -> splice (length A) seg (A ++ B) = A ++ seg ++ skipn (length seg) B.
Proof.
  intros Hle. unfold splice. rewrite firstn_app, Nat.sub_diag, firstn_O, app_nil_r,
    firstn_all. rewrite skipn_app, skipn_all2 by lia. simpl.
  replace (length A + length seg - length A) with (length seg) by lia. reflexivity.
Qed.

Lemma reprojection_error_length (cm : Vec4 K) (T : Iso3 K) (o : Pt2 K) (t : Vec3 K) :
  length (reprojection_error cm T o t) = 2.
Proof. reflexivity. Qed.

Lemma residual_points_cons (cm : Vec4 K) (T : Iso3 K) (o : Pt2 K) (t : Vec3 K) pairs res idx :
  residual_points cm T ((o, t) :: pairs) res idx =
  (res' <- dvcopy idx (reprojection_error cm T o t) res ;;
   residual_points cm T pairs res' (idx + 2)).
Proof. reflexivity. Qed.

Lemma residual_points_concat (cm : Vec4 K) (T : Iso3 K) pairs (A B : list K) :
  2 * length pairs <= length B ->
  residual_points cm T pairs (A ++ B) (length A) =
  Some (A ++ points_residuals cm T pairs ++ skipn (2 * length pairs) B,
        length A + 2 * length pairs).
Proof.
  revert A B; induction pairs as [|[o t] pairs IH]; intros A B Hle.
  - cbn. now rewrite Nat.add_0_r.
  - cbn [length] in Hle. rewrite residual_points_cons.
    rewrite dvcopy_some by (rewrite length_app, reprojection_error_length; lia).
    rewrite splice_app by (rewrite reprojection_error_length; lia).
    rewrite reprojection_error_length.
    replace (length A + 2) with (length (A ++ reprojection_error cm T o t))
      by (rewrite length_app, reprojection_error_length; reflexivity).
    rewrite app_assoc, IH by (rewrite length_skipn; lia).
    rewrite skipn_skipn, length_app, reprojection_error_length, <- !app_assoc.
    cbn [length points_residuals flat_map fst snd].
    replace (2 * S (length pairs)) with (2 * length pairs + 2) by lia.
    rewrite <- !app_assoc. f_equal. f_equal. lia.
Qed.

Lemma residual_images_concat (cm : Vec4 K) (model : list (Vec3 K)) images (A B : list K) :
  2 * images_pairs model images <= length B ->
  residual_images cm model images (A ++ B) (length A) =
  Some (A ++ images_residuals cm model images ++ skipn (2 * images_pairs model images) B,
        length A + 2 * images_pairs model images).
Proof.
  revert A B; induction images as [|[im T] images IH]; intros A B Hle.
  - cbn. now rewrite Nat.add_0_r.
  - rewrite images_pairs_cons in *. cbn [residual_images].
    rewrite residual_points_concat by lia.
    replace (length A + 2 * length (combine im model))
      with (length (A ++ points_residuals cm T (combine im model)))
      by (rewrite length_app, points_residuals_length; reflexivity).
    rewrite app_assoc, IH by (rewrite length_skipn; lia).
    rewrite skipn_skipn, length_app, points_residuals_length, <- !app_assoc.
    cbn [images_residuals flat_map fst snd].
    replace (2 * (length (combine im model) + images_pairs model images))
      with (2 * images_pairs model images + 2 * length (combine im model)) by lia.
    rewrite <- !app_assoc. f_equal. f_equal. lia.
Qed.
End ResidualSpec.

(** ** The Jacobian entry by entry *)

(** Row [r = 2 (t N + j) + a] is coordinate [a] of point [j] of image [t]. *)
Lemma row_decomp (N t j a : nat) :
  j < N -> a < 2 ->
  (2 * (t * N + j) + a) / (2 * N) = t /\
  ((2 * (t * N + j) + a) mod (2 * N)) / 2 = j /\ (2 * (t * N + j) + a) mod 2 = a.
Proof.
  intros Hj Ha.
  replace (2 * (t * N + j) + a) with ((2 * j + a) + t * (2 * N)) by lia.
  split; [|split].
  - rewrite Nat.div_add, Nat.div_small by lia. reflexivity.
  - rewrite Nat.Div0.mod_add, Nat.mod_small by lia.
    replace (2 * j + a) with (a + j * 2) by lia.
    rewrite Nat.div_add, Nat.div_small by lia. reflexivity.
  - replace (2 * j + a + t * (2 * N)) with (a + (j + t * N) * 2) by lia.
    rewrite Nat.Div0.mod_add, Nat.mod_small by lia. reflexivity.
Qed.

Section JacobianSpec.
Context {K : Type} `{Scalar K} `{Trig K}.
Variables (cm : Vec4 K) (pose : nat -> Iso3 K) (model : list (Vec3 K)) (M : nat).
Let N := length model.

(** The entry [(r, k)] of the Jacobian: the intrinsic block in columns
    [0..4), the chain-rule block of the row's own pose in columns
    [4+6i .. 4+6i+6), zero elsewhere. *)
Definition jac_entry (r k : nat) : K :=
  let i := r / (2 * N) in
  let j := (r mod (2 * N)) / 2 in
  let a := r mod 2 in
  let tp := iso_transform_point (pose i) (nth j model v3_zero) in
  if k <? 4 then dget (proj_jacobian_wrt_params tp) a k
  else if (4 + i * 6 <=? k) && (k <? 4 + i * 6 + 6) then
    dget (dmul_raw (proj_jacobian_wrt_point cm tp) (exp_map_jacobian_block tp)) a (k - (4 + i * 6))
  else s_zero.

(** The loop invariant: the shape, the rows above [idx] written, the
    others still zero. *)
Definition jac_inv (jac : DMat K) (idx : nat) : Prop :=
  dmat_wf jac /\ nrows jac = M * N * 2 /\ ncols jac = 6 * M + 4 /\
  forall r k, r < M * N * 2 -> k < 6 * M + 4 ->
    dget jac r k = if r <? idx then jac_entry r k else s_zero.

Lemma jacobian_points_inv (t j : nat) (jac : DMat K) :
  t < M -> j <= N -> jac_inv jac (2 * (t * N + j)) ->
  exists jac', jacobian_points cm t (pose t) (skipn j model) jac (2 * (t * N + j))
               = Some (jac', 2 * (t * N + N)) /\ jac_inv jac' (2 * (t * N + N)).
Proof.
  remember (N - j) as n eqn:En. revert j jac En.
  induction n as [|n IH]; intros j jac En Ht Hj Hinv.
  - assert (j = N) as -> by lia. rewrite skipn_all2 by (unfold N; lia).
    simpl. eauto.
  - rewrite (skipn_S_nth j model v3_zero) by (unfold N in *; lia). cbn [jacobian_points].
    set (tp := iso_transform_point (pose t) (nth j model v3_zero)).
    destruct Hinv as (Hwf & Hr & Hc & He).
    destruct (dcopy_block_some (2 * (t * N + j)) 0 (proj_jacobian_wrt_params tp) jac)
      as [jac1 E1]; [simpl; nia|simpl; lia|]. rewrite E1.
    rewrite exp_map_jacobian_some.
    set (B2 := dmul_raw (proj_jacobian_wrt_point cm tp) (exp_map_jacobian_block tp)).
    destruct (dcopy_block_shape _ _ _ _ _ E1) as [Hr1 Hc1].
    assert (Hwf1 : dmat_wf jac1)
      by (eapply (dcopy_block_wf _ _ (proj_jacobian_wrt_params tp) jac);
          [exact Hwf| |exact E1]; repeat constructor).
    destruct (dcopy_block_some (2 * (t * N + j)) (4 + t * 6) B2 jac1)
      as [jac2 E2]; [simpl; nia|simpl; lia|]. rewrite E2.
    destruct (dcopy_block_shape _ _ _ _ _ E2) as [Hr2 Hc2].
    assert (Hwf2 : dmat_wf jac2)
      by (eapply (dcopy_block_wf _ _ B2 jac1);
          [exact Hwf1|exact (dmul_raw_wf (proj_jacobian_wrt_point cm tp) (exp_map_jacobian_block tp) eq_refl)|exact E2]).
    replace (2 * (t * N + j) + 2) with (2 * (t * N + S j)) by lia.
    apply IH; [lia|lia|lia|]. unfold jac_inv.
    split; [exact Hwf2|]. split; [lia|]. split; [lia|].
    intros r k Hr' Hk'.
    rewrite (dget_dcopy_block _ _ _ _ _ r k Hwf1 (dmul_raw_wf (proj_jacobian_wrt_point cm tp) (exp_map_jacobian_block tp) eq_refl) E2) by lia.
    assert (HB1 : dmat_wf (proj_jacobian_wrt_params tp)) by (repeat constructor).
    rewrite (dget_dcopy_block _ _ _ _ _ r k Hwf HB1 E1) by lia.
    rewrite He by lia.
    assert (HsB1 : nrows (proj_jacobian_wrt_params tp) = 2 /\
                   ncols (proj_jacobian_wrt_params tp) = 4) by (split; reflexivity).
    assert (HsB2 : nrows (dmul_raw (proj_jacobian_wrt_point cm tp) (exp_map_jacobian_block tp)) = 2
                   /\ ncols (dmul_raw (proj_jacobian_wrt_point cm tp) (exp_map_jacobian_block tp)) = 6)
      by (split; reflexivity).
    unfold B2 in *.
    destruct HsB1 as [E3 E4], HsB2 as [E5 E6]; rewrite ?E3, ?E4, ?E5, ?E6.
    destruct (Nat.ltb_spec r (2 * (t * N + j))) as [Hlt|Hge].
    + nat_cases.
    + destruct (Nat.ltb_spec r (2 * (t * N + j) + 2)) as [Hin|Hout]; [|nat_cases].
      destruct (row_decomp N t j (r - 2 * (t * N + j)) ltac:(lia) ltac:(lia))
        as (Hi & Hjj & Ha).
      replace (2 * (t * N + j) + (r - 2 * (t * N + j))) with r in Hi, Hjj, Ha by lia.
      unfold jac_entry. rewrite Hi, Hjj, Ha. fold tp.
      nat_cases; rewrite ?Nat.sub_0_r; reflexivity.
Qed.

Lemma jacobian_images_inv (t n : nat) (jac : DMat K) :
  t + n = M -> jac_inv jac (2 * (t * N)) ->
  exists jac', jacobian_images cm model (map (fun i => (i, pose i)) (seq t n)) jac (2 * (t * N))
               = Some (jac', 2 * (M * N)) /\ jac_inv jac' (2 * (M * N)).
Proof.
  revert t jac; induction n as [|n IH]; intros t jac Htn Hinv.
  - assert (t = M) as -> by lia. simpl. eauto.
  - cbn [seq map jacobian_images].
    replace (2 * (t * N)) with (2 * (t * N + 0)) in Hinv |- * by lia.
    destruct (jacobian_points_inv t 0 jac ltac:(lia) ltac:(lia) Hinv) as (jac1 & E1 & Hinv1).
    cbn [skipn] in E1. rewrite E1.
    replace (2 * (t * N + N)) with (2 * (S t * N)) in Hinv1 |- * by lia.
    apply IH; [lia|exact Hinv1].
Qed.

Lemma jac_inv_zeros : jac_inv (dzeros (M * N * 2) (6 * M + 4)) 0.
Proof.
  split; [apply dzeros_wf|]. split; [reflexivity|]. split; [reflexivity|].
  intros r k _ _. rewrite dget_dzeros. reflexivity.
Qed.
End JacobianSpec.

(** ** Shapes and closed forms *)

Section Closed.
Context {K : Type} `{Scalar K} `{Trig K}.

Lemma residual_eq (c : Calibration K) (p : list K) :
  4 + 6 * length (image_pts_set c) <= length p ->
  let M := length (image_pts_set c) in
  let N := length (model_pts c) in
  let s := images_residuals (vec4_of_list (firstn 4 p)) (model_pts c)
             (combine (image_pts_set c) (map (decoded_pose p) (seq 0 M))) in
  residual c p = Some (s ++ dvzeros (M * N * 2 - length s)).
Proof.
  intros Hp M N s. unfold residual. rewrite decode_params_some by exact Hp.
  cbn iota beta zeta.
  assert (Hle : 2 * images_pairs (model_pts c)
                      (combine (image_pts_set c) (map (decoded_pose p) (seq 0 M)))
                <= length (dvzeros (M * N * 2))).
  { unfold dvzeros. rewrite repeat_length.
    pose proof (images_pairs_le (model_pts c)
                  (combine (image_pts_set c) (map (decoded_pose p) (seq 0 M)))) as Hb.
    rewrite length_combine, length_map, length_seq, Nat.min_id in Hb. fold M N in Hb. nia. }
  change (dvzeros (length (image_pts_set c) * length (model_pts c) * 2))
    with ([] ++ dvzeros (M * N * 2)).
  change 0 with (length (@nil K)).
  rewrite residual_images_concat by exact Hle. simpl.
  unfold dvzeros. rewrite skipn_repeat. fold s.
  unfold s. rewrite images_residuals_length. reflexivity.
Qed.

Lemma jacobian_some_inv (c : Calibration K) (p : list K) :
  4 + 6 * length (image_pts_set c) <= length p ->
  exists J, jacobian c p = Some J /\
    jac_inv (vec4_of_list (firstn 4 p)) (decoded_pose p) (model_pts c)
            (length (image_pts_set c)) J
            (2 * (length (image_pts_set c) * length (model_pts c))).
Proof.
  intros Hp. unfold jacobian. rewrite decode_params_some by exact Hp.
  cbn iota beta zeta. rewrite length_map, length_seq, combine_map_r.
  destruct (jacobian_images_inv (vec4_of_list (firstn 4 p)) (decoded_pose p) (model_pts c)
              (length (image_pts_set c)) 0 (length (image_pts_set c))
              _ eq_refl (jac_inv_zeros _ _ _ _)) as (J & E & HJ).
  rewrite Nat.mul_0_l, Nat.mul_0_r in E. rewrite E. eauto.
Qed.

End Closed.

(** ** Theorems *)

(** C24: [decode_params] reads the camera model from [param[0..4]] and pose
    [i] from [exp_map] of [param[4+6i .. 4+6i+6]], one pose per observation
    list; it panics exactly when the vector is shorter than [4 + 6M]. *)
Theorem decode_params_spec {K : Type} `{Scalar K} `{Trig K} (c : Calibration K) (p : list K) :
  decode_params c p =
  if 4 + 6 * length (image_pts_set c) <=? length p
  then Some (vec4_of_list (firstn 4 p),
             map (decoded_pose p) (seq 0 (length (image_pts_set c))))
  else None.
Proof.
  destruct (Nat.leb_spec (4 + 6 * length (image_pts_set c)) (length p)).
  - now apply decode_params_some.
  - now apply decode_params_none.
Qed.

(** C6: the residual is the concatenation, image by image and point by
    point in the zipped order, of [project(model, pose_i * X_j) - obs_ij],
    followed by zeros up to its allocated length [2MN]. *)
Theorem residual_closed_form {K : Type} `{Scalar K} `{Trig K} (c : Calibration K) (p : list K) :
  4 + 6 * length (image_pts_set c) <= length p ->
  let M := length (image_pts_set c) in
  let N := length (model_pts c) in
  let s := images_residuals (vec4_of_list (firstn 4 p)) (model_pts c)
             (combine (image_pts_set c) (map (decoded_pose p) (seq 0 M))) in
  residual c p = Some (s ++ dvzeros (M * N * 2 - length s)).
Proof. apply residual_eq. Qed.

(** C5: the Jacobian has [2MN] rows and [4 + 6M] columns and entry
    [jac_entry (r, k)]: for the row [r] of coordinate [a] of point [j] of
    image [i], columns [0..4) hold [proj_jacobian_wrt_params], columns
    [4+6i .. 4+6i+6) hold [proj_jacobian_wrt_point * exp_map_jacobian]
    at the transformed point, and every other entry is zero. *)
Theorem jacobian_entries {K : Type} `{Scalar K} `{Trig K} (c : Calibration K) (p : list K) :
  4 + 6 * length (image_pts_set c) <= length p ->
  let M := length (image_pts_set c) in
  let N := length (model_pts c) in
  exists J, jacobian c p = Some J /\ dmat_wf J /\ nrows J = M * N * 2 /\ ncols J = 6 * M + 4 /\
    forall r k, r < M * N * 2 -> k < 6 * M + 4 ->
      dget J r k = jac_entry (vec4_of_list (firstn 4 p)) (decoded_pose p) (model_pts c) r k.
Proof.
  intros Hp M N. destruct (jacobian_some_inv c p Hp) as (J & E & Hwf & Hr & Hc & He).
  exists J. repeat (split; [assumption|]).
  intros r k Hr' Hk'. rewrite He by assumption. fold M N.
  destruct (Nat.ltb_spec r (2 * (M * N))); [reflexivity|lia].
Qed.

Lemma images_pairs_full {K : Type} `{Scalar K} `{Trig K} model
    (obs : list (list (Pt2 K))) (Ts : list (Iso3 K)) :
  Forall (fun im => length im = length model) obs -> length Ts = length obs ->
  images_pairs model (combine obs Ts) = length obs * length model.
Proof.
  intros Hall. revert Ts. induction Hall as [|im obs Him Hall IH]; intros [|T Ts] HT;
    simpl in HT; try lia; [reflexivity|].
  cbn [combine]. rewrite images_pairs_cons, length_combine, Him, IH by lia. simpl. lia.
Qed.

Lemma nth_images_residuals {K : Type} `{Scalar K} `{Trig K} (cm : Vec4 K) model
    (obs : list (list (Pt2 K))) (Ts : list (Iso3 K)) (i j a : nat) :
  Forall (fun im => length im = length model) obs -> length Ts = length obs ->
  i < length obs -> j < length model -> a < 2 ->
  nth (2 * (i * length model + j) + a) (images_residuals cm model (combine obs Ts)) s_zero =
  nth a (reprojection_error cm (nth i Ts (mkIso v3_zero quat_identity))
           (nth j (nth i obs []) (mkP2 s_zero s_zero)) (nth j model v3_zero)) s_zero.
Proof.
  intros Hall HT Hi Hj Ha. rewrite Forall_forall in Hall. unfold images_residuals.
  replace (2 * (i * length model + j) + a) with (i * (2 * length model) + (j * 2 + a)) by lia.
  rewrite (nth_flat_map_block _ _ (2 * length model) _ _ _ ([], mkIso v3_zero quat_identity)).
  - rewrite combine_nth by lia. cbn [fst snd]. unfold points_residuals.
    rewrite (nth_flat_map_block _ _ 2 _ _ _ (mkP2 s_zero s_zero, v3_zero)).
    + rewrite combine_nth by (apply Hall, nth_In; lia). reflexivity.
    + intros; apply reprojection_error_length.
    + rewrite length_combine, Hall by (apply nth_In; lia). lia.
    + lia.
  - intros [im T] Hin. cbn [fst snd]. rewrite points_residuals_length, length_combine.
    apply in_combine_l in Hin. rewrite Hall by exact Hin. lia.
  - rewrite length_combine. lia.
  - lia.
Qed.

(** C25: on consistent input (every observation list as long as the
    target), the residual has exactly [2MN] entries and entry
    [2 (i N + j) + a] is coordinate [a] of [project(model, pose_i * X_j)
    - obs_ij], the layout of spec section 3. *)
Theorem residual_layout {K : Type} `{Scalar K} `{Trig K} (c : Calibration K) (p : list K) :
  4 + 6 * length (image_pts_set c) <= length p ->
  Forall (fun im => length im = length (model_pts c)) (image_pts_set c) ->
  exists r, residual c p = Some r /\
    length r = length (image_pts_set c) * length (model_pts c) * 2 /\
    forall i j a, i < length (image_pts_set c) -> j < length (model_pts c) -> a < 2 ->
      nth (2 * (i * length (model_pts c) + j) + a) r s_zero =
      nth a (reprojection_error (vec4_of_list (firstn 4 p)) (decoded_pose p i)
               (nth j (nth i (image_pts_set c) []) (mkP2 s_zero s_zero))
               (nth j (model_pts c) v3_zero)) s_zero.
Proof.
  intros Hp Hall. rewrite (residual_eq c p Hp). eexists; split; [reflexivity|].
  set (Ts := map (decoded_pose p) (seq 0 (length (image_pts_set c)))).
  assert (HT : length Ts = length (image_pts_set c)) by (unfold Ts; now rewrite length_map, length_seq).
  assert (Hs : length (images_residuals (vec4_of_list (firstn 4 p)) (model_pts c)
                         (combine (image_pts_set c) Ts))
               = length (image_pts_set c) * length (model_pts c) * 2).
  { rewrite images_residuals_length, images_pairs_full by auto. lia. }
  split.
  - rewrite length_app, Hs. unfold dvzeros. rewrite repeat_length. lia.
  - intros i j a Hi Hj Ha. rewrite app_nth1 by (rewrite Hs; nia).
    rewrite nth_images_residuals by (auto; lia).
    unfold Ts. rewrite (nth_map_lt _ _ _ _ 0) by (rewrite length_seq; lia).
    rewrite seq_nth by lia. reflexivity.
Qed.

(** C13: the residual rows drift on mismatched input.  When image 0 has
    [k < N] observations and image 1 at least one, residual entries
    [2k, 2k+1] hold the reprojection error of image 1's first point under
    pose 1, while row [2k] of the Jacobian, whose layout assumes [N]
    observations per image, is a row of image 0: its pose-1 columns
    [10..16) are zero.  Residual and Jacobian rows no longer describe the
    same observation, and the last rows of the residual are zero. *)
Theorem residual_rows_shift {K : Type} `{Scalar K} `{Trig K} (c : Calibration K) (p : list K) :
  4 + 6 * length (image_pts_set c) <= length p ->
  2 <= length (image_pts_set c) ->
  length (nth 0 (image_pts_set c) []) < length (model_pts c) ->
  0 < length (nth 1 (image_pts_set c) []) ->
  let k := length (nth 0 (image_pts_set c) []) in
  exists r J, residual c p = Some r /\ jacobian c p = Some J /\
    firstn 2 (skipn (2 * k) r) =
      reprojection_error (vec4_of_list (firstn 4 p)) (decoded_pose p 1)
        (nth 0 (nth 1 (image_pts_set c) []) (mkP2 s_zero s_zero))
        (nth 0 (model_pts c) v3_zero) /\
    forall col, 10 <= col < 16 -> dget J (2 * k) col = s_zero.
Proof.
  intros Hp HM Hk H1 k.
  destruct (jacobian_some_inv c p Hp) as (J & EJ & _ & _ & _ & HJ).
  exists (let M := length (image_pts_set c) in let N := length (model_pts c) in
          let s := images_residuals (vec4_of_list (firstn 4 p)) (model_pts c)
                     (combine (image_pts_set c) (map (decoded_pose p) (seq 0 M))) in
          s ++ dvzeros (M * N * 2 - length s)), J.
  split; [apply residual_eq, Hp|]. split; [exact EJ|]. split.
  - cbv zeta. unfold k in *. clear EJ HJ.
    destruct c as [model obs]; cbn [image_pts_set model_pts] in *.
    destruct obs as [|o0 [|o1 rest]]; simpl in HM; try lia. cbn [nth] in *.
    destruct o1 as [|x o1]; simpl in H1; [lia|].
    destruct model as [|y model]; simpl in Hk; [lia|].
    cbn [length].
    cbn [seq map combine images_residuals flat_map fst snd].
    rewrite <- !app_assoc, skipn_app.
    rewrite points_residuals_length, length_combine.
    replace (2 * length o0 - 2 * Nat.min (length o0) (length (y :: model))) with 0 by
      (rewrite Nat.min_l by (simpl; lia); lia).
    rewrite skipn_all2 by (rewrite points_residuals_length, length_combine; simpl; lia).
    cbn [app skipn combine points_residuals flat_map fst snd].
    rewrite <- app_assoc, firstn_app, reprojection_error_length, Nat.sub_diag, firstn_O,
      app_nil_r, firstn_all2 by (rewrite reprojection_error_length; lia).
    reflexivity.
  - intros col Hcol. rewrite HJ by nia.
    destruct (Nat.ltb_spec (2 * k) (2 * (length (image_pts_set c) * length (model_pts c))));
      [|nia].
    destruct (row_decomp (length (model_pts c)) 0 k 0 ltac:(lia) ltac:(lia)) as (Hi & Hj & Ha).
    replace (2 * (0 * length (model_pts c) + k) + 0) with (2 * k) in Hi, Hj, Ha by lia.
    unfold jac_entry. rewrite Hi, Hj, Ha. nat_cases.
Qed.

(** The calibration problem meets the solver's shape contract with
    [4 + 6M] parameters and [2MN] residuals, whatever its observation
    lists. *)
#[export] Instance calibration_shape {K : Type} `{Scalar K} `{Trig K} (c : Calibration K) :
  LMShape c (4 + 6 * length (image_pts_set c))
            (length (image_pts_set c) * length (model_pts c) * 2).
Proof.
  split; intros x Hx; cbn [LM.residual LM.jacobian calibration_lm].
  - rewrite (residual_eq c x ltac:(lia)). eexists; split; [reflexivity|].
    rewrite length_app. unfold dvzeros. rewrite repeat_length, images_residuals_length.
    pose proof (images_pairs_le (model_pts c) (combine (image_pts_set c)
                  (map (decoded_pose x) (seq 0 (length (image_pts_set c)))))) as Hb.
    rewrite length_combine, length_map, length_seq, Nat.min_id in Hb. nia.
  - destruct (jacobian_some_inv c x ltac:(lia)) as (J & E & Hwf & Hr & Hc & _).
    exists J. split; [exact E|]. split; [exact Hwf|]. split; [exact Hr|lia].
Qed.

(** C7: the solver never panics on a calibration problem: from a
    parameter vector of length [4 + 6M], [levenberg_marquardt] returns a
    vector of that length, whatever the observation lists hold (the shape
    contract of the solver discharged by the calibration problem). *)
Theorem calibration_lm_no_panic {K : Type} `{Scalar K} `{Trig K} (c : Calibration K)
    (p : list K) (max_iter : nat) (tol lambda gamma : K) :
  length p = 4 + 6 * length (image_pts_set c) ->
  exists x, levenberg_marquardt c p max_iter tol lambda gamma = Some x /\
            length x = 4 + 6 * length (image_pts_set c).
Proof.
  intros Hp.
  exact (lm_loop_no_panic c tol gamma _ _ (LMShape0 := calibration_shape c) max_iter p lambda Hp).
Qed.

(** ** Witnesses *)

(** One image of one point, observed consistently. *)
Definition cal_one : Calibration R :=
  mkCalibration [mkV3 0%R 0%R 1%R] [[mkP2 0%R 0%R]].
(** Two images of a two-point target; image 0 lacks its second
    observation. *)
Definition cal_short : Calibration R :=
  mkCalibration [mkV3 0%R 0%R 1%R; mkV3 1%R 0%R 1%R]
                [[mkP2 1%R 1%R]; [mkP2 2%R 2%R; mkP2 3%R 3%R]].
Definition params10 : list R := repeat 0%R 10.
Definition params16 : list R := repeat 0%R 16.

Lemma residual_closed_form_witness :
  4 + 6 * length (image_pts_set cal_short) <= length params16 /\
  residual cal_short params16 =
  Some (images_residuals (vec4_of_list (firstn 4 params16)) (model_pts cal_short)
          (combine (image_pts_set cal_short) (map (decoded_pose params16) (seq 0 2))) ++
        dvzeros (2 * 2 * 2 - length (images_residuals (vec4_of_list (firstn 4 params16))
                   (model_pts cal_short)
                   (combine (image_pts_set cal_short) (map (decoded_pose params16) (seq 0 2)))))).
Proof.
  assert (Hp : 4 + 6 * length (image_pts_set cal_short) <= length params16)
    by (simpl; lia).
  split; [exact Hp|]. exact (residual_closed_form cal_short params16 Hp).
Defined.

Lemma jacobian_entries_witness :
  4 + 6 * length (image_pts_set cal_one) <= length params10 /\
  exists J, jacobian cal_one params10 = Some J /\ dmat_wf J /\ nrows J = 1 * 1 * 2 /\
    ncols J = 6 * 1 + 4 /\
    forall r k, r < 1 * 1 * 2 -> k < 6 * 1 + 4 ->
      dget J r k = jac_entry (vec4_of_list (firstn 4 params10)) (decoded_pose params10)
                     (model_pts cal_one) r k.
Proof.
  assert (Hp : 4 + 6 * length (image_pts_set cal_one) <= length params10) by (simpl; lia).
  split; [exact Hp|]. exact (jacobian_entries cal_one params10 Hp).
Defined.

Lemma residual_layout_witness :
  4 + 6 * length (image_pts_set cal_one) <= length params10 /\
  Forall (fun im => length im = length (model_pts cal_one)) (image_pts_set cal_one) /\
  exists r, residual cal_one params10 = Some r /\ length r = 1 * 1 * 2 /\
    forall i j a, i < 1 -> j < 1 -> a < 2 ->
      nth (2 * (i * 1 + j) + a) r s_zero =
      nth a (reprojection_error (vec4_of_list (firstn 4 params10)) (decoded_pose params10 i)
               (nth j (nth i (image_pts_set cal_one) []) (mkP2 s_zero s_zero))
               (nth j (model_pts cal_one) v3_zero)) s_zero.
Proof.
  assert (Hp : 4 + 6 * length (image_pts_set cal_one) <= length params10) by (simpl; lia).
  assert (Hc : Forall (fun im => length im = length (model_pts cal_one)) (image_pts_set cal_one))
    by (repeat constructor).
  split; [exact Hp|]. split; [exact Hc|]. exact (residual_layout cal_one params10 Hp Hc).
Defined.

Lemma residual_rows_shift_witness :
  4 + 6 * length (image_pts_set cal_short) <= length params16 /\
  2 <= length (image_pts_set cal_short) /\
  length (nth 0 (image_pts_set cal_short) []) < length (model_pts cal_short) /\
  0 < length (nth 1 (image_pts_set cal_short) []) /\
  exists r J, residual cal_short params16 = Some r /\ jacobian cal_short params16 = Some J /\
    firstn 2 (skipn (2 * 1) r) =
      reprojection_error (vec4_of_list (firstn 4 params16)) (decoded_pose params16 1)
        (mkP2 2%R 2%R) (mkV3 0%R 0%R 1%R) /\
    forall col, 10 <= col < 16 -> dget J (2 * 1) col = s_zero.
Proof.
  assert (H1 : 4 + 6 * length (image_pts_set cal_short) <= length params16) by (simpl; lia).
  assert (H2 : 2 <= length (image_pts_set cal_short)) by (simpl; lia).
  assert (H3 : length (nth 0 (image_pts_set cal_short) []) < length (model_pts cal_short))
    by (simpl; lia).
  assert (H4 : 0 < length (nth 1 (image_pts_set cal_short) [])) by (simpl; lia).
  split; [exact H1|]. split; [exact H2|]. split; [exact H3|]. split; [exact H4|].
  exact (residual_rows_shift cal_short params16 H1 H2 H3 H4).
Defined.

Lemma calibration_lm_no_panic_witness :
  length params10 = 4 + 6 * length (image_pts_set cal_one) /\
  exists x, levenberg_marquardt cal_one params10 100 (1 / 100000000)%R (1 / 1000)%R 10%R
            = Some x /\ length x = 4 + 6 * length (image_pts_set cal_one).
Proof.
  assert (Hp : length params10 = 4 + 6 * length (image_pts_set cal_one)) by reflexivity.
  split; [exact Hp|]. exact (calibration_lm_no_panic cal_one params10 100 _ _ _ Hp).
Defined.

End Calibration.
