(* ===== verification/Problem.v ===== *)
(** * The problem file loader (src/src/problem.rs)

    [Problem] is the deserialised content of a problem file: the
    intrinsics matrix [K], the planar target points [world_points], the
    ground-truth poses [extrinsics] and one observed point list per image
    [image_points].  [load] opens a file, reads it and parses it; the file
    system and serde_json are library code the loader only calls, so they
    are the variables [file_open], [read_to_string] and [from_str] of the
    section, and the theorems hold for every file system and every parser.
    Rust's [Result] is [result]; a panic ([expect], [unwrap], a failed
    [assert!]) is [None], as everywhere in the development.

    The theorems: [load] panics exactly on an I/O failure and returns an
    error only for a parse failure, so the [Result] of its signature never
    carries an I/O error; the test [test_load] panics on every file
    system. *)

From Stdlib Require Import String List Arith.
Import ListNotations.
From S2P Require Import Prelude Fixed.

Module Problem.

(** [Result<T, E>] *)
Inductive result (A E : Type) := Ok (a : A) | Err (e : E).
Arguments Ok {A E} a.
Arguments Err {A E} e.

(** [r.unwrap()]: an [Err] panics. *)
Definition unwrap {A E : Type} (r : result A E) : option A :=
  match r with Ok a => Some a | Err _ => None end.

(** [struct Problem] *)
Record Problem (F : Type) := mkProblem {
  K : Mat3 F;
  world_points : list (Pt2 F);
  extrinsics : list (Iso3 F);
  image_points : list (list (Pt2 F)) }.
Arguments mkProblem {F} K world_points extrinsics image_points.
Arguments K {F} _.
Arguments world_points {F} _.
Arguments extrinsics {F} _.
Arguments image_points {F} _.

Section Load.
Context {F : Type}.
Variables (File IoError ParseError : Type).
Variable file_open : string -> result File IoError.
Variable read_to_string : File -> result string IoError.
Variable from_str : string -> result (Problem F) ParseError.

(** [load(path)]: [File::open(..).expect(..)] and
    [read_to_string(..).expect(..)] panic on an I/O error; the [?] of
    [serde_json::from_str] returns the parse error. *)
Definition load (path : string) : option (result (Problem F) ParseError) :=
  match file_open path with
  | Err _ => None
  | Ok file =>
      match read_to_string file with
      | Err _ => None
      | Ok content =>
          match from_str content with
          | Err e => Some (Err e)
          | Ok p => Some (Ok p)
          end
      end
  end.

(** [test_load]: [load("problem.json").unwrap(); assert!(1==2);] *)
Definition test_load : option unit :=
  r <- load "problem.json" ;;
  _ <- unwrap r ;;
  if 1 =? 2 then Some tt else None.
End Load.

(** ** Theorems *)

(** C12: [load] panics exactly when opening or reading the file fails;
    otherwise it returns what the parser returns, so an [Err] of [load]
    is always a parse error of the file's content and never an I/O
    error.  [test_load] panics on every file system: at the [expect]s,
    at the [unwrap], or at [assert!(1==2)]. *)
Theorem load_outcomes {F File IoError ParseError : Type}
    (file_open : string -> result File IoError) (read_to_string : File -> result string IoError)
    (from_str : string -> result (Problem F) ParseError) (path : string) :
  test_load File IoError ParseError file_open read_to_string from_str = None /\
  (load File IoError ParseError file_open read_to_string from_str path = None <->
   (exists e, file_open path = Err e) \/
   (exists f e, file_open path = Ok f /\ read_to_string f = Err e)) /\
  (forall r, load File IoError ParseError file_open read_to_string from_str path = Some r <->
   exists f c, file_open path = Ok f /\ read_to_string f = Ok c /\ from_str c = r).
Proof.
  split; [unfold test_load; destruct (load _ _ _ _ _ _ _) as [[p|e]|]; reflexivity|].
  unfold load. destruct (file_open path) as [f|e] eqn:Ef.
  - destruct (read_to_string f) as [c|e] eqn:Er.
    + split.
      * split; [destruct (from_str c); discriminate|].
        intros [(e & He)|(f' & e & Hf & He)]; [discriminate|congruence].
      * intros r. split.
        -- intros Hr. exists f, c. split; [reflexivity|]. split; [exact Er|]. destruct (from_str c); congruence.
        -- intros (f' & c' & Hf & Hc & <-). assert (f' = f) as -> by congruence.
           assert (c' = c) as -> by congruence. destruct (from_str c); reflexivity.
    + split; [split; [eauto|reflexivity]|].
      intros r. split; [discriminate|]. intros (f' & c & Hf & Hc & _).
      assert (f' = f) as -> by congruence. congruence.
  - split; [split; [eauto|reflexivity]|].
    intros r. split; [discriminate|]. intros (f & c & Hf & _). discriminate.
Qed.

End Problem.
