(* ===== verification/TestOpt.v ===== *)
(** * The calibration test [test_opt] (src/src/optimize.rs, lines 270-345)

    The test composes the whole program: it loads a [Problem], lifts the
    planar target points to [z = 0], keeps the first three observation
    lists, builds the [Calibration] problem and the initial vector
    [(550, 550, 320, 240)] followed by one copy of
    [log_map(Isometry3::translation(0, 0, 3))] per image, runs
    [levenberg_marquardt] with [max_iter = 300000], [tol = 1e-8],
    [lambda = 1e-3], [gamma = 10], decodes one pose per ground-truth
    extrinsic for printing, and ends in [assert!(1==2)].  Printing is I/O
    and is not modelled; the values printed are.

    The theorems: the initial vector in closed form (an equivalence with
    the block vector the writes build); the solve on the test's problem
    never panics, whatever the loaded data; every initial pose decodes to
    the zero-rotation pose at which [LieJacobian] shows the rotation
    columns of [exp_map_jacobian] disagree with [exp_map]; and the test
    cannot pass: it panics in the printing loop when the file holds more
    ground-truth poses than the images it solves for, and at the final
    assertion otherwise. *)

From Stdlib Require Import List Arith Lia Reals Lra ZArith.
Import ListNotations.
From S2P Require Import Prelude Scalars DMatrix Fixed Lie LM Calibration Problem.
Import Lie LM Calibration Problem.

Module TestOpt.
Section Defs.
Context {F : Type} `{Scalar F} `{Trig F}.

(** [na::Point3::new(p.x, p.y, 0.0)] *)
Definition lift_point (p : Pt2 F) : Vec3 F := mkV3 (px p) (py p) s_zero.

(** [na::Isometry3::translation(x, y, z)] *)
Definition iso_translation (x y z : F) : Iso3 F := mkIso (mkV3 x y z) quat_identity.

(** The loop [for idx in 0..imaged_pts.len()] copying [init_pose_lie]
    into the view [(4 + idx * 6, 0)] of [init_param]. *)
Fixpoint populate_poses (idxs : list nat) (init_pose_lie init_param : list F)
  : option (list F) :=
  match idxs with
  | [] => Some init_param
  | idx :: rest =>
      init_param <- dvcopy (4 + idx * 6) init_pose_lie init_param ;;
      populate_poses rest init_pose_lie init_param
  end.

(** The problem and the initial vector, lines 280-326. *)
Definition test_opt_setup (problem : Problem F) : option (Calibration F * list F) :=
  let source_pts := map lift_point (world_points problem) in
  let imaged_pts := firstn 3 (image_points problem) in
  let cal_cost := mkCalibration source_pts imaged_pts in
  let init_param := dvzeros (4 + length imaged_pts * 6) in
  init_param <- replace_nth 0 (s_of_Z 550) init_param ;;
  init_param <- replace_nth 1 (s_of_Z 550) init_param ;;
  init_param <- replace_nth 2 (s_of_Z 320) init_param ;;
  init_param <- replace_nth 3 (s_of_Z 240) init_param ;;
  let init_pose_lie := log_map (iso_translation s_zero s_zero (s_of_Z 3)) in
  init_param <- populate_poses (seq 0 (length imaged_pts)) (vec6_list init_pose_lie) init_param ;;
  Some (cal_cost, init_param).

(** The hyper-parameters of lines 326-329. *)
Definition test_max_iter : nat := N.to_nat 300000.
Definition test_tol : F := s_one ⊘ s_of_Z 100000000.
Definition test_lambda : F := s_one ⊘ s_of_Z 1000.
Definition test_gamma : F := s_of_Z 10.

(** The solve, line 331. *)
Definition test_opt_run (problem : Problem F) : option (list F) :=
  '(cal_cost, init_param) <- test_opt_setup problem ;;
  levenberg_marquardt cal_cost init_param test_max_iter test_tol test_lambda test_gamma.

(** The printing loop, lines 335-344: pose [i] of the result for every
    ground-truth extrinsic [i]; the fixed view panics past the end. *)
Definition print_transforms (result : list F) (transforms : list (Iso3 F))
  : option (list (Iso3 F)) :=
  opt_all (map (fun i => v <- slice (4 + 6 * i) 6 result ;; Some (exp_map (vec6_of_list v)))
               (seq 0 (length transforms))).

(** [test_opt], from the outcome of [load("problem.json")]. *)
Definition test_opt {E : Type} (loaded : option (result (Problem F) E)) : option unit :=
  r <- loaded ;;
  problem <- unwrap r ;;
  result <- test_opt_run problem ;;
  _ <- print_transforms result (extrinsics problem) ;;
  if 1 =? 2 then Some tt else None.
End Defs.

(** ** The initial vector *)

Section Setup.
Context {F : Type} `{Scalar F} `{Trig F}.

Lemma vec6_list_length (v : Vec6 F) : length (vec6_list v) = 6.
Proof. reflexivity. Qed.

Lemma populate_poses_blocks (pose : list F) (k a : nat) (pre : list F) :
  length pose = 6 -> length pre = 4 + a * 6 ->
  populate_poses (seq a k) pose (pre ++ repeat s_zero (k * 6)) =
  Some (pre ++ concat (repeat pose k)).
Proof.
  intros Hp. revert a pre. induction k as [|k IH]; intros a pre Hpre; [reflexivity|].
  cbn [seq populate_poses]. rewrite dvcopy_some by (rewrite length_app, repeat_length; lia).
  unfold splice. rewrite <- Hpre, firstn_app, Nat.sub_diag, firstn_all, app_nil_r.
  rewrite skipn_app, skipn_all2 by lia. cbn [app].
  replace (length pre + length pose - length pre) with 6 by lia.
  replace (S k * 6) with (6 + k * 6) by lia. rewrite repeat_app, skipn_app.
  rewrite repeat_length, Nat.sub_diag, skipn_all2 by (rewrite repeat_length; lia).
  rewrite app_assoc, IH by (rewrite length_app; lia).
  cbn [repeat concat]. now rewrite app_assoc.
Qed.

(** The writes of lines 297-326 build the camera guess followed by [M]
    copies of the initial pose. *)
Lemma test_opt_setup_eq (problem : Problem F) :
  test_opt_setup problem =
  Some (mkCalibration (map lift_point (world_points problem)) (firstn 3 (image_points problem)),
        [s_of_Z 550; s_of_Z 550; s_of_Z 320; s_of_Z 240] ++
        concat (repeat (vec6_list (log_map (iso_translation s_zero s_zero (s_of_Z 3))))
                       (length (firstn 3 (image_points problem))))).
Proof.
  unfold test_opt_setup, dvzeros. cbn [repeat replace_nth option_map Nat.add].
  match goal with
  | |- context [populate_poses ?i ?p (?a :: ?b :: ?c :: ?d :: ?r)] =>
      change (a :: b :: c :: d :: r) with ([a; b; c; d] ++ r)
  end.
  rewrite (populate_poses_blocks _ _ 0 [_; _; _; _]) by apply vec6_list_length || reflexivity. reflexivity.
Qed.

Lemma test_opt_setup_length (problem : Problem F) (cal : Calibration F) (init : list F) :
  test_opt_setup problem = Some (cal, init) ->
  length init = 4 + 6 * length (image_pts_set cal) /\
  length (image_pts_set cal) = Nat.min 3 (length (image_points problem)).
Proof.
  rewrite test_opt_setup_eq. intros E.
  apply (f_equal (fun o => match o with Some cp => cp | None => (cal, init) end)) in E.
  cbv beta iota in E. apply pair_equal_spec in E as [<- <-].
  cbn [image_pts_set].
  rewrite length_app, length_concat_repeat, length_firstn, vec6_list_length. cbn [length].
  split; [lia|reflexivity].
Qed.

(** The solve on the test's problem returns a vector of the test's
    length, whatever the loaded data. *)
Lemma test_opt_run_some (problem : Problem F) :
  exists x, test_opt_run problem = Some x /\
            length x = 4 + 6 * Nat.min 3 (length (image_points problem)).
Proof.
  destruct (test_opt_setup problem) as [[cal init]|] eqn:E.
  2: { rewrite test_opt_setup_eq in E. discriminate. }
  destruct (test_opt_setup_length _ _ _ E) as [Hlen HM].
  unfold test_opt_run. rewrite E.
  destruct (lm_loop_no_panic cal test_tol test_gamma _ _ (LMShape0 := calibration_shape cal)
              test_max_iter init test_lambda Hlen) as (x & Hx & Hxl).
  exists x. split; [exact Hx|]. rewrite Hxl, HM. reflexivity.
Qed.

(** The printing loop panics exactly when there are more ground-truth
    poses than poses in the result. *)
Lemma print_transforms_none (result : list F) (transforms : list (Iso3 F)) (M : nat) :
  length result = 4 + 6 * M ->
  print_transforms result transforms = None <-> M < length transforms.
Proof.
  intros Hr. unfold print_transforms. split.
  - intros Hn. destruct (Nat.ltb_spec M (length transforms)) as [Hlt|Hge]; [exact Hlt|].
    rewrite (opt_all_map_some _
               (fun i => exp_map (vec6_of_list (firstn 6 (skipn (4 + 6 * i) result))))) in Hn;
      [discriminate|].
    intros i Hi. apply in_seq in Hi. rewrite slice_some by lia. reflexivity.
  - intros Hlt. apply opt_all_none, in_map_iff. exists M. split.
    + rewrite slice_none by lia. reflexivity.
    + apply in_seq. lia.
Qed.
End Setup.

(** ** The test's problem at [R] *)

Section AtR.
Local Open Scope R_scope.

(** [log_map] of a pure translation: the identity quaternion has angle
    [2 acos 1 = 0], the small-angle branch. *)
Lemma log_map_translation (x y z : R) :
  log_map (iso_translation x y z) = mkV6 (mkV3 x y z) v3_zero.
Proof.
  apply log_map_small. unfold iso_translation. cbn [iso_rot qw quat_identity]. rsimpl. rewrite acos_1.
  pose proof lie_eps_R_pos. lra.
Qed.

(** [exp_map] of a pure translation vector. *)
Lemma exp_map_translation (x y z : R) :
  exp_map (mkV6 (mkV3 x y z) v3_zero) = iso_translation x y z.
Proof.
  rewrite exp_map_small; [reflexivity|]. cbn [v6_tail]. unfold v3_norm, v3_norm_squared.
  cbn [v3_zero vx vy vz]. rsimpl. rewrite Rmult_0_r, !Rplus_0_r, sqrt_0.
  pose proof lie_eps_R_pos. lra.
Qed.

(** The initial pose slot [(0, 0, 3, 0, 0, 0)]. *)
Definition init_pose_R : list R := [0; 0; 3; 0; 0; 0].

Lemma init_pose_lie_R :
  vec6_list (log_map (iso_translation (@s_zero R _) s_zero (s_of_Z 3))) = init_pose_R.
Proof. rewrite log_map_translation. reflexivity. Qed.

Lemma decoded_pose_init (M i : nat) :
  (i < M)%nat ->
  decoded_pose ([550; 550; 320; 240] ++ concat (repeat init_pose_R M)) i = iso_translation 0 0 3.
Proof.
  intros Hi. unfold decoded_pose.
  rewrite skipn_app, skipn_all2 by (cbn [length]; lia). cbn [app length].
  replace (4 + 6 * i - 4)%nat with (i * length init_pose_R)%nat by (unfold init_pose_R; cbn [length]; lia).
  rewrite skipn_concat_repeat by lia.
  replace (M - i)%nat with (S (M - i - 1)) by lia. cbn [repeat concat].
  rewrite firstn_app. unfold init_pose_R. cbn [firstn length app Nat.sub].
  exact (exp_map_translation 0 0 3).
Qed.
End AtR.

(** ** Theorems *)

(** C8: the setup of [test_opt] builds, for every loaded problem, the
    calibration problem of the lifted target points and the first three
    observation lists, and the initial vector [(550, 550, 320, 240)]
    followed by [(0, 0, 3, 0, 0, 0)] once per image; every pose
    [decode_params] reads from it is the translation [(0, 0, 3)] with the
    identity rotation (at [R]). *)
Theorem test_opt_initial_guess (problem : Problem R) :
  let M := Nat.min 3 (length (image_points problem)) in
  let cal := mkCalibration (map lift_point (world_points problem)) (firstn 3 (image_points problem)) in
  let init := [550; 550; 320; 240]%R ++ concat (repeat init_pose_R M) in
  test_opt_setup problem = Some (cal, init) /\
  decode_params cal init = Some (mkV4 550 550 320 240, repeat (iso_translation 0 0 3) M)%R.
Proof.
  intros M cal init. split.
  - rewrite test_opt_setup_eq, init_pose_lie_R, length_firstn. reflexivity.
  - rewrite decode_params_some.
    2: { unfold init, cal. cbn [image_pts_set]. rewrite length_app, length_concat_repeat,
           length_firstn. unfold M, init_pose_R. cbn [length]. lia. }
    unfold cal. cbn [image_pts_set]. rewrite length_firstn. fold M. f_equal. f_equal.
    rewrite (map_ext_in _ (fun _ => iso_translation 0 0 3)%R).
    + now rewrite map_const, length_seq.
    + intros i Hi. apply in_seq in Hi. apply decoded_pose_init. lia.
Qed.

(** C11: [test_opt] cannot pass: whatever [load] returned, the test panics.
    After a successful load the solve returns, and the printing loop
    panics exactly when the file holds more ground-truth poses than the
    images the test keeps; otherwise [assert!(1==2)] panics. *)
Theorem test_opt_panics {F E : Type} `{Scalar F} `{Trig F}
    (loaded : option (result (Problem F) E)) :
  test_opt loaded = None /\
  forall problem, loaded = Some (Ok problem) ->
    exists x, test_opt_run problem = Some x /\
      (print_transforms x (extrinsics problem) = None <->
       Nat.min 3 (length (image_points problem)) < length (extrinsics problem)).
Proof.
  split.
  - unfold test_opt. destruct loaded as [[problem|e]|]; [|reflexivity|reflexivity].
    cbn [unwrap]. destruct (test_opt_run problem) as [x|]; [|reflexivity].
    destruct (print_transforms x _); reflexivity.
  - intros problem _. destruct (test_opt_run_some problem) as (x & Hx & Hl).
    exists x. split; [exact Hx|]. exact (print_transforms_none x _ _ Hl).
Qed.

(** ** Witnesses *)

(** One image of one target point, and two ground-truth poses. *)
Definition problem_two_poses : Problem R :=
  mkProblem mat3_id [mkP2 0 0]%R [iso_translation 0 0 3; iso_translation 0 0 3]%R
            [[mkP2 320 240]]%R.

Lemma test_opt_panics_witness :
  test_opt (E := unit) (Some (Ok problem_two_poses)) = None /\
  exists x, test_opt_run problem_two_poses = Some x /\
    (print_transforms x (extrinsics problem_two_poses) = None <->
     Nat.min 3 (length (image_points problem_two_poses)) < length (extrinsics problem_two_poses)).
Proof.
  destruct (test_opt_panics (E := unit) (Some (Ok problem_two_poses))) as [H1 H2].
  split; [exact H1|]. exact (H2 problem_two_poses eq_refl).
Defined.

End TestOpt.
